(** * esp32_mac_collector: the address codec, the capture loop and the catalog

    A shallow embedding of [ESP32Manager] (esp32_mac_collector.py) and the
    properties its specification states about it.

    Conventions of the embedding.
    - A Python [str] is a [string]; every [ascii] stands for the code point
      of the same number (0..255).
    - A Python [int] is a [Z]; a Python [float] is a binary64 [float].
    - A raised exception is the [Raise] case of [result]; nothing in the
      modelled methods catches one except where the source does.
    - [json.load] and [json.dump] belong to the Python library: a file is
      represented by what [json.load] makes of it (see [file]).
    - The serial line and the clock are inputs: a capture is run over the
      trace of what the port and [time.time()] show it (see [serial_env]).
      Clock readings and [timeout] are integers in one unit.
    - What the methods print is kept, as a list of [message]s.

    - The ports that [comports()] lists, how the runs of esptool end and
      what the operator answers are inputs as well (see [watch],
      [flash_env] and [cycle_env]).

    Outside the embedding: the pauses ([time.sleep]), closing the port, a
    file that cannot be opened, read or written, what esptool itself
    prints, a prompt that meets the end of its input, an interrupt from
    the keyboard, and the reading of the command line by [argparse]. *)

From Stdlib Require Import ZArith List String Ascii Bool Lia Floats.
Import ListNotations.

Local Open Scope string_scope.
Local Open Scope Z_scope.

(** ** Exceptions and results *)

Inductive exn : Type :=
| ValueError
| TypeError
| AttributeError
| JSONDecodeError
| SerialException (msg : string).

Inductive result (A : Type) : Type :=
| Ok (a : A)
| Raise (e : exn).
Arguments Ok {A} a.
Arguments Raise {A} e.

Definition bind {A B : Type} (r : result A) (k : A -> result B) : result B :=
  match r with
  | Ok a => k a
  | Raise e => Raise e
  end.

Notation "x <- r ;; k" := (bind r (fun x => k))
  (at level 61, r at next level, right associativity).

(** ** Python string operations *)

Module PyStr.

Definition code (c : ascii) : Z := Z.of_N (N_of_ascii c).

Definition between (lo hi : Z) (c : ascii) : bool :=
  (lo <=? code c) && (code c <=? hi).

(** [str.isspace] on one character, which is also the class [\s] of [re] on
    a [str] pattern: tab to carriage return, the four separators 0x1C..0x1F,
    space, NEL and the no-break space. *)
Definition isspace (c : ascii) : bool :=
  between 9 13 c || between 28 32 c || (code c =? 133) || (code c =? 160).

(** The class [[0-9A-Fa-f]]. *)
Definition is_hex (c : ascii) : bool :=
  between 48 57 c || between 65 70 c || between 97 102 c.

(** The class [[0-9A-F]]: what [format(_, 'X')] writes. *)
Definition is_upper_hex (c : ascii) : bool :=
  between 48 57 c || between 65 70 c.

Fixpoint all (p : ascii -> bool) (s : string) : bool :=
  match s with
  | EmptyString => true
  | String c s' => p c && all p s'
  end.

Fixpoint rev_acc (s acc : string) : string :=
  match s with
  | EmptyString => acc
  | String c s' => rev_acc s' (String c acc)
  end.

Definition rev (s : string) : string := rev_acc s "".

Fixpoint lstrip_by (p : ascii -> bool) (s : string) : string :=
  match s with
  | EmptyString => ""
  | String c s' => if p c then lstrip_by p s' else s
  end.

Definition strip_by (p : ascii -> bool) (s : string) : string :=
  rev (lstrip_by p (rev (lstrip_by p s))).

(** [s.strip()] *)
Definition strip (s : string) : string := strip_by isspace s.

(** If [old] is a prefix of [s], what follows it. *)
Fixpoint drop_prefix (old s : string) : option string :=
  match old, s with
  | EmptyString, _ => Some s
  | String a old', String b s' =>
      if Ascii.eqb a b then drop_prefix old' s' else None
  | String _ _, EmptyString => None
  end.

Fixpoint replace_fuel (fuel : nat) (old new s : string) : string :=
  match fuel with
  | O => s
  | S fuel' =>
      match drop_prefix old s with
      | Some rest => new ++ replace_fuel fuel' old new rest
      | None =>
          match s with
          | EmptyString => ""
          | String c s' => String c (replace_fuel fuel' old new s')
          end
      end
  end.

Fixpoint intersperse (new s : string) : string :=
  match s with
  | EmptyString => new
  | String c s' => new ++ String c (intersperse new s')
  end.

(** [s.replace(old, new)]: the occurrences of [old], found from the left and
    not overlapping, become [new]; an empty [old] matches between any two
    characters and at both ends. *)
Definition replace (old new s : string) : string :=
  match old with
  | EmptyString => intersperse new s
  | String _ _ => replace_fuel (String.length s) old new s
  end.

(** [s.upper()] for the characters whose upper case is again below 256: the
    letters [a-z] and the Latin-1 letters 0xE0..0xFE other than the division
    sign. (Of the characters left as they are, only 0xB5, 0xDF and 0xFF have
    an upper case in Python, outside this range.) *)
Definition upper_char (c : ascii) : ascii :=
  if between 97 122 c || (between 224 254 c && negb (code c =? 247))
  then ascii_of_N (Z.to_N (code c - 32))
  else c.

Fixpoint upper (s : string) : string :=
  match s with
  | EmptyString => ""
  | String c s' => String (upper_char c) (upper s')
  end.

(** [s[i:j]] for [0 <= i <= j]. *)
Definition slice (i j : nat) (s : string) : string :=
  substring i (j - i) s.

(** [sep.join(parts)] *)
Definition join (sep : string) (parts : list string) : string :=
  String.concat sep parts.

(** *** [int(s, 16)] *)

(** The value of a digit in base 16. *)
Definition hex_value (c : ascii) : option Z :=
  if between 48 57 c then Some (code c - 48)
  else if between 65 70 c then Some (code c - 55)
  else if between 97 102 c then Some (code c - 87)
  else None.

(** The white space [int] skips at both ends: the C locale's, and the two
    Latin-1 spaces that the conversion of a [str] turns into a space first. *)
Definition int_space (c : ascii) : bool :=
  between 9 13 c || (code c =? 32) || (code c =? 133) || (code c =? 160).

(** The digits of a literal, most significant first, with single
    underscores allowed between two digits. [prev_digit] tells whether the
    character before was a digit. *)
Fixpoint digits16 (s : string) (acc : Z) (prev_digit : bool) : option Z :=
  match s with
  | EmptyString => if prev_digit then Some acc else None
  | String c s' =>
      match hex_value c with
      | Some d => digits16 s' (16 * acc + d) true
      | None =>
          if (Ascii.eqb c "_" && prev_digit)%bool
          then digits16 s' acc false
          else None
      end
  end.

(** The sign in front of a literal. *)
Definition split_sign (s : string) : bool * string :=
  match s with
  | String "-" r => (true, r)
  | String "+" r => (false, r)
  | _ => (false, s)
  end.

(** The prefix [0x] or [0X] of a literal in base 16, and one underscore
    after it. *)
Definition skip_prefix16 (s : string) : string :=
  match s with
  | String "0" (String x r) =>
      if (Ascii.eqb x "x" || Ascii.eqb x "X")%bool
      then match r with String "_" r' => r' | _ => r end
      else s
  | _ => s
  end.

Definition int16 (s : string) : result Z :=
  let s := strip_by int_space s in
  let '(neg, s) := split_sign s in
  let s := skip_prefix16 s in
  match digits16 s 0 false with
  | Some n => Ok (if neg then - n else n)
  | None => Raise ValueError
  end.

(** *** [format(n, '012X')] *)

Definition hex_digit_upper (d : Z) : ascii :=
  ascii_of_N (Z.to_N (if d <? 10 then 48 + d else 55 + d)).

(** The digits of [n >= 0] in base 16, upper case, no leading zero. *)
Fixpoint hex_upper_fuel (fuel : nat) (n : Z) : string :=
  match fuel with
  | O => ""
  | S fuel' =>
      if n <? 16 then String (hex_digit_upper n) ""
      else hex_upper_fuel fuel' (n / 16) ++ String (hex_digit_upper (n mod 16)) ""
  end.

Definition hex_upper (n : Z) : string :=
  hex_upper_fuel (S (Z.to_nat (Z.log2 n))) n.

Fixpoint zeros (k : nat) : string :=
  match k with
  | O => ""
  | S k' => String "0" (zeros k')
  end.

(** Zero fill to [width] characters, on the left. *)
Definition zfill (width : nat) (s : string) : string :=
  zeros (width - String.length s) ++ s.

(** [format(n, '012X')]: the zeros go between the sign and the digits, and
    the sign counts in the width. *)
Definition format_012X (n : Z) : string :=
  if n <? 0 then String "-" (zfill 11 (hex_upper (- n)))
  else zfill 12 (hex_upper n).

End PyStr.

(** ** The address codec: [increment_mac] *)

(** [range(0, 12, 2)] *)
Definition range_0_12_2 : list nat := [0; 2; 4; 6; 8; 10]%nat.

Definition increment_mac (mac_str : string) (increment : Z) : result string :=
  mac_int <- PyStr.int16 (PyStr.replace ":" "" mac_str) ;;
  let new_mac_int := mac_int + increment in
  let mac_hex := PyStr.format_012X new_mac_int in
  let new_mac :=
    PyStr.join ":" (map (fun i => PyStr.slice i (i + 2) mac_hex) range_0_12_2) in
  Ok new_mac.

(** ** Regular expressions: the fragment of [re] the patterns use *)

Module Re.

(** A pattern. Capturing parentheses are left out: only [group(0)], the whole
    match, is read. *)
Inductive regex : Type :=
| Cls (p : ascii -> bool)        (* one character of a class, [[...]] or \s *)
| Plus (p : ascii -> bool)       (* [[...]+], greedy *)
| Seq (r1 r2 : regex)            (* r1 r2 *)
| Rep (n : nat) (r : regex).     (* r{n} *)

(** Greedy repetition of a class, zero or more times: the longest run is
    tried first, then the shorter ones down to none. [k] is the rest of the
    pattern. *)
Fixpoint star (p : ascii -> bool) (s : string)
    (k : string -> option string) : option string :=
  match s with
  | EmptyString => k s
  | String c s' =>
      if p c
      then match star p s' k with
           | Some rest => Some rest
           | None => k s
           end
      else k s
  end.

(** The backtracking matcher: [run r s k] matches [r] at the start of [s]
    and gives what [k] makes of the text left over, trying the alternatives
    in the order of [re]. *)
Fixpoint run (r : regex) (s : string)
    (k : string -> option string) : option string :=
  match r with
  | Cls p =>
      match s with
      | EmptyString => None
      | String c s' => if p c then k s' else None
      end
  | Plus p =>
      match s with
      | EmptyString => None
      | String c s' => if p c then star p s' k else None
      end
  | Seq r1 r2 => run r1 s (fun s' => run r2 s' k)
  | Rep n r1 =>
      (fix rep (n : nat) (s : string) (k : string -> option string) :=
         match n with
         | O => k s
         | S n' => run r1 s (fun s' => rep n' s' k)
         end) n s k
  end.

(** [re.match(r, s).group(0)] *)
Definition match_at (r : regex) (s : string) : option string :=
  match run r s Some with
  | Some rest => Some (substring 0 (String.length s - String.length rest) s)
  | None => None
  end.

(** [re.search(r, s).group(0)]: the match at the leftmost position that has
    one; [None] when there is none. *)
Fixpoint search (r : regex) (s : string) : option string :=
  match match_at r s with
  | Some m => Some m
  | None =>
      match s with
      | EmptyString => None
      | String _ s' => search r s'
      end
  end.

(** A class given by its members, [[abc]]. *)
Fixpoint one_of (members : string) (c : ascii) : bool :=
  match members with
  | EmptyString => false
  | String m members' => Ascii.eqb m c || one_of members' c
  end.

End Re.

(** ** The address codec: [parse_mac_from_boot_message] *)

(** [[:\s]] *)
Definition colon_or_space (c : ascii) : bool :=
  Re.one_of ":" c || PyStr.isspace c.

(** [[:-]] *)
Definition colon_or_dash : ascii -> bool := Re.one_of ":-".

(** [([0-9A-Fa-f]{2}[:-]){5}([0-9A-Fa-f]{2})] *)
Definition bare_mac : Re.regex :=
  Re.Seq
    (Re.Rep 5 (Re.Seq (Re.Rep 2 (Re.Cls PyStr.is_hex)) (Re.Cls colon_or_dash)))
    (Re.Rep 2 (Re.Cls PyStr.is_hex)).

(** [[Mm][Aa][Cc][:\s]+([0-9A-Fa-f]{2}[:-]){5}([0-9A-Fa-f]{2})] *)
Definition labelled_mac : Re.regex :=
  Re.Seq (Re.Cls (Re.one_of "Mm"))
    (Re.Seq (Re.Cls (Re.one_of "Aa"))
       (Re.Seq (Re.Cls (Re.one_of "Cc"))
          (Re.Seq (Re.Plus colon_or_space) bare_mac))).

Definition mac_patterns : list Re.regex := [labelled_mac; bare_mac].

(** The normalisation of a match. *)
Definition normalize_mac (mac : string) : string :=
  let mac :=
    PyStr.strip
      (PyStr.replace "mac:" ""
         (PyStr.replace "Mac:" "" (PyStr.replace "MAC:" "" mac))) in
  PyStr.upper (PyStr.replace "-" ":" mac).

(** The [for pattern in mac_patterns] loop. *)
Fixpoint first_match (patterns : list Re.regex) (line : string) : option string :=
  match patterns with
  | [] => None
  | pattern :: patterns' =>
      match Re.search pattern line with
      | Some mac => Some (normalize_mac mac)
      | None => first_match patterns' line
      end
  end.

Definition parse_mac_from_boot_message (line : string) : option string :=
  first_match mac_patterns line.

(** ** JSON values and the catalog file *)

#[local] Set Warnings "-register-all".

(** What [json.load] returns and [json.dump] accepts. An object is a [dict]:
    its members in insertion order, with distinct keys. *)
Inductive json : Type :=
| JNull
| JBool (b : bool)
| JInt (n : Z)
| JFloat (x : float)
| JStr (s : string)
| JArr (items : list json)
| JObj (members : list (string * json)).

Fixpoint lookup (key : string) (members : list (string * json)) : option json :=
  match members with
  | [] => None
  | (k, v) :: members' => if String.eqb k key then Some v else lookup key members'
  end.

(** [data.get(key, default)]; only a [dict] has the method. *)
Definition py_get (data : json) (key : string) (default : json) : result json :=
  match data with
  | JObj members =>
      Ok match lookup key members with
         | Some v => v
         | None => default
         end
  | _ => Raise AttributeError
  end.

(** [len(x)] *)
Definition py_len (x : json) : result Z :=
  match x with
  | JStr s => Ok (Z.of_nat (String.length s))
  | JArr items => Ok (Z.of_nat (List.length items))
  | JObj members => Ok (Z.of_nat (List.length members))
  | _ => Raise TypeError
  end.

(** [x.append(item)]; only a [list] has the method. *)
Definition py_append (x item : json) : result json :=
  match x with
  | JArr items => Ok (JArr (items ++ [item]))
  | _ => Raise AttributeError
  end.

(** [x + 1] *)
Definition py_add1 (x : json) : result json :=
  match x with
  | JInt n => Ok (JInt (n + 1))
  | JBool b => Ok (JInt ((if b then 1 else 0) + 1))
  | JFloat f => Ok (JFloat (PrimFloat.add f PrimFloat.one))
  | _ => Raise TypeError
  end.

(** The catalog file [esp32_mac_database.json] as [load_database] meets it:
    not there, there with a text that [json.load] rejects, or there with a
    text that [json.load] reads as [data]. *)
Inductive file : Type :=
| NoFile
| Unparsable
| Holds (data : json).

(** ** The manager and its surroundings *)

Record manager : Type := mkManager {
  baudrate : Z;
  timeout : Z;
  mac_database : json;
  device_counter : json;
  db_file : string
}.

(** What the methods print, one constructor per [print] of the source. *)
Inductive message : Type :=
| Loaded (n : Z)                (* Loaded {n} devices from database *)
| Saved (path : string)         (* Database saved to {path} *)
| Banner (counter : json)       (* the rule, Device #{counter}, the rule *)
| OpeningPort (port : string)   (* Opening port: {port} *)
| PressReset                    (* Press RESET button on ESP32 now... *)
| Echo (line : string)          (* the line read, indented *)
| WifiDetected (mac : string)   (* WiFi MAC detected: {mac} *)
| BtCalculated (mac : string)   (* BT MAC calculated: {mac} *)
| TimeoutWaiting                (* Timeout waiting for MAC address *)
| ErrorOpeningPort (msg : string). (* Error opening port: {msg} *)

Record state : Type := mkState {
  self : manager;
  disk : file;
  console : list message
}.

(** A method: it runs from a state to a value or an exception and the state
    it leaves. [None] is for the reading loop alone: the trace of the serial
    line it was given has ended while the loop is still inside its time. *)
Definition prog (A : Type) : Type := state -> option (result A * state).

Definition ret {A : Type} (a : A) : prog A := fun st => Some (Ok a, st).

Definition raise {A : Type} (e : exn) : prog A := fun st => Some (Raise e, st).

Definition lift {A : Type} (r : result A) : prog A := fun st => Some (r, st).

Definition pbind {A B : Type} (c : prog A) (k : A -> prog B) : prog B :=
  fun st =>
    match c st with
    | Some (Ok a, st') => k a st'
    | Some (Raise e, st') => Some (Raise e, st')
    | None => None
    end.

Notation "x <~ c ;; k" := (pbind c (fun x => k))
  (at level 61, c at next level, right associativity).
Notation "c ;;; k" := (pbind c (fun _ => k))
  (at level 61, right associativity).

Definition get_self : prog manager := fun st => Some (Ok (self st), st).

Definition set_self (m : manager) : prog unit :=
  fun st => Some (Ok tt, mkState m (disk st) (console st)).

Definition read_disk : prog file := fun st => Some (Ok (disk st), st).

Definition write_disk (f : file) : prog unit :=
  fun st => Some (Ok tt, mkState (self st) f (console st)).

Definition print (m : message) : prog unit :=
  fun st => Some (Ok tt, mkState (self st) (disk st) (console st ++ [m])).

(** [try: c except serial.SerialException as e: handler e] *)
Definition try_serial {A : Type} (c : prog A) (handler : string -> prog A) : prog A :=
  fun st =>
    match c st with
    | Some (Raise (SerialException msg), st') => handler msg st'
    | other => other
    end.

Definition set_mac_database (v : json) : prog unit :=
  m <~ get_self ;;
  set_self (mkManager (baudrate m) (timeout m) v (device_counter m) (db_file m)).

Definition set_device_counter (v : json) : prog unit :=
  m <~ get_self ;;
  set_self (mkManager (baudrate m) (timeout m) (mac_database m) v (db_file m)).

(** ** The catalog: [load_database], [save_database], [__init__] *)

Definition load_database : prog unit :=
  f <~ read_disk ;;
  match f with
  | NoFile => ret tt
  | Unparsable => raise JSONDecodeError
  | Holds data =>
      devices <~ lift (py_get data "devices" (JArr [])) ;;
      set_mac_database devices ;;;
      next_id <~ lift (py_get data "next_id" (JInt 1)) ;;
      set_device_counter next_id ;;;
      m <~ get_self ;;
      n <~ lift (py_len (mac_database m)) ;;
      print (Loaded n)
  end.

(** [now] is [datetime.now().isoformat()]. Opening the file for writing and
    [json.dump] are taken as one step that succeeds. *)
Definition save_database (now : string) : prog unit :=
  m <~ get_self ;;
  let data :=
    JObj [("devices", mac_database m);
          ("next_id", device_counter m);
          ("last_updated", JStr now)] in
  write_disk (Holds data) ;;;
  print (Saved (db_file m)).

(** [ESP32Manager(baudrate, timeout)] in a process that finds [f] on disk. *)
Definition init (baudrate timeout : Z) (f : file) : option (result unit * state) :=
  load_database
    (mkState (mkManager baudrate timeout (JArr []) (JInt 1) "esp32_mac_database.json")
       f []).

(** ** The capture: [collect_mac_from_reset] *)

(** One turn of the reading loop, as the serial line shows itself to it. *)
Inductive rx : Type :=
| Quiet                 (* in_waiting is 0 *)
| Line (text : string)  (* readline(), decoded with the undecodable bytes dropped *)
| Broken (msg : string). (* the port raises SerialException *)

Record tick : Type := mkTick {
  clock : Z;     (* time.time() at the loop test *)
  event : rx
}.

(** What the surroundings give one call: whether the port opens, the clock
    at the start and at every turn of the loop (in the unit of [timeout]),
    what the line carries, and the two readings of [datetime.now()]. *)
Record serial_env : Type := mkEnv {
  open_error : option string;
  start_time : Z;
  ticks : list tick;
  record_stamp : string;
  saved_stamp : string
}.

(** Truth value of a [str]. *)
Definition truthy (s : string) : bool := negb (String.eqb s "").

Definition device_info_of (counter : json) (wifi_mac bt_mac stamp port : string) : json :=
  JObj [("id", counter);
        ("wifi_mac", JStr wifi_mac);
        ("bt_mac", JStr bt_mac);
        ("timestamp", JStr stamp);
        ("port", JStr port)].

(** The body of [if mac and not wifi_mac], up to its [return]. *)
Definition record_device (port : string) (env : serial_env) (mac : string)
    : prog (option json) :=
  let wifi_mac := mac in
  print (WifiDetected wifi_mac) ;;;
  bt_mac <~ lift (increment_mac wifi_mac 2) ;;
  print (BtCalculated bt_mac) ;;;
  m <~ get_self ;;
  let device_info :=
    device_info_of (device_counter m) wifi_mac bt_mac (record_stamp env) port in
  db <~ lift (py_append (mac_database m) device_info) ;;
  set_mac_database db ;;;
  counter <~ lift (py_add1 (device_counter m)) ;;
  set_device_counter counter ;;;
  save_database (saved_stamp env) ;;;
  ret (Some device_info).

(** The [while] loop. [wifi_mac] is still [None] whenever the test
    [mac and not wifi_mac] is reached, since the branch that sets it
    returns. *)
Fixpoint read_loop (port : string) (env : serial_env) (ts : list tick)
    : prog (option json) :=
  match ts with
  | [] => fun _ => None
  | t :: ts' =>
      m <~ get_self ;;
      if clock t - start_time env <? timeout m then
        match event t with
        | Quiet => read_loop port env ts'
        | Broken msg => raise (SerialException msg)
        | Line text =>
            let line := PyStr.strip text in
            if truthy line then
              print (Echo line) ;;;
              match parse_mac_from_boot_message line with
              | Some mac =>
                  if truthy mac then record_device port env mac
                  else read_loop port env ts'
              | None => read_loop port env ts'
              end
            else read_loop port env ts'
        end
      else
        print TimeoutWaiting ;;;
        ret None
  end.

Definition collect_mac_from_reset (port : string) (env : serial_env)
    : prog (option json) :=
  m <~ get_self ;;
  print (Banner (device_counter m)) ;;;
  print (OpeningPort port) ;;;
  print PressReset ;;;
  try_serial
    (match open_error env with
     | Some msg => raise (SerialException msg)
     | None => read_loop port env (ticks env)
     end)
    (fun msg => print (ErrorOpeningPort msg) ;;; ret None).

(** ** Runs of the program across restarts *)

Inductive action : Type :=
| Capture (port : string) (env : serial_env)  (* one call of the capture *)
| Relaunch (baudrate timeout : Z).            (* the process ends; a new one starts *)

(** A new process over the file the old one left. *)
Definition relaunch (baudrate timeout : Z) (st : state) : option state :=
  match init baudrate timeout (disk st) with
  | Some (Ok _, st') => Some st'
  | _ => None
  end.

(** One action. A capture that raises ends the process (nothing catches the
    exception), and the run can go on only from a [Relaunch]; here the next
    process is started at once, with the settings of the old one. *)
Definition exec (a : action) (st : state) : option state :=
  match a with
  | Capture port env =>
      match collect_mac_from_reset port env st with
      | Some (Ok _, st') => Some st'
      | Some (Raise _, st') =>
          relaunch (baudrate (self st')) (timeout (self st')) st'
      | None => None
      end
  | Relaunch b t => relaunch b t st
  end.

Fixpoint run_script (script : list action) (st : state) : option state :=
  match script with
  | [] => Some st
  | a :: script' =>
      match exec a st with
      | Some st' => run_script script' st'
      | None => None
      end
  end.

(** The identifier of a record. *)
Definition record_id (r : json) : option json :=
  match r with
  | JObj members => lookup "id" members
  | _ => None
  end.

(** [first, first + 1, ..., first + count - 1] as identifiers. *)
Fixpoint count_from (first : Z) (count : nat) : list (option json) :=
  match count with
  | O => []
  | S count' => Some (JInt first) :: count_from (first + 1) count'
  end.

(** ** What a capture meets on the line, and what its caller gets *)

(** The loop test [time.time() - start_time < self.timeout] at a turn. *)
Definition in_time (timeout start : Z) (t : tick) : bool :=
  clock t - start <? timeout.

(** A turn that brings no address: nothing waiting, or a line in which
    [parse_mac_from_boot_message] finds none. *)
Definition no_address (e : rx) : bool :=
  match e with
  | Quiet => true
  | Line text =>
      match parse_mac_from_boot_message (PyStr.strip text) with
      | Some _ => false
      | None => true
      end
  | Broken _ => false
  end.

(** The lines the loop echoes over some turns. *)
Definition echo_of (t : tick) : list message :=
  match event t with
  | Line text =>
      if truthy (PyStr.strip text) then [Echo (PyStr.strip text)] else []
  | _ => []
  end.

(** What the three [print]s before the [try] add to the console. *)
Definition preamble (m : manager) (port : string) : list message :=
  [Banner (device_counter m); OpeningPort port; PressReset].

(** What the caller of a method has in hand afterwards: the value returned
    or the exception, the manager and the file. The console is for the
    operator's eyes. *)
Definition returned {A : Type} (o : option (result A * state))
    : option (result A * manager * file) :=
  match o with
  | Some (r, st) => Some (r, self st, disk st)
  | None => None
  end.

(** The members of the catalog file. *)
Definition file_member (key : string) (f : file) : option json :=
  match f with
  | Holds (JObj members) => lookup key members
  | _ => None
  end.

(** The values [len] accepts. *)
Definition sized (v : json) : bool :=
  match v with
  | JStr _ | JArr _ | JObj _ => true
  | _ => false
  end.

(** The last line on the console after a method. *)
Definition last_message {A : Type} (o : option (result A * state)) : option message :=
  match o with
  | Some (_, st) => List.last (map Some (console st)) None
  | None => None
  end.

(** The [devices] entry of an object, when there is one, has a length. *)
Definition devices_sized (members : list (string * json)) : bool :=
  match lookup "devices" members with
  | Some v => sized v
  | None => true
  end.

(** A process started over the file [f] that then goes through [script]. *)
Definition session (baudrate timeout : Z) (f : file) (script : list action)
    : option state :=
  match init baudrate timeout f with
  | Some (Ok _, st) => run_script script st
  | _ => None
  end.

(** The records carry the identifiers 1, 2, ... in their order, and the
    counter is the next one. *)
Definition well_numbered (recs : list json) (counter : json) : Prop :=
  map record_id recs = count_from 1 (List.length recs)
  /\ counter = JInt (1 + Z.of_nat (List.length recs)).

(** The invariant of a run that began without a file: the catalog is a
    well-numbered list, and the file, once written, holds that list and
    that counter. *)
Definition consistent (st : state) : Prop :=
  exists recs,
    mac_database (self st) = JArr recs
    /\ well_numbered recs (device_counter (self st))
    /\ ((disk st = NoFile /\ recs = [])
        \/ exists now,
             disk st = Holds (JObj [("devices", JArr recs);
                                    ("next_id", device_counter (self st));
                                    ("last_updated", JStr now)])).

(** ** Addresses as the specification has them *)

(** A hardware address is six bytes, most significant first. *)
Definition is_byte (b : Z) : bool := (0 <=? b) && (b <? 256).

Definition valid_address (a : list Z) : bool :=
  (List.length a =? 6)%nat && forallb is_byte a.

(** The 48-bit big-endian unsigned integer of the bytes. *)
Definition be_value (a : list Z) : Z :=
  fold_left (fun acc b => 256 * acc + b) a 0.

(** The six bytes of a 48-bit integer, most significant first. *)
Definition to_bytes6 (n : Z) : list Z :=
  [n / 2 ^ 40 mod 256; n / 2 ^ 32 mod 256; n / 2 ^ 24 mod 256;
   n / 2 ^ 16 mod 256; n / 2 ^ 8 mod 256; n mod 256].

(** A byte as two upper-case hex digits. *)
Definition hex2 (b : Z) : string :=
  String (PyStr.hex_digit_upper (b / 16))
    (String (PyStr.hex_digit_upper (b mod 16)) "").

(** The canonical text [XX:XX:XX:XX:XX:XX] of an address. *)
Definition show_address (a : list Z) : string :=
  String.concat ":" (map hex2 a).

(** The canonical form as a test on a text: six groups of exactly two
    upper-case hex digits, with a colon between two groups. *)
Fixpoint canonical_groups (groups : nat) (s : string) : bool :=
  match groups, s with
  | S O, String h1 (String h2 EmptyString) =>
      PyStr.is_upper_hex h1 && PyStr.is_upper_hex h2
  | S groups', String h1 (String h2 (String sep rest)) =>
      PyStr.is_upper_hex h1 && PyStr.is_upper_hex h2 && Ascii.eqb sep ":"
      && canonical_groups groups' rest
  | _, _ => false
  end.

Definition canonical (s : string) : bool := canonical_groups 6 s.

(** [deriveAddress] in the specification's words: the bytes as a 48-bit
    big-endian unsigned integer, plus the offset, modulo 2^48, rendered
    again. *)
Definition deriveAddress_spec (a : list Z) (offset : Z) : string :=
  show_address (to_bytes6 ((be_value a + offset) mod 2 ^ 48)).

(** ** Hex byte-groups in a line *)

(** The number of hex byte-groups in a line: the pairs of adjacent hex
    digits, taken from the left without overlap. *)
Fixpoint count_hex_pairs (s : string) : nat :=
  match s with
  | String a (String b rest as tail) =>
      if PyStr.is_hex a && PyStr.is_hex b then S (count_hex_pairs rest)
      else count_hex_pairs tail
  | _ => O
  end.

(** ** What a pattern matches *)

(** [matches r m]: the text [m] is a match of the pattern [r]. The matcher
    [Re.run] finds one of these, the one the order of [re] prefers. *)
Inductive matches : Re.regex -> string -> Prop :=
| matches_cls p c :
    p c = true -> matches (Re.Cls p) (String c "")
| matches_plus p c m :
    p c = true -> PyStr.all p m = true -> matches (Re.Plus p) (String c m)
| matches_seq r1 r2 m1 m2 :
    matches r1 m1 -> matches r2 m2 -> matches (Re.Seq r1 r2) (m1 ++ m2)
| matches_rep_0 r :
    matches (Re.Rep 0 r) ""
| matches_rep_S n r m1 m2 :
    matches r m1 -> matches (Re.Rep n r) m2 -> matches (Re.Rep (S n) r) (m1 ++ m2).

(** ** Definitions used by the proofs *)

(** [s] without the occurrences of [a]. *)
Fixpoint remove_char (a : ascii) (s : string) : string :=
  match s with
  | EmptyString => ""
  | String c s' => if Ascii.eqb a c then remove_char a s' else String c (remove_char a s')
  end.

(** The value of a run of hex digits read after [acc]. *)
Fixpoint hex_string_value (s : string) (acc : Z) : Z :=
  match s with
  | EmptyString => acc
  | String c s' =>
      hex_string_value s' (16 * acc + match PyStr.hex_value c with Some d => d | None => 0 end)
  end.

(** The last [w] hex digits of [n], upper case. *)
Fixpoint fixed_hex (w : nat) (n : Z) : string :=
  match w with
  | O => ""
  | S w' => fixed_hex w' (n / 16) ++ String (PyStr.hex_digit_upper (n mod 16)) ""
  end.

(** * The rest of the program *)

(** ** Address texts in a line *)

(** The text the bare pattern matches: six pairs of hex digits in either
    case, with a colon or a hyphen between two pairs. *)
Fixpoint address_groups (groups : nat) (s : string) : bool :=
  match groups, s with
  | S O, String h1 (String h2 EmptyString) =>
      PyStr.is_hex h1 && PyStr.is_hex h2
  | S groups', String h1 (String h2 (String sep rest)) =>
      PyStr.is_hex h1 && PyStr.is_hex h2 && colon_or_dash sep
      && address_groups groups' rest
  | _, _ => false
  end.

Definition address_text (s : string) : bool := address_groups 6 s.

(** What [normalize_mac] makes of an address text: [replace('-', ':')] and
    [upper()]. *)
Definition canonical_of (addr : string) : string :=
  PyStr.upper (PyStr.replace "-" ":" addr).

(** No character of [s] is [a]. *)
Definition free_of (a : ascii) (s : string) : bool :=
  PyStr.all (fun c => negb (Ascii.eqb a c)) s.

(** The line has no letter m, in either case: nothing the labelled pattern
    could start at. *)
Definition no_label (line : string) : bool :=
  free_of "M" line && free_of "m" line.

(** The three labels [normalize_mac] removes. *)
Definition removed_label (label : string) : bool :=
  String.eqb label "MAC:" || String.eqb label "Mac:" || String.eqb label "mac:".

(** [s] with every [a] turned into [b]. *)
Fixpoint map_char (a b : ascii) (s : string) : string :=
  match s with
  | EmptyString => ""
  | String c s' => String (if Ascii.eqb a c then b else c) (map_char a b s')
  end.

(** ** Values a hand-edited catalog file can bring *)

(** The values [+= 1] accepts. *)
Definition addable (v : json) : bool :=
  match v with
  | JInt _ | JBool _ | JFloat _ => true
  | _ => false
  end.

(** The values with an [append]. *)
Definition is_list (v : json) : bool :=
  match v with
  | JArr _ => true
  | _ => false
  end.

(** The values with a [get]. *)
Definition is_object (v : json) : bool :=
  match v with
  | JObj _ => true
  | _ => false
  end.

(** ** The records of a catalog *)

(** A record as [collect_mac_from_reset] builds it: the five keys in their
    order, an integer identifier, and a [bt_mac] that is what
    [increment_mac] makes of the [wifi_mac] with the offset 2. *)
Definition record_ok (r : json) : bool :=
  match r with
  | JObj [(k1, JInt _); (k2, JStr wifi_mac); (k3, JStr bt_mac); (k4, JStr _);
          (k5, JStr _)] =>
      String.eqb k1 "id" && String.eqb k2 "wifi_mac" && String.eqb k3 "bt_mac"
      && String.eqb k4 "timestamp" && String.eqb k5 "port"
      && match increment_mac wifi_mac 2 with
         | Ok derived => String.eqb bt_mac derived
         | Raise _ => false
         end
  | _ => false
  end.

(** ** The display of the catalog: [print_database] *)

(** The lines of the display. A row holds the four values it shows, each
    padded on the right, to 5, 20, 20 and 25 columns. *)
Inductive db_line : Type :=
| TopRule                              (* an empty line, then 80 times = *)
| Title (n : Z)                        (* ESP32 MAC Address Database ({n} devices) *)
| Rule                                 (* 80 times = *)
| Heads                                (* ID, WiFi MAC, BT MAC, Timestamp *)
| Dashes                               (* 80 times - *)
| Row (id wifi_mac bt_mac timestamp : json).

(** What a row can raise. *)
Inductive row_error : Type :=
| RowKeyError (key : string)
| RowTypeError.

(** [device[key]]: a [dict] gives the value or raises [KeyError]; a list or
    a string takes no [str] for an index, the other values no index. *)
Definition subscript (device : json) (key : string) : row_error + json :=
  match device with
  | JObj members =>
      match lookup key members with
      | Some v => inr v
      | None => inl (RowKeyError key)
      end
  | _ => inl RowTypeError
  end.

(** The values that take the format [<w]: numbers, booleans and strings. *)
Definition formattable (v : json) : bool :=
  match v with
  | JNull | JArr _ | JObj _ => false
  | _ => true
  end.

(** One replacement field [{device[key]:<w}] of the row. *)
Definition field (device : json) (key : string) : row_error + json :=
  match subscript device key with
  | inr v => if formattable v then inr v else inl RowTypeError
  | inl e => inl e
  end.

(** The row of a device; the fields are evaluated and formatted from the
    left. *)
Definition row_of (device : json) : row_error + db_line :=
  match field device "id" with
  | inl e => inl e
  | inr id =>
      match field device "wifi_mac" with
      | inl e => inl e
      | inr wifi_mac =>
          match field device "bt_mac" with
          | inl e => inl e
          | inr bt_mac =>
              match field device "timestamp" with
              | inl e => inl e
              | inr timestamp => inr (Row id wifi_mac bt_mac timestamp)
              end
          end
      end
  end.

(** The [for] loop: the rows printed, and what stopped it if a row raised. *)
Fixpoint print_rows (devices : list json) : list db_line * option row_error :=
  match devices with
  | [] => ([], None)
  | device :: devices' =>
      match row_of device with
      | inl e => ([], Some e)
      | inr row =>
          let (rows, e) := print_rows devices' in (row :: rows, e)
      end
  end.

(** What [for device in x] goes through: the items of a list, the
    characters of a string, the keys of a [dict]. *)
Definition items_of (x : json) : option (list json) :=
  match x with
  | JArr items => Some items
  | JStr s => Some (map (fun c => JStr (String c "")) (list_ascii_of_string s))
  | JObj members => Some (map (fun kv => JStr (fst kv)) members)
  | _ => None
  end.

(** The lines printed, and the exception if one was raised. *)
Definition print_database (m : manager) : list db_line * option row_error :=
  match py_len (mac_database m), items_of (mac_database m) with
  | Ok n, Some devices =>
      let (rows, e) := print_rows devices in
      let body := ([TopRule; Title n; Rule; Heads; Dashes] ++ rows)%list in
      match e with
      | None => ((body ++ [Rule])%list, None)
      | Some _ => (body, e)
      end
  | _, _ => ([TopRule], Some RowTypeError)
  end.

(** The identifier a row shows. *)
Definition row_id (l : db_line) : option json :=
  match l with
  | Row id _ _ _ => Some id
  | _ => None
  end.

(** The invariant of a run that began without a file, with the records in
    it: the catalog is consistent and every record is as the capture
    builds it. *)
Definition sound (st : state) : Prop :=
  consistent st
  /\ exists recs, mac_database (self st) = JArr recs /\ forallb record_ok recs = true.

(** ** The watch for a new port: [detect_esp32_port] *)

(** A Python [set] of port names is the list of its members, each once. *)
Definition mem (x : string) (s : list string) : bool := existsb (String.eqb x) s.

(** [set(devices)] *)
Definition set_of (devices : list string) : list string := nodup string_dec devices.

(** [a - b] *)
Definition difference (a b : list string) : list string :=
  filter (fun x => negb (mem x b)) a.

Inductive watch_line : Type :=
| WaitingForPort                   (* Waiting for ESP32 to be connected... *)
| NewPortDetected (port : string). (* New port detected: {port} *)

(** The [while True] loop over what [comports()] lists at each turn, half a
    second apart. [list(new_ports)[0]] is the member that the order of the
    set puts first: which one is not for the program to say, and the
    number [pick] stands for that order. [None]: the polls given end while
    the loop still waits. *)
Fixpoint watch (known : list string) (polls : list (list string)) (pick : nat)
    : option (string * list string) :=
  match polls with
  | [] => None
  | devices :: polls' =>
      let current_ports := set_of devices in
      let new_ports := difference current_ports known in
      match new_ports with
      | [] => watch known polls' pick
      | _ :: _ =>
          Some (nth (pick mod List.length new_ports) new_ports "", current_ports)
      end
  end.

Definition detect_esp32_port (known_ports : option (list string))
    (polls : list (list string)) (pick : nat)
    : list watch_line * option (string * list string) :=
  let known_ports :=
    match known_ports with
    | None => []
    | Some known => known
    end in
  match watch known_ports polls pick with
  | Some (port, current_ports) =>
      ([WaitingForPort; NewPortDetected port], Some (port, current_ports))
  | None => ([WaitingForPort], None)
  end.

(** Every port of every poll is a known one. *)
Definition nothing_new (known : list string) (polls : list (list string)) : bool :=
  forallb (forallb (fun x => mem x known)) polls.

(** ** The flashing: [flash_firmware] *)

(** How [subprocess.run(cmd, check=True)] ends: the tool ran and exited
    with a code (a code other than 0 raises [CalledProcessError]), or there
    is no such program ([FileNotFoundError]). *)
Inductive tool_outcome : Type :=
| Exited (code : Z)
| NotInstalled.

(** What one call meets: whether the image is there, and how the two runs
    of esptool end if they are made. *)
Record flash_env : Type := mkFlashEnv {
  binary_exists : bool;
  erase_outcome : tool_outcome;
  write_outcome : tool_outcome
}.

Inductive flash_line : Type :=
| FlashBanner (port : string)         (* the rule, Flashing firmware to {port}, the rule *)
| BinaryNotFound (path : string)      (* Error: Binary file not found: {path} *)
| ErasingFlash                        (* Erasing flash... *)
| FlashingImage (path : string)       (* Flashing {path}... *)
| FlashComplete                       (* Flash complete! *)
| FlashFailed (cmd : list string) (code : Z) (* Flash failed: {e} *)
| EsptoolNotFound.                    (* Error: esptool.py not found. ... *)

(** What a call leaves: the value returned, the commands handed to
    [subprocess.run] in their order, and the lines printed. *)
Record flash_run : Type := mkFlashRun {
  flashed : bool;
  attempted : list (list string);
  flash_lines : list flash_line
}.

Definition erase_cmd (chip port : string) : list string :=
  ["esptool.py"; "--chip"; chip; "--port"; port; "erase_flash"].

Definition flash_cmd (chip port flash_address binary_path : string) : list string :=
  ["esptool.py"; "--chip"; chip; "--port"; port; "--baud"; "460800";
   "write_flash"; "-z"; flash_address; binary_path].

Definition flash_firmware (env : flash_env)
    (port binary_path flash_address chip : string) : flash_run :=
  let erase := erase_cmd chip port in
  let write := flash_cmd chip port flash_address binary_path in
  if negb (binary_exists env) then
    mkFlashRun false [] [FlashBanner port; BinaryNotFound binary_path]
  else
    match erase_outcome env with
    | NotInstalled =>
        mkFlashRun false [erase] [FlashBanner port; ErasingFlash; EsptoolNotFound]
    | Exited code =>
        if negb (code =? 0) then
          mkFlashRun false [erase]
            [FlashBanner port; ErasingFlash; FlashFailed erase code]
        else
          match write_outcome env with
          | NotInstalled =>
              mkFlashRun false [erase; write]
                [FlashBanner port; ErasingFlash; FlashingImage binary_path;
                 EsptoolNotFound]
          | Exited code' =>
              if negb (code' =? 0) then
                mkFlashRun false [erase; write]
                  [FlashBanner port; ErasingFlash; FlashingImage binary_path;
                   FlashFailed write code']
              else
                mkFlashRun true [erase; write]
                  [FlashBanner port; ErasingFlash; FlashingImage binary_path;
                   FlashComplete]
          end
    end.

(** The defaults of [flash_address] and [chip]. *)
Definition default_flash_address : string := "0x10000".
Definition default_chip : string := "esp32".

(** A run of esptool that ended well. *)
Definition exited_well (o : tool_outcome) : bool :=
  match o with
  | Exited code => code =? 0
  | NotInstalled => false
  end.

(** ** The collection mode: [run_collection_mode] *)

(** [s.lower()] on the characters below 256: the letters [A-Z] and the
    Latin-1 capitals 0xC0..0xDE other than the multiplication sign. *)
Definition lower_char (c : ascii) : ascii :=
  if PyStr.between 65 90 c
     || (PyStr.between 192 222 c && negb (PyStr.code c =? 215))
  then ascii_of_N (Z.to_N (PyStr.code c + 32))
  else c.

Fixpoint lower (s : string) : string :=
  match s with
  | EmptyString => ""
  | String c s' => String (lower_char c) (lower s')
  end.

(** Truth value of a value. *)
Definition truthy_json (v : json) : bool :=
  match v with
  | JNull => false
  | JBool b => b
  | JInt n => negb (n =? 0)
  | JFloat x => negb (PrimFloat.eqb x PrimFloat.zero)
  | JStr s => truthy s
  | JArr items => match items with [] => false | _ :: _ => true end
  | JObj members => match members with [] => false | _ :: _ => true end
  end.

(** [auto_flash and binary_path]: the image to flash, when both are true. *)
Definition flash_wanted (auto_flash : bool) (binary_path : option string)
    : option string :=
  match binary_path with
  | Some path => if auto_flash && truthy path then Some path else None
  | None => None
  end.

(** What the mode prints: its own lines and, in their place, those of the
    methods it calls. *)
Inductive loop_line : Type :=
| ModeBanner                       (* the rule, ESP32 MAC Address Collection Mode, the rule *)
| AutoFlashEnabled (path : string) (* Auto-flash enabled: {path} *)
| WaitingForBoard (n : Z)          (* Waiting for new ESP32 board (Total collected: {n})... *)
| FromWatch (l : watch_line)
| FromCapture (m : message)
| DeviceAdded (id : json)          (* Device #{id} added to database *)
| FlashPrompt                      (* Flash firmware now? (Y/n): *)
| FromFlash (l : flash_line)
| ReadyForNext                     (* Ready for next board. ... *)
| FailedToCollect                  (* Failed to collect MAC. Please try again. *)
| PressCtrlC.                      (* Press Ctrl+C to stop collection mode *)

(** What one turn of the [while True] meets: the polls of the watch and the
    order of its set, the serial line, what the operator types at the
    prompt, and the flashing. *)
Record cycle_env : Type := mkCycle {
  cycle_polls : list (list string);
  cycle_pick : nat;
  cycle_serial : serial_env;
  cycle_answer : string;
  cycle_flash : flash_env
}.

(** Where the mode stands after the turns given: still in its loop (which
    has no exit of its own), or left by an exception that nothing catches. *)
Inductive loop_end : Type :=
| StillRunning
| LoopRaised (e : exn)
| LoopKeyError (key : string).

Record loop_result : Type := mkLoop {
  loop_state : state;
  loop_known : list string;
  loop_screen : list loop_line;
  loop_esptool : list (list string);
  loop_ended : loop_end
}.

(** What a call added to the console. *)
Definition new_lines (before after : state) : list message :=
  skipn (List.length (console before)) (console after).

Fixpoint collection_loop (auto_flash : bool) (binary_path : option string)
    (cycles : list cycle_env) (st : state) (known_ports : list string)
    (screen : list loop_line) (esptool : list (list string)) : loop_result :=
  match cycles with
  | [] => mkLoop st known_ports screen esptool StillRunning
  | c :: cycles' =>
      match py_len (mac_database (self st)) with
      | Raise e => mkLoop st known_ports screen esptool (LoopRaised e)
      | Ok n =>
          let screen := (screen ++ [WaitingForBoard n])%list in
          match detect_esp32_port (Some known_ports) (cycle_polls c) (cycle_pick c) with
          | (lines, None) =>
              mkLoop st known_ports (screen ++ map FromWatch lines) esptool StillRunning
          | (lines, Some (port, known_ports)) =>
              let screen := (screen ++ map FromWatch lines)%list in
              match collect_mac_from_reset port (cycle_serial c) st with
              | None => mkLoop st known_ports screen esptool StillRunning
              | Some (Raise e, st') =>
                  mkLoop st' known_ports
                    (screen ++ map FromCapture (new_lines st st')) esptool (LoopRaised e)
              | Some (Ok device_info, st') =>
                  let screen := (screen ++ map FromCapture (new_lines st st'))%list in
                  match device_info with
                  | Some info =>
                      if truthy_json info then
                        match subscript info "id" with
                        | inl (RowKeyError key) =>
                            mkLoop st' known_ports screen esptool (LoopKeyError key)
                        | inl RowTypeError =>
                            mkLoop st' known_ports screen esptool (LoopRaised TypeError)
                        | inr id =>
                            let screen := (screen ++ [DeviceAdded id])%list in
                            let '(screen, esptool) :=
                              match flash_wanted auto_flash binary_path with
                              | Some path =>
                                  let response := lower (PyStr.strip (cycle_answer c)) in
                                  if negb (String.eqb response "n") then
                                    let run :=
                                      flash_firmware (cycle_flash c) port path
                                        default_flash_address default_chip in
                                    ((screen ++ FlashPrompt :: map FromFlash (flash_lines run))%list,
                                     (esptool ++ attempted run)%list)
                                  else ((screen ++ [FlashPrompt])%list, esptool)
                              | None => (screen, esptool)
                              end in
                            collection_loop auto_flash binary_path cycles' st' known_ports
                              (screen ++ [ReadyForNext; PressCtrlC]) esptool
                        end
                      else
                        collection_loop auto_flash binary_path cycles' st' known_ports
                          (screen ++ [FailedToCollect; PressCtrlC]) esptool
                  | None =>
                      collection_loop auto_flash binary_path cycles' st' known_ports
                        (screen ++ [FailedToCollect; PressCtrlC]) esptool
                  end
              end
          end
      end
  end.

(** [attached] is what [comports()] lists when the mode starts. *)
Definition run_collection_mode (auto_flash : bool) (binary_path : option string)
    (attached : list string) (cycles : list cycle_env) (st : state) : loop_result :=
  let screen :=
    match flash_wanted auto_flash binary_path with
    | Some path => [ModeBanner; AutoFlashEnabled path]
    | None => [ModeBanner]
    end in
  collection_loop auto_flash binary_path cycles st (set_of attached) screen [].

(** The ports that the screen shows as detected, in their order. *)
Definition detected (screen : list loop_line) : list string :=
  flat_map (fun l => match l with
                     | FromWatch (NewPortDetected port) => [port]
                     | _ => []
                     end) screen.

(** No two neighbours in the list are equal. *)
Fixpoint adjacent_distinct (l : list string) : bool :=
  match l with
  | a :: (b :: _) as l' => negb (String.eqb a b) && adjacent_distinct l'
  | _ => true
  end.

(** The state of a first start without a catalog file. *)
Definition first_start (baudrate timeout : Z) : state :=
  mkState (mkManager baudrate timeout (JArr []) (JInt 1) "esp32_mac_database.json")
    NoFile [].

(** ** The command line: [main] *)

(** The options as [argparse] hands them over: a flag is a [bool], an
    option with a value is [None] when it is not given. *)
Record args : Type := mkArgs {
  opt_collect : bool;
  opt_flash : option string;
  opt_port : option string;
  opt_auto_flash : option string;
  opt_address : string;
  opt_chip : string;
  opt_show : bool
}.

(** What a run of the program meets. *)
Record main_env : Type := mkMainEnv {
  catalog_file : file;
  attached_ports : list string;
  turns : list cycle_env;
  flashing : flash_env
}.

(** What [main] did. *)
Inductive main_outcome : Type :=
| StartupRaised (e : exn)                            (* ESP32Manager() raised *)
| Showed (lines : list db_line) (e : option row_error)
| Collecting (r : loop_result)
| PortRequired                                       (* Error: --port required for flash mode *)
| Flashing (r : flash_run)
| HelpPrinted.

(** Truth value of an option with a value. *)
Definition given (o : option string) : bool :=
  match o with
  | Some s => truthy s
  | None => false
  end.

Definition main (a : args) (w : main_env) : option main_outcome :=
  match init 115200 30 (catalog_file w) with
  | None => None
  | Some (Raise e, _) => Some (StartupRaised e)
  | Some (Ok _, manager) =>
      if opt_show a then
        let (lines, e) := print_database (self manager) in Some (Showed lines e)
      else if opt_collect a then
        Some (Collecting
                (run_collection_mode (given (opt_auto_flash a)) (opt_auto_flash a)
                   (attached_ports w) (turns w) manager))
      else
        match opt_flash a with
        | Some binary_path =>
            if truthy binary_path then
              match opt_port a with
              | Some port =>
                  if truthy port then
                    Some (Flashing
                            (flash_firmware (flashing w) port binary_path
                               (opt_address a) (opt_chip a)))
                  else Some PortRequired
              | None => Some PortRequired
              end
            else Some HelpPrinted
        | None => Some HelpPrinted
        end
  end.

(** The commands a run of the program handed to esptool. *)
Definition esptool_of (o : main_outcome) : list (list string) :=
  match o with
  | Collecting r => loop_esptool r
  | Flashing r => attempted r
  | _ => []
  end.

(** The records of a manager whose catalog is a list. *)
Definition records_of (st : state) : list json :=
  match mac_database (self st) with
  | JArr recs => recs
  | _ => []
  end.

(** The detected ports on the screen differ from their neighbours, and the
    one detected last, if any, is in the known set. *)
Definition ports_ok (screen : list loop_line) (known : list string) : Prop :=
  adjacent_distinct (detected screen) = true
  /\ forall earlier port,
       detected screen = (earlier ++ [port])%list -> mem port known = true.

(** * Properties *)

(** ** Characters *)

Ltac all_chars c :=
  destruct c as [[] [] [] [] [] [] [] []]; vm_compute; try reflexivity; try discriminate.

Lemma is_upper_hex_is_hex c : PyStr.is_upper_hex c = true -> PyStr.is_hex c = true.
Proof. unfold PyStr.is_upper_hex, PyStr.is_hex. intros ->. reflexivity. Qed.

Lemma is_hex_not_int_space c : PyStr.is_hex c = true -> PyStr.int_space c = false.
Proof. all_chars c. Qed.

Lemma is_hex_not_colon c : PyStr.is_hex c = true -> Ascii.eqb ":" c = false.
Proof. all_chars c. Qed.

Lemma is_hex_not_underscore c : PyStr.is_hex c = true -> Ascii.eqb c "_" = false.
Proof. all_chars c. Qed.

Lemma is_hex_value c : PyStr.is_hex c = true -> exists d, PyStr.hex_value c = Some d /\ 0 <= d < 16.
Proof.
  destruct c as [[] [] [] [] [] [] [] []]; vm_compute; try discriminate; intros _;
    eexists; (split; [reflexivity | split; discriminate || reflexivity]).
Qed.

Ltac digit_cases d H :=
  let E := fresh "E" in
  assert (E : d = 0 \/ d = 1 \/ d = 2 \/ d = 3 \/ d = 4 \/ d = 5 \/ d = 6 \/ d = 7 \/
              d = 8 \/ d = 9 \/ d = 10 \/ d = 11 \/ d = 12 \/ d = 13 \/ d = 14 \/ d = 15)
    by lia;
  clear H;
  repeat (destruct E as [E | E]; [subst d | ]); [.. | subst d].

Lemma hex_digit_upper_is_upper_hex d :
  0 <= d < 16 -> PyStr.is_upper_hex (PyStr.hex_digit_upper d) = true.
Proof. intros H. digit_cases d H; reflexivity. Qed.

Lemma hex_digit_upper_value d :
  0 <= d < 16 -> PyStr.hex_value (PyStr.hex_digit_upper d) = Some d.
Proof. intros H. digit_cases d H; reflexivity. Qed.

Lemma hex_digit_upper_is_hex d :
  0 <= d < 16 -> PyStr.is_hex (PyStr.hex_digit_upper d) = true.
Proof. intros H. apply is_upper_hex_is_hex, hex_digit_upper_is_upper_hex, H. Qed.

(** ** Strings *)

Lemma string_app_nil_r s : s ++ "" = s.
Proof. induction s; simpl; congruence. Qed.

Lemma string_app_assoc (a b c : string) : (a ++ b) ++ c = a ++ (b ++ c).
Proof. induction a; simpl; congruence. Qed.

Lemma string_length_app (a b : string) :
  String.length (a ++ b) = (String.length a + String.length b)%nat.
Proof. induction a; simpl; congruence. Qed.

Lemma string_all_app p (a b : string) : PyStr.all p (a ++ b) = PyStr.all p a && PyStr.all p b.
Proof. induction a; simpl; [reflexivity | rewrite IHa, andb_assoc; reflexivity]. Qed.

Lemma all_impl (p q : ascii -> bool) s :
  (forall c, p c = true -> q c = true) -> PyStr.all p s = true -> PyStr.all q s = true.
Proof.
  intros Hpq. induction s as [| c s IH]; simpl; [reflexivity |].
  intros H. apply andb_true_iff in H as [Hc Hs].
  rewrite (Hpq _ Hc), (IH Hs). reflexivity.
Qed.

Lemma rev_acc_app s acc : PyStr.rev_acc s acc = PyStr.rev s ++ acc.
Proof.
  unfold PyStr.rev. revert acc.
  induction s as [| c s IH]; intros acc; simpl; [reflexivity |].
  rewrite IH, (IH (String c "")), string_app_assoc. reflexivity.
Qed.

Lemma rev_cons c s : PyStr.rev (String c s) = PyStr.rev s ++ String c "".
Proof. unfold PyStr.rev at 1. simpl. apply rev_acc_app. Qed.

Lemma rev_snoc s c : PyStr.rev (s ++ String c "") = String c (PyStr.rev s).
Proof.
  induction s as [| d s IH]; [reflexivity |].
  simpl. rewrite !rev_cons, IH. reflexivity.
Qed.

Lemma string_rev_involutive s : PyStr.rev (PyStr.rev s) = s.
Proof.
  induction s as [| c s IH]; [reflexivity |].
  rewrite rev_cons, rev_snoc, IH. reflexivity.
Qed.

Lemma all_rev p s : PyStr.all p (PyStr.rev s) = PyStr.all p s.
Proof.
  induction s as [| c s IH]; [reflexivity |].
  rewrite rev_cons, string_all_app, IH. simpl. rewrite andb_true_r, andb_comm. reflexivity.
Qed.

Lemma lstrip_by_none p s :
  PyStr.all (fun c => negb (p c)) s = true -> PyStr.lstrip_by p s = s.
Proof.
  destruct s as [| c s]; simpl; [reflexivity |].
  intros H. apply andb_true_iff in H as [Hc _].
  apply negb_true_iff in Hc. rewrite Hc. reflexivity.
Qed.

Lemma strip_by_none p s :
  PyStr.all (fun c => negb (p c)) s = true -> PyStr.strip_by p s = s.
Proof.
  intros H. unfold PyStr.strip_by.
  rewrite (lstrip_by_none p s H), lstrip_by_none by (rewrite all_rev; exact H).
  apply string_rev_involutive.
Qed.

(** Replacing a one-character text by nothing removes the character. *)
Lemma replace_fuel_char a s fuel :
  (String.length s <= fuel)%nat ->
  PyStr.replace_fuel fuel (String a "") "" s = remove_char a s.
Proof.
  revert s. induction fuel as [| fuel IH]; intros s H.
  - destruct s; [reflexivity | simpl in H; lia].
  - destruct s as [| c s]; [reflexivity |].
    simpl in H. simpl. destruct (Ascii.eqb a c); simpl; rewrite IH by lia; reflexivity.
Qed.

Lemma replace_char a s : PyStr.replace (String a "") "" s = remove_char a s.
Proof. apply replace_fuel_char. lia. Qed.

(** ** [int(s, 16)] on a run of hex digits *)

Lemma digits16_hex s : forall acc b,
  PyStr.all PyStr.is_hex s = true -> s <> "" \/ b = true ->
  PyStr.digits16 s acc b = Some (hex_string_value s acc).
Proof.
  induction s as [| c s IH]; intros acc b Hall Hne; simpl.
  - destruct Hne as [Hne | ->]; [congruence | reflexivity].
  - simpl in Hall. apply andb_true_iff in Hall as [Hc Hs].
    destruct (is_hex_value c Hc) as (d & -> & _).
    apply IH; auto.
Qed.

Lemma split_sign_hex c s :
  PyStr.is_hex c = true -> PyStr.split_sign (String c s) = (false, String c s).
Proof. destruct c as [[] [] [] [] [] [] [] []]; try discriminate; reflexivity. Qed.

Lemma skip_prefix16_hex s :
  PyStr.all PyStr.is_hex s = true -> PyStr.skip_prefix16 s = s.
Proof.
  destruct s as [| c [| x r]];
    [reflexivity | destruct c as [[] [] [] [] [] [] [] []]; reflexivity |].
  cbn [PyStr.all]. intros H.
  apply andb_true_iff in H as [_ H]. apply andb_true_iff in H as [Hx _].
  unfold PyStr.skip_prefix16.
  replace (Ascii.eqb x "x" || Ascii.eqb x "X")%bool with false
    by (clear - Hx; all_chars x).
  destruct c as [[] [] [] [] [] [] [] []]; reflexivity.
Qed.

Lemma int16_hex s :
  s <> "" -> PyStr.all PyStr.is_hex s = true ->
  PyStr.int16 s = Ok (hex_string_value s 0).
Proof.
  intros Hne Hall. unfold PyStr.int16.
  rewrite strip_by_none
    by (apply (all_impl PyStr.is_hex); [| exact Hall];
        intros c Hc; rewrite (is_hex_not_int_space c Hc); reflexivity).
  destruct s as [| c s]; [congruence |].
  rewrite split_sign_hex by (cbn [PyStr.all] in Hall; apply andb_true_iff in Hall; tauto).
  rewrite (skip_prefix16_hex _ Hall).
  rewrite digits16_hex by (exact Hall || (left; discriminate)).
  reflexivity.
Qed.

Lemma hex_string_value_app a b acc :
  hex_string_value (a ++ b) acc = hex_string_value b (hex_string_value a acc).
Proof. revert acc. induction a as [| c a IH]; intros acc; simpl; [reflexivity | apply IH]. Qed.

(** ** [format(n, '012X')] *)

Lemma zeros_snoc k : PyStr.zeros k ++ "0" = PyStr.zeros (S k).
Proof. induction k as [| k IH]; simpl; [reflexivity |]. simpl in IH. rewrite IH. reflexivity. Qed.

Lemma fixed_hex_0 w : fixed_hex w 0 = PyStr.zeros w.
Proof.
  induction w as [| w IH]; [reflexivity |].
  simpl fixed_hex. change (0 / 16) with 0. rewrite IH.
  change (PyStr.hex_digit_upper (0 mod 16)) with "0"%char. apply zeros_snoc.
Qed.

Lemma zfill_snoc w s c :
  PyStr.zfill (S w) (s ++ String c "") = PyStr.zfill w s ++ String c "".
Proof.
  unfold PyStr.zfill. rewrite string_length_app, string_app_assoc. simpl String.length.
  replace (S w - (String.length s + 1))%nat with (w - String.length s)%nat by lia.
  reflexivity.
Qed.

Lemma hex_upper_fuel_S fuel n :
  PyStr.hex_upper_fuel (S fuel) n =
  if n <? 16 then String (PyStr.hex_digit_upper n) ""
  else PyStr.hex_upper_fuel fuel (n / 16) ++ String (PyStr.hex_digit_upper (n mod 16)) "".
Proof. reflexivity. Qed.

Lemma zfill_hex_upper_fuel fuel : forall w n,
  0 <= n < 16 ^ Z.of_nat (S fuel) -> n < 16 ^ Z.of_nat (S w) ->
  PyStr.zfill (S w) (PyStr.hex_upper_fuel (S fuel) n) = fixed_hex (S w) n.
Proof.
  induction fuel as [| fuel IH]; intros w n Hn Hw.
  - change (16 ^ Z.of_nat 1) with 16 in Hn.
    simpl PyStr.hex_upper_fuel. destruct (Z.ltb_spec n 16); [| lia].
    simpl fixed_hex. rewrite Z.div_small, Z.mod_small, fixed_hex_0 by lia.
    unfold PyStr.zfill. simpl. rewrite Nat.sub_0_r. reflexivity.
  - rewrite hex_upper_fuel_S. destruct (Z.ltb_spec n 16) as [Hlt | Hge].
    + simpl fixed_hex. rewrite Z.div_small, Z.mod_small, fixed_hex_0 by lia.
      unfold PyStr.zfill. simpl. rewrite Nat.sub_0_r. reflexivity.
    + destruct w as [| w].
      { change (16 ^ Z.of_nat 1) with 16 in Hw. lia. }
      rewrite zfill_snoc, IH.
      * reflexivity.
      * rewrite Nat2Z.inj_succ, Z.pow_succ_r in Hn by lia.
        split; [apply Z.div_pos; lia | apply Z.div_lt_upper_bound; lia].
      * rewrite (Nat2Z.inj_succ (S w)), Z.pow_succ_r in Hw by lia.
        apply Z.div_lt_upper_bound; lia.
Qed.

Lemma hex_upper_fuel_enough n :
  0 <= n -> n < 16 ^ Z.of_nat (S (Z.to_nat (Z.log2 n))).
Proof.
  intros Hn. rewrite Nat2Z.inj_succ, Z2Nat.id by apply Z.log2_nonneg.
  destruct (Z.eq_dec n 0) as [-> | Hnz]; [reflexivity |].
  apply Z.lt_le_trans with (2 ^ Z.succ (Z.log2 n)).
  - apply Z.log2_spec. lia.
  - apply Z.pow_le_mono_l. lia.
Qed.

Lemma format_012X_in_range n :
  0 <= n < 2 ^ 48 -> PyStr.format_012X n = fixed_hex 12 n.
Proof.
  intros Hn. unfold PyStr.format_012X, PyStr.hex_upper.
  destruct (Z.ltb_spec n 0); [lia |].
  apply zfill_hex_upper_fuel.
  - split; [lia | apply hex_upper_fuel_enough; lia].
  - change (16 ^ Z.of_nat 12) with (2 ^ 48). lia.
Qed.

Lemma hex_upper_fuel_all fuel : forall n,
  0 <= n -> PyStr.all PyStr.is_upper_hex (PyStr.hex_upper_fuel fuel n) = true.
Proof.
  induction fuel as [| fuel IH]; intros n Hn; [reflexivity |].
  simpl. destruct (Z.ltb_spec n 16).
  - simpl. rewrite hex_digit_upper_is_upper_hex by lia. reflexivity.
  - rewrite string_all_app, IH by (apply Z.div_pos; lia).
    simpl. rewrite hex_digit_upper_is_upper_hex by (apply Z.mod_pos_bound; lia).
    reflexivity.
Qed.

Lemma zeros_all k : PyStr.all PyStr.is_upper_hex (PyStr.zeros k) = true.
Proof. induction k; simpl; auto. Qed.

Lemma zeros_length k : String.length (PyStr.zeros k) = k.
Proof. induction k; simpl; congruence. Qed.

Lemma zfill_all w s :
  PyStr.all PyStr.is_upper_hex s = true ->
  PyStr.all PyStr.is_upper_hex (PyStr.zfill w s) = true.
Proof. intros H. unfold PyStr.zfill. rewrite string_all_app, zeros_all, H. reflexivity. Qed.

Lemma zfill_length w s : (w <= String.length (PyStr.zfill w s))%nat.
Proof. unfold PyStr.zfill. rewrite string_length_app, zeros_length. lia. Qed.

(** ** Addresses *)

Lemma is_byte_digits b :
  is_byte b = true -> 0 <= b / 16 < 16 /\ 0 <= b mod 16 < 16.
Proof.
  unfold is_byte. intros H. apply andb_true_iff in H as [H0 H1].
  apply Z.leb_le in H0. apply Z.ltb_lt in H1.
  split; [split; [apply Z.div_pos; lia | apply Z.div_lt_upper_bound; lia]
         | apply Z.mod_pos_bound; lia].
Qed.

Lemma hex2_all b : is_byte b = true -> PyStr.all PyStr.is_hex (hex2 b) = true.
Proof.
  intros H. destruct (is_byte_digits b H) as [Hh Hl]. simpl.
  rewrite !hex_digit_upper_is_hex by assumption. reflexivity.
Qed.

Lemma hex2_value b acc :
  is_byte b = true -> hex_string_value (hex2 b) acc = 256 * acc + b.
Proof.
  intros H. destruct (is_byte_digits b H) as [Hh Hl].
  cbn [hex_string_value hex2].
  rewrite !hex_digit_upper_value by assumption.
  pose proof (Z.div_mod b 16 ltac:(lia)). lia.
Qed.

Lemma remove_char_hex_app x y :
  PyStr.all PyStr.is_hex x = true ->
  remove_char ":" (x ++ y) = x ++ remove_char ":" y.
Proof.
  induction x as [| c x IH]; [reflexivity |].
  cbn [PyStr.all append remove_char].
  intros H. apply andb_true_iff in H as [Hc Hx].
  rewrite (is_hex_not_colon c Hc), IH by assumption. reflexivity.
Qed.

Lemma remove_char_hex x :
  PyStr.all PyStr.is_hex x = true -> remove_char ":" x = x.
Proof.
  intros H. pose proof (remove_char_hex_app x "" H) as E.
  cbn [remove_char] in E. rewrite !string_app_nil_r in E. exact E.
Qed.

(** The text of an address without its colons is the run of its digits. *)
Lemma remove_colons_show a :
  forallb is_byte a = true ->
  remove_char ":" (show_address a) = String.concat "" (map hex2 a).
Proof.
  unfold show_address. induction a as [| b a IH]; [reflexivity |].
  intros H. simpl in H. apply andb_true_iff in H as [Hb Ha].
  destruct a as [| b' a].
  - cbn [map String.concat]. apply remove_char_hex, hex2_all, Hb.
  - change (String.concat ":" (map hex2 (b :: b' :: a)))
      with (hex2 b ++ String ":" (String.concat ":" (map hex2 (b' :: a)))).
    change (String.concat "" (map hex2 (b :: b' :: a)))
      with (hex2 b ++ String.concat "" (map hex2 (b' :: a))).
    rewrite remove_char_hex_app by (apply hex2_all, Hb).
    change (remove_char ":" (String ":" ?s)) with (remove_char ":" s).
    rewrite (IH Ha). reflexivity.
Qed.

Lemma digits_all a :
  forallb is_byte a = true ->
  PyStr.all PyStr.is_hex (String.concat "" (map hex2 a)) = true.
Proof.
  induction a as [| b a IH]; [reflexivity |].
  intros H. simpl in H. apply andb_true_iff in H as [Hb Ha].
  destruct a as [| b' a]; [apply hex2_all, Hb |].
  change (String.concat "" (map hex2 (b :: b' :: a)))
    with (hex2 b ++ String.concat "" (map hex2 (b' :: a))).
  rewrite string_all_app, hex2_all, (IH Ha) by assumption. reflexivity.
Qed.

Lemma digits_value a : forall acc,
  forallb is_byte a = true ->
  hex_string_value (String.concat "" (map hex2 a)) acc
  = fold_left (fun acc b => 256 * acc + b) a acc.
Proof.
  induction a as [| b a IH]; intros acc H; [reflexivity |].
  simpl in H. apply andb_true_iff in H as [Hb Ha].
  destruct a as [| b' a]; [apply hex2_value, Hb |].
  change (String.concat "" (map hex2 (b :: b' :: a)))
    with (hex2 b ++ String.concat "" (map hex2 (b' :: a))).
  rewrite hex_string_value_app, hex2_value, (IH _ Ha) by assumption. reflexivity.
Qed.

(** [int(mac_str.replace(':', ''), 16)] on the text of an address is its
    big-endian value. *)
Lemma int16_show_address a :
  valid_address a = true ->
  PyStr.int16 (PyStr.replace ":" "" (show_address a)) = Ok (be_value a).
Proof.
  unfold valid_address. intros H. apply andb_true_iff in H as [Hlen Hbytes].
  rewrite replace_char, remove_colons_show by exact Hbytes.
  rewrite int16_hex.
  - rewrite digits_value by assumption. reflexivity.
  - destruct a as [| b [| b' a]]; try discriminate; simpl; discriminate.
  - apply digits_all, Hbytes.
Qed.

Lemma be_value_range a :
  valid_address a = true -> 0 <= be_value a < 2 ^ 48.
Proof.
  unfold valid_address, be_value. intros H. apply andb_true_iff in H as [Hlen Hbytes].
  destruct a as [| b0 [| b1 [| b2 [| b3 [| b4 [| b5 [| ? ?]]]]]]]; try discriminate Hlen.
  simpl in Hbytes. unfold is_byte in Hbytes.
  repeat match goal with
         | H : _ && _ = true |- _ => apply andb_true_iff in H as [? ?]
         | H : (_ <=? _) = true |- _ => apply Z.leb_le in H
         | H : (_ <? _) = true |- _ => apply Z.ltb_lt in H
         end.
  cbn [fold_left]. lia.
Qed.

(** The slices of a text of twelve characters or more, joined by colons. *)
Lemma slices_joined c0 c1 c2 c3 c4 c5 c6 c7 c8 c9 c10 c11 rest :
  PyStr.join ":"
    (map (fun i => PyStr.slice i (i + 2)
       (String c0 (String c1 (String c2 (String c3 (String c4 (String c5
          (String c6 (String c7 (String c8 (String c9 (String c10 (String c11
             rest)))))))))))))
       range_0_12_2)
  = String c0 (String c1 (String ":" (String c2 (String c3 (String ":"
      (String c4 (String c5 (String ":" (String c6 (String c7 (String ":"
         (String c8 (String c9 (String ":" (String c10 (String c11 "")))))))))))))))).
Proof. destruct rest; reflexivity. Qed.

Ltac eval_divisors n :=
  repeat match goal with
         | |- context [n / ?k] =>
             let v := eval vm_compute in k in
             progress change (n / k) with (n / v)
         end.

Lemma fixed_hex_12 n :
  fixed_hex 12 n =
  let d i := PyStr.hex_digit_upper (n / 16 ^ i mod 16) in
  String (d 11) (String (d 10) (String (d 9) (String (d 8) (String (d 7) (String (d 6)
    (String (d 5) (String (d 4) (String (d 3) (String (d 2) (String (d 1) (String (d 0)
       ""))))))))))).
Proof.
  cbn [fixed_hex append]. rewrite !Z.div_div by lia.
  cbv zeta. eval_divisors n. rewrite (Z.div_1_r n). reflexivity.
Qed.

Lemma high_digit m : m mod 256 / 16 = m / 16 mod 16.
Proof. Z.div_mod_to_equations. lia. Qed.

Lemma low_digit m : m mod 256 mod 16 = m mod 16.
Proof. Z.div_mod_to_equations. lia. Qed.

Lemma show_to_bytes6 n :
  show_address (to_bytes6 n) =
  let d i := PyStr.hex_digit_upper (n / 16 ^ i mod 16) in
  String (d 11) (String (d 10) (String ":" (String (d 9) (String (d 8) (String ":"
    (String (d 7) (String (d 6) (String ":" (String (d 5) (String (d 4) (String ":"
      (String (d 3) (String (d 2) (String ":" (String (d 1) (String (d 0)
         "")))))))))))))))).
Proof.
  unfold show_address, to_bytes6, hex2. cbn [map String.concat append].
  rewrite !high_digit, !low_digit, !Z.div_div by lia.
  cbv zeta. eval_divisors n. rewrite (Z.div_1_r n). reflexivity.
Qed.

Ltac split_bytes a Hlen Hbytes :=
  destruct a as [| ?b [| ?b [| ?b [| ?b [| ?b [| ?b [| ? ?]]]]]]]; try discriminate Hlen;
  cbn [forallb] in Hbytes; unfold is_byte in Hbytes;
  repeat match goal with
         | H : _ && _ = true |- _ => apply andb_true_iff in H as [? ?]
         | H : (_ <=? _) = true |- _ => apply Z.leb_le in H
         | H : (_ <? _) = true |- _ => apply Z.ltb_lt in H
         end.

Lemma to_bytes6_be_value a : valid_address a = true -> to_bytes6 (be_value a) = a.
Proof.
  unfold valid_address. intros H. apply andb_true_iff in H as [Hlen Hbytes].
  split_bytes a Hlen Hbytes.
  unfold to_bytes6, be_value. cbn [fold_left].
  repeat f_equal; Z.div_mod_to_equations; lia.
Qed.

Lemma be_value_to_bytes6 n : 0 <= n < 2 ^ 48 -> be_value (to_bytes6 n) = n.
Proof.
  intros H. unfold to_bytes6, be_value. cbn [fold_left].
  Z.div_mod_to_equations. lia.
Qed.

Lemma valid_to_bytes6 n : valid_address (to_bytes6 n) = true.
Proof.
  unfold valid_address, to_bytes6, is_byte. cbn [List.length Nat.eqb forallb andb].
  repeat match goal with
         | |- context [?x mod 256] =>
             let H := fresh in
             pose proof (Z.mod_pos_bound x 256 ltac:(lia)) as H;
             generalize dependent (x mod 256); intros
         end.
  repeat (apply andb_true_iff; split); try apply Z.leb_le; try apply Z.ltb_lt; lia || reflexivity.
Qed.

(** What [increment_mac] returns while the sum stays a 48-bit unsigned
    integer. *)
Lemma increment_mac_in_range a o :
  valid_address a = true -> 0 <= be_value a + o < 2 ^ 48 ->
  increment_mac (show_address a) o = Ok (show_address (to_bytes6 (be_value a + o))).
Proof.
  intros Ha Hn. unfold increment_mac.
  rewrite (int16_show_address a Ha). cbn [bind].
  rewrite (format_012X_in_range _ Hn), fixed_hex_12. cbv zeta.
  rewrite slices_joined, show_to_bytes6. reflexivity.
Qed.

Lemma canonical_of_slices s :
  (12 <= String.length s)%nat -> PyStr.all PyStr.is_upper_hex s = true ->
  canonical
    (PyStr.join ":" (map (fun i => PyStr.slice i (i + 2) s) range_0_12_2)) = true.
Proof.
  intros Hlen Hall.
  do 12 (destruct s as [| ?c s]; [cbn [String.length] in Hlen; lia |]).
  rewrite slices_joined. cbn [PyStr.all] in Hall.
  repeat match goal with
         | H : _ && _ = true |- _ => apply andb_true_iff in H as [? ?]
         end.
  cbn [canonical canonical_groups].
  repeat match goal with
         | H : PyStr.is_upper_hex _ = true |- _ => rewrite H; clear H
         end.
  reflexivity.
Qed.

(** ** The catalog *)

Lemma load_database_no_file m con :
  load_database (mkState m NoFile con) = Some (Ok tt, mkState m NoFile con).
Proof. reflexivity. Qed.

Lemma load_database_unparsable m con :
  load_database (mkState m Unparsable con)
  = Some (Raise JSONDecodeError, mkState m Unparsable con).
Proof. reflexivity. Qed.

(** Loading an object whose [devices] entry (or the default) has a length. *)
Lemma load_database_object m con members n :
  let devices := match lookup "devices" members with Some v => v | None => JArr [] end in
  let next_id := match lookup "next_id" members with Some v => v | None => JInt 1 end in
  py_len devices = Ok n ->
  load_database (mkState m (Holds (JObj members)) con)
  = Some (Ok tt,
          mkState (mkManager (baudrate m) (timeout m) devices next_id (db_file m))
            (Holds (JObj members)) (con ++ [Loaded n])).
Proof.
  intros devices next_id Hlen.
  cbv [load_database pbind read_disk lift set_mac_database set_device_counter
       get_self set_self print py_get self disk console baudrate timeout
       mac_database device_counter db_file].
  fold devices. fold next_id. rewrite Hlen. reflexivity.
Qed.

Lemma save_database_writes now st :
  save_database now st
  = Some (Ok tt,
          mkState (self st)
            (Holds (JObj [("devices", mac_database (self st));
                          ("next_id", device_counter (self st));
                          ("last_updated", JStr now)]))
            (console st ++ [Saved (db_file (self st))])).
Proof. reflexivity. Qed.

(** ** The capture *)

Ltac run_prog :=
  cbv [pbind get_self set_self read_disk write_disk print lift ret raise
       set_mac_database set_device_counter save_database
       self disk console baudrate timeout mac_database device_counter db_file].

(** The two ways [record_device] ends on a catalog that is a list with an
    integer counter: [increment_mac] raises before anything is changed, or
    the record is appended, the counter moves by one and the file is
    written. *)
Lemma record_device_outcome port env mac st recs k :
  mac_database (self st) = JArr recs ->
  device_counter (self st) = JInt k ->
  match increment_mac mac 2 with
  | Raise e =>
      record_device port env mac st
      = Some (Raise e, mkState (self st) (disk st) (console st ++ [WifiDetected mac]))
  | Ok bt_mac =>
      let info := device_info_of (JInt k) mac bt_mac (record_stamp env) port in
      let m' := mkManager (baudrate (self st)) (timeout (self st))
                  (JArr (recs ++ [info])) (JInt (k + 1)) (db_file (self st)) in
      record_device port env mac st
      = Some (Ok (Some info),
              mkState m'
                (Holds (JObj [("devices", JArr (recs ++ [info]));
                              ("next_id", JInt (k + 1));
                              ("last_updated", JStr (saved_stamp env))]))
                (console st ++ [WifiDetected mac; BtCalculated bt_mac;
                                Saved (db_file (self st))]))
  end.
Proof.
  destruct st as [[b t db counter path] d con]. cbn [self mac_database device_counter].
  intros -> ->. unfold record_device.
  destruct (increment_mac mac 2) as [bt_mac | e]; run_prog; [| reflexivity].
  cbv [py_append py_add1]. rewrite <- !List.app_assoc. reflexivity.
Qed.

(** A loop that sees no address until the clock passes the deadline ends
    with the timeout message and nothing else changed. *)
Lemma read_loop_timeout port env late after : forall before st,
  forallb (fun t => in_time (timeout (self st)) (start_time env) t
                    && no_address (event t)) before = true ->
  in_time (timeout (self st)) (start_time env) late = false ->
  read_loop port env (before ++ late :: after) st
  = Some (Ok None,
          mkState (self st) (disk st)
            (console st ++ flat_map echo_of before ++ [TimeoutWaiting])).
Proof.
  induction before as [| t before IH]; intros st Hquiet Hlate.
  - cbn [app read_loop flat_map]. unfold in_time in Hlate.
    unfold pbind at 1, get_self at 1. cbv beta iota. rewrite Hlate. reflexivity.
  - cbn [forallb] in Hquiet.
    apply andb_true_iff in Hquiet as [Ht Hquiet].
    apply andb_true_iff in Ht as [Htime Hnone]. unfold in_time in Htime.
    change ((t :: before) ++ late :: after)%list
      with (t :: (before ++ late :: after))%list.
    cbn [read_loop flat_map]. unfold pbind at 1, get_self at 1.
    cbv beta iota. rewrite Htime.
    unfold echo_of at 1. unfold no_address in Hnone.
    destruct (event t) as [| text | msg]; [| | discriminate Hnone].
    + apply IH; assumption.
    + destruct (truthy (PyStr.strip text)).
      * unfold pbind at 1, print at 1.
        destruct (parse_mac_from_boot_message (PyStr.strip text)); [discriminate Hnone |].
        rewrite IH by assumption. cbn [self disk console].
        rewrite <- !List.app_assoc. reflexivity.
      * apply IH; assumption.
Qed.

(** The ways the loop can end: at the deadline, on a broken port, or in
    [record_device], with the manager and the file still as they were. *)
Lemma read_loop_outcome port env : forall ts st r st',
  read_loop port env ts st = Some (r, st') ->
  (self st' = self st /\ disk st' = disk st /\
   (r = Ok None \/ exists msg, r = Raise (SerialException msg)))
  \/ (exists mac st1, self st1 = self st /\ disk st1 = disk st /\
        record_device port env mac st1 = Some (r, st')).
Proof.
  induction ts as [| t ts IH]; intros st r st' H; [discriminate H |].
  cbn [read_loop] in H. unfold pbind at 1, get_self at 1 in H.
  cbv beta iota in H.
  destruct (clock t - start_time env <? timeout (self st)).
  - destruct (event t) as [| text | msg].
    + apply IH, H.
    + destruct (truthy (PyStr.strip text)); [| apply IH, H].
      unfold pbind at 1, print at 1 in H.
      destruct (parse_mac_from_boot_message (PyStr.strip text)) as [mac |].
      * destruct (truthy mac).
        -- right. eexists mac, _. split; [| split; [| exact H]]; reflexivity.
        -- apply IH in H. cbn [self disk] in H. exact H.
      * apply IH in H. cbn [self disk] in H. exact H.
    + left. injection H as <- <-. repeat split. right. eexists. reflexivity.
  - left. revert H. run_prog. intros H. injection H as <- <-.
    repeat split. left. reflexivity.
Qed.

(** A capture whose port opens and whose loop sees no address before the
    deadline: [None] is returned; the manager and the file are untouched. *)
Lemma collect_timeout port env before late after st :
  open_error env = None ->
  ticks env = (before ++ late :: after)%list ->
  forallb (fun t => in_time (timeout (self st)) (start_time env) t
                    && no_address (event t)) before = true ->
  in_time (timeout (self st)) (start_time env) late = false ->
  collect_mac_from_reset port env st
  = Some (Ok None,
          mkState (self st) (disk st)
            (console st ++ preamble (self st) port
               ++ flat_map echo_of before ++ [TimeoutWaiting])).
Proof.
  intros Hopen Hticks Hquiet Hlate.
  unfold collect_mac_from_reset. rewrite Hopen, Hticks.
  cbv [pbind get_self print try_serial].
  rewrite read_loop_timeout by assumption.
  cbn [self disk console]. unfold preamble.
  rewrite <- !List.app_assoc. reflexivity.
Qed.

(** A capture whose port does not open: [None] is returned as well. *)
Lemma collect_open_failure port env msg st :
  open_error env = Some msg ->
  collect_mac_from_reset port env st
  = Some (Ok None,
          mkState (self st) (disk st)
            (console st ++ preamble (self st) port ++ [ErrorOpeningPort msg])).
Proof.
  intros Hopen. unfold collect_mac_from_reset. rewrite Hopen.
  cbv [pbind get_self print try_serial raise ret]. cbn [self disk console].
  unfold preamble. rewrite <- !List.app_assoc. reflexivity.
Qed.

Lemma increment_mac_raises mac o e :
  increment_mac mac o = Raise e -> e = ValueError.
Proof.
  unfold increment_mac, PyStr.int16. cbv zeta.
  destruct (PyStr.split_sign _) as [neg s].
  destruct (PyStr.digits16 _ 0 false); cbn [bind]; congruence.
Qed.

(** Every way a capture ends, on a catalog that is a list with an integer
    counter: without a change to the manager or the file (returning [None],
    or raising what [increment_mac] raised), or with one record more. *)
Lemma collect_outcome port env st recs k r st' :
  mac_database (self st) = JArr recs ->
  device_counter (self st) = JInt k ->
  collect_mac_from_reset port env st = Some (r, st') ->
  (self st' = self st /\ disk st' = disk st /\ (r = Ok None \/ exists e, r = Raise e))
  \/ (exists mac bt_mac,
        let info := device_info_of (JInt k) mac bt_mac (record_stamp env) port in
        r = Ok (Some info)
        /\ self st' = mkManager (baudrate (self st)) (timeout (self st))
                        (JArr (recs ++ [info])) (JInt (k + 1)) (db_file (self st))
        /\ disk st' = Holds (JObj [("devices", JArr (recs ++ [info]));
                                   ("next_id", JInt (k + 1));
                                   ("last_updated", JStr (saved_stamp env))])).
Proof.
  intros Hdb Hcounter H.
  destruct (open_error env) as [msg |] eqn:Hopen.
  - rewrite (collect_open_failure port env msg st Hopen) in H.
    injection H as <- <-. left. repeat split. left. reflexivity.
  - unfold collect_mac_from_reset in H. rewrite Hopen in H.
    cbv [pbind get_self print try_serial] in H. cbn [self disk console] in H.
    match type of H with
    | context [read_loop port env (ticks env) ?s] => set (st0 := s) in H
    end.
    destruct (read_loop port env (ticks env) st0) as [[r0 st1] |] eqn:Hloop;
      [| discriminate H].
    apply read_loop_outcome in Hloop.
    destruct Hloop as [(Hself & Hdisk & [-> | [msg ->]]) | (mac & st2 & Hself & Hdisk & Hrec)].
    + injection H as <- <-. left. rewrite Hself, Hdisk. repeat split. left. reflexivity.
    + injection H as <- <-. left. cbn [self disk]. rewrite Hself, Hdisk.
      repeat split. left. reflexivity.
    + pose proof (record_device_outcome port env mac st2 recs k) as Hout.
      rewrite Hself in Hout. specialize (Hout Hdb Hcounter).
      destruct (increment_mac mac 2) as [bt_mac | e] eqn:Hinc.
      * rewrite Hrec in Hout. injection Hout as -> ->.
        injection H as <- <-. right. exists mac, bt_mac. cbn [self disk].
        repeat split.
      * apply increment_mac_raises in Hinc. subst e.
        rewrite Hrec in Hout. injection Hout as -> ->.
        injection H as <- <-. left. cbn [self disk]. rewrite Hdisk.
        repeat split. right. eexists. reflexivity.
Qed.

(** ** Identifiers across captures and restarts *)

Lemma count_from_snoc : forall n first,
  count_from first (S n) = (count_from first n ++ [Some (JInt (first + Z.of_nat n))])%list.
Proof.
  induction n as [| n IH]; intros first.
  - cbn [count_from app Z.of_nat]. rewrite Z.add_0_r. reflexivity.
  - change (count_from first (S (S n)))
      with (Some (JInt first) :: count_from (first + 1) (S n)).
    rewrite IH. cbn [count_from app].
    replace (first + 1 + Z.of_nat n) with (first + Z.of_nat (S n)) by lia.
    reflexivity.
Qed.

Lemma well_numbered_snoc recs k info :
  well_numbered recs (JInt k) -> record_id info = Some (JInt k) ->
  well_numbered (recs ++ [info]) (JInt (k + 1)).
Proof.
  intros [Hids Hk] Hid.
  assert (Hk' : k = 1 + Z.of_nat (List.length recs)) by congruence.
  clear Hk. subst k. split.
  - rewrite map_app, List.length_app, Nat.add_1_r, count_from_snoc, Hids.
    cbn [map]. rewrite Hid. reflexivity.
  - rewrite List.length_app. cbn [List.length]. apply f_equal. lia.
Qed.

Lemma consistent_same st st' :
  self st' = self st -> disk st' = disk st -> consistent st -> consistent st'.
Proof. unfold consistent. intros -> ->. exact (fun H => H). Qed.

Lemma relaunch_consistent b t st st' :
  consistent st -> relaunch b t st = Some st' -> consistent st'.
Proof.
  intros (recs & Hdb & Hnum & Hdisk) H. unfold relaunch, init in H.
  destruct Hdisk as [[Hdisk ->] | [now Hdisk]]; rewrite Hdisk in H.
  - rewrite load_database_no_file in H. injection H as <-.
    exists []. cbn [self disk mac_database device_counter].
    destruct Hnum as [_ Hk]. repeat split. left. split; reflexivity.
  - rewrite (load_database_object _ _ _ (Z.of_nat (List.length recs))) in H
      by reflexivity.
    injection H as <-. exists recs.
    cbn [lookup String.eqb Ascii.eqb Bool.eqb self disk mac_database device_counter].
    repeat split; try apply Hnum. right. exists now. reflexivity.
Qed.

Lemma exec_consistent a st st' :
  consistent st -> exec a st = Some st' -> consistent st'.
Proof.
  intros Hst H. destruct a as [port env | b t]; cbn [exec] in H;
    [| exact (relaunch_consistent _ _ _ _ Hst H)].
  destruct (collect_mac_from_reset port env st) as [[r st1] |] eqn:Hcollect;
    [| discriminate H].
  destruct Hst as (recs & Hdb & Hnum & Hdisk).
  pose proof Hnum as [_ Hk].
  destruct (collect_outcome port env st recs _ r st1 Hdb Hk Hcollect)
    as [(Hself & Hsame & Hr) | (mac & bt_mac & Hr & Hself & Hfile)].
  - assert (Hst1 : consistent st1)
      by (apply (consistent_same st); [assumption .. | exists recs; auto]).
    destruct Hr as [-> | [e ->]].
    + injection H as <-. exact Hst1.
    + exact (relaunch_consistent _ _ _ _ Hst1 H).
  - cbv zeta in Hr, Hself, Hfile. subst r. injection H as <-.
    exists (recs ++ [device_info_of (JInt (1 + Z.of_nat (List.length recs))) mac bt_mac
                       (record_stamp env) port])%list.
    rewrite Hself, Hfile. cbn [mac_database device_counter].
    split; [reflexivity |]. split.
    + apply well_numbered_snoc; [rewrite <- Hk; exact Hnum | reflexivity].
    + right. eexists. reflexivity.
Qed.

Lemma run_script_consistent script : forall st st',
  consistent st -> run_script script st = Some st' -> consistent st'.
Proof.
  induction script as [| a script IH]; intros st st' Hst H; cbn [run_script] in H.
  - injection H as <-. exact Hst.
  - destruct (exec a st) as [st1 |] eqn:Hexec; [| discriminate H].
    exact (IH _ _ (exec_consistent _ _ _ Hst Hexec) H).
Qed.

(** ** The matcher finds matches only *)

Lemma star_sound p : forall s k x,
  Re.star p s k = Some x ->
  exists m rest, s = m ++ rest /\ PyStr.all p m = true /\ k rest = Some x.
Proof.
  induction s as [| c s IH]; intros k x H; cbn [Re.star] in H.
  - exists "", "". auto.
  - destruct (p c) eqn:Hc; [| exists "", (String c s); auto].
    destruct (Re.star p s k) as [y |] eqn:Hstar.
    + injection H as ->. destruct (IH k x Hstar) as (m & rest & -> & Hm & Hk).
      exists (String c m), rest. cbn [PyStr.all append]. rewrite Hc, Hm. auto.
    + exists "", (String c s). auto.
Qed.

Lemma run_sound r : forall s k x,
  Re.run r s k = Some x ->
  exists m rest, s = m ++ rest /\ matches r m /\ k rest = Some x.
Proof.
  induction r as [p | p | r1 IH1 r2 IH2 | n r IH]; intros s k x H.
  - cbn [Re.run] in H. destruct s as [| c s]; [discriminate H |].
    destruct (p c) eqn:Hc; [| discriminate H].
    exists (String c ""), s. auto using matches_cls.
  - cbn [Re.run] in H. destruct s as [| c s]; [discriminate H |].
    destruct (p c) eqn:Hc; [| discriminate H].
    destruct (star_sound p s k x H) as (m & rest & -> & Hm & Hk).
    exists (String c m), rest. auto using matches_plus.
  - cbn [Re.run] in H.
    destruct (IH1 _ _ _ H) as (m1 & rest1 & -> & Hm1 & H2).
    destruct (IH2 _ _ _ H2) as (m2 & rest2 & -> & Hm2 & Hk).
    exists (m1 ++ m2), rest2. rewrite string_app_assoc. auto using matches_seq.
  - revert s k x H. induction n as [| n IHn]; intros s k x H.
    + exists "", s. auto using matches_rep_0.
    + cbn [Re.run] in H.
      destruct (IH _ _ _ H) as (m1 & rest1 & -> & Hm1 & H2).
      destruct (IHn _ _ _ H2) as (m2 & rest2 & -> & Hm2 & Hk).
      exists (m1 ++ m2), rest2. rewrite string_app_assoc. auto using matches_rep_S.
Qed.

Lemma search_sound r : forall s m,
  Re.search r s = Some m ->
  exists before found rest, s = before ++ found ++ rest /\ matches r found.
Proof.
  induction s as [| c s IH]; intros m H.
  - cbn [Re.search] in H. unfold Re.match_at in H.
    destruct (Re.run r "" Some) as [rest |] eqn:Hrun; [| discriminate H].
    destruct (run_sound r _ _ _ Hrun) as (found & rest' & E & Hm & _).
    exists "", found, rest'. auto.
  - cbn [Re.search] in H. unfold Re.match_at in H.
    destruct (Re.run r (String c s) Some) as [rest |] eqn:Hrun.
    + destruct (run_sound r _ _ _ Hrun) as (found & rest' & E & Hm & _).
      exists "", found, rest'. auto.
    + destruct (IH m H) as (before & found & rest & -> & Hm).
      exists (String c before), found, rest. auto.
Qed.

(** ** Hex byte-groups in a match *)

Lemma count_hex_pairs_cons : forall s a,
  (count_hex_pairs s <= count_hex_pairs (String a s) <= S (count_hex_pairs s))%nat.
Proof.
  induction s as [| b s IH]; intros a; [cbn; lia |].
  change (count_hex_pairs (String a (String b s)))
    with (if PyStr.is_hex a && PyStr.is_hex b then S (count_hex_pairs s)
          else count_hex_pairs (String b s)).
  pose proof (IH b). destruct (PyStr.is_hex a && PyStr.is_hex b); lia.
Qed.

Lemma count_hex_pairs_app before s :
  (count_hex_pairs s <= count_hex_pairs (before ++ s))%nat.
Proof.
  induction before as [| a before IH]; [cbn [append]; lia |].
  cbn [append]. pose proof (count_hex_pairs_cons (before ++ s) a). lia.
Qed.

Lemma count_hex_pairs_group a b c s :
  PyStr.is_hex a = true -> PyStr.is_hex b = true ->
  (S (count_hex_pairs s) <= count_hex_pairs (String a (String b (String c s))))%nat.
Proof.
  intros Ha Hb.
  change (count_hex_pairs (String a (String b (String c s))))
    with (if PyStr.is_hex a && PyStr.is_hex b then S (count_hex_pairs (String c s))
          else count_hex_pairs (String b (String c s))).
  rewrite Ha, Hb. pose proof (count_hex_pairs_cons s c). cbn [andb]. lia.
Qed.

Ltac invert_matches :=
  repeat match goal with
         | H : matches (Re.Cls _) _ |- _ => inversion H; subst; clear H
         | H : matches (Re.Seq _ _) _ |- _ => inversion H; subst; clear H
         | H : matches (Re.Rep _ _) _ |- _ => inversion H; subst; clear H
         end.

(** A match of the bare pattern has six hex byte-groups. *)
Lemma bare_mac_has_six_groups found rest :
  matches bare_mac found -> (6 <= count_hex_pairs (found ++ rest))%nat.
Proof.
  unfold bare_mac. intros H. invert_matches. cbn [append].
  do 5 (eapply Nat.le_trans;
        [apply le_n_S | apply count_hex_pairs_group; assumption]).
  match goal with
  | |- (1 <= count_hex_pairs (String ?a (String ?b _)))%nat =>
      destruct rest;
      [ cbn [count_hex_pairs]
      | eapply Nat.le_trans; [| apply count_hex_pairs_group; assumption]; lia ]
  end.
  repeat match goal with
         | H : PyStr.is_hex _ = true |- _ => rewrite H; clear H
         end.
  cbn [andb]. lia.
Qed.

(** A match of the labelled pattern ends in a match of the bare one. *)
Lemma labelled_mac_ends_bare found :
  matches labelled_mac found ->
  exists label mac, found = label ++ mac /\ matches bare_mac mac.
Proof.
  unfold labelled_mac. intros H.
  repeat match goal with
         | H : matches (Re.Seq (Re.Cls _) _) _ |- _ => inversion H; subst; clear H
         | H : matches (Re.Seq (Re.Plus _) _) _ |- _ => inversion H; subst; clear H
         end.
  eexists _, _. split; [| eassumption].
  rewrite <- !string_app_assoc. reflexivity.
Qed.

(** * The claims *)

(** ** C1: [increment_mac] against the 48-bit arithmetic of the specification *)

(** C1, as stated, fails on both sides of the 48-bit range. At
    FF:FF:FF:FF:FF:FF plus 2 the specification wraps to 00:00:00:00:00:01,
    while [increment_mac] formats the 13-digit sum and keeps its first
    twelve digits, 10:00:00:00:00:00. At 00:00:00:00:00:00 minus 1 the
    specification wraps to FF:FF:FF:FF:FF:FF, while [increment_mac] formats
    the negative sum with its sign. *)
Lemma increment_mac_overflow_not_wrapped :
  let top := [255; 255; 255; 255; 255; 255] in
  let zero := [0; 0; 0; 0; 0; 0] in
  valid_address top = true
  /\ increment_mac (show_address top) 2 = Ok "10:00:00:00:00:00"
  /\ deriveAddress_spec top 2 = "00:00:00:00:00:01"
  /\ increment_mac (show_address top) 2 <> Ok (deriveAddress_spec top 2)
  /\ valid_address zero = true
  /\ increment_mac (show_address zero) (-1) = Ok "-0:00:00:00:00:01"
  /\ deriveAddress_spec zero (-1) = "FF:FF:FF:FF:FF:FF".
Proof.
  cbv zeta. repeat split; try (vm_compute; reflexivity).
  vm_compute. discriminate.
Qed.

(** C1, amended: for every 6-byte address and every integer offset whose sum
    with the address stays within 0 .. 2^48 - 1, [increment_mac] returns the
    text the specification describes: the address read as a 48-bit
    big-endian unsigned integer, plus the offset, (reduced modulo 2^48,
    which changes nothing there,) as six colon-separated upper-case hex
    pairs. *)
Theorem increment_mac_refines_spec_without_overflow (a : list Z) (o : Z) :
  valid_address a = true ->
  0 <= be_value a + o < 2 ^ 48 ->
  increment_mac (show_address a) o = Ok (deriveAddress_spec a o).
Proof.
  intros Ha Hn. unfold deriveAddress_spec.
  rewrite Z.mod_small by exact Hn.
  apply increment_mac_in_range; assumption.
Qed.

(** The address of the end-to-end scenario, offset 2. *)
Lemma increment_mac_refines_spec_without_overflow_witness :
  increment_mac "24:6F:28:AA:BB:CC" 2 = Ok "24:6F:28:AA:BB:CE".
Proof.
  apply (increment_mac_refines_spec_without_overflow [36; 111; 40; 170; 187; 204] 2).
  - reflexivity.
  - cbv [be_value fold_left]. lia.
Defined.

(** ** C7: deriving forth and back *)

(** C7, as stated, fails: from 00:00:00:00:00:01, offset 2 and then offset
    (-2 mod 2^48) give 10:00:00:00:00:00, since the second sum is
    2^48 + 1 and nothing reduces it. *)
Lemma derive_back_by_modular_negation_fails :
  let a := [0; 0; 0; 0; 0; 1] in
  let o := 2 in
  valid_address a = true
  /\ 0 <= o
  /\ (s <- increment_mac (show_address a) o ;; increment_mac s ((- o) mod 2 ^ 48))
     = Ok "10:00:00:00:00:00"
  /\ (s <- increment_mac (show_address a) o ;; increment_mac s ((- o) mod 2 ^ 48))
     <> Ok (show_address a).
Proof.
  cbv zeta. repeat split; try (vm_compute; reflexivity); vm_compute; discriminate.
Qed.

(** C7, amended: for every valid 6-byte address [a] and every non-negative
    offset [o] with [a + o] at most 2^48 - 1, deriving with [o] and then
    with the negative offset [-o] returns [a]. *)
Theorem increment_mac_inverse_without_overflow (a : list Z) (o : Z) :
  valid_address a = true ->
  0 <= o ->
  be_value a + o < 2 ^ 48 ->
  (s <- increment_mac (show_address a) o ;; increment_mac s (- o))
  = Ok (show_address a).
Proof.
  intros Ha Ho Hn. pose proof (be_value_range a Ha) as Hrange.
  rewrite increment_mac_in_range by (assumption || lia). cbn [bind].
  rewrite increment_mac_in_range.
  - rewrite be_value_to_bytes6 by lia.
    replace (be_value a + o + - o) with (be_value a) by lia.
    rewrite (to_bytes6_be_value a Ha). reflexivity.
  - apply valid_to_bytes6.
  - rewrite be_value_to_bytes6 by lia. lia.
Qed.

(** Forth by 2 and back by -2. *)
Lemma increment_mac_inverse_without_overflow_witness :
  (s <- increment_mac "24:6F:28:AA:BB:CC" 2 ;; increment_mac s (- 2))
  = Ok "24:6F:28:AA:BB:CC".
Proof.
  apply (increment_mac_inverse_without_overflow [36; 111; 40; 170; 187; 204] 2).
  - reflexivity.
  - lia.
  - cbv [be_value fold_left]. lia.
Defined.

(** ** C8: the form of what [increment_mac] returns *)

(** C8, as stated, fails: 00:00:00:00:00:00 with offset -1 gives a text with
    a minus sign, which is not in the canonical form. *)
Lemma increment_mac_negative_sum_not_canonical :
  let a := [0; 0; 0; 0; 0; 0] in
  valid_address a = true
  /\ increment_mac (show_address a) (-1) = Ok "-0:00:00:00:00:01"
  /\ canonical "-0:00:00:00:00:01" = false.
Proof. cbv zeta. repeat split; vm_compute; reflexivity. Qed.

(** C8, amended: for every valid 6-byte address and every offset whose sum
    with the address is not negative (every non-negative offset, then),
    [increment_mac] returns six colon-separated groups of exactly two
    upper-case hex digits, also when the sum exceeds 2^48 - 1. *)
Theorem increment_mac_canonical_when_sum_nonnegative (a : list Z) (o : Z) :
  valid_address a = true ->
  0 <= be_value a + o ->
  exists s, increment_mac (show_address a) o = Ok s /\ canonical s = true.
Proof.
  intros Ha Hn. unfold increment_mac.
  rewrite (int16_show_address a Ha). cbn [bind].
  eexists. split; [reflexivity |].
  unfold PyStr.format_012X. destruct (Z.ltb_spec (be_value a + o) 0); [lia |].
  apply canonical_of_slices.
  - apply zfill_length.
  - apply zfill_all, hex_upper_fuel_all, Hn.
Qed.

(** The overflowing sum FF:FF:FF:FF:FF:FF + 2. *)
Lemma increment_mac_canonical_when_sum_nonnegative_witness :
  exists s, increment_mac "FF:FF:FF:FF:FF:FF" 2 = Ok s /\ canonical s = true.
Proof.
  apply (increment_mac_canonical_when_sum_nonnegative [255; 255; 255; 255; 255; 255] 2).
  - reflexivity.
  - cbv [be_value fold_left]. lia.
Defined.

(** ** C2: [parse_mac_from_boot_message] *)

(** C2 at the line "Got mac aa:bb:cc:dd:ee:ff ready": the pattern takes the
    label with the blank after it, only the labels followed by a colon are
    removed, and the label stays in what is returned. *)
Theorem parse_mac_keeps_label_without_colon :
  parse_mac_from_boot_message "Got mac aa:bb:cc:dd:ee:ff ready"
  = Some "MAC AA:BB:CC:DD:EE:FF".
Proof. vm_compute. reflexivity. Qed.

(** The other line of C2 is read as the claim says. *)
Lemma parse_mac_label_with_colon :
  parse_mac_from_boot_message "MAC: aa-bb-cc-dd-ee-ff" = Some "AA:BB:CC:DD:EE:FF".
Proof. vm_compute. reflexivity. Qed.

(** What the kept label leads to: [increment_mac] raises [ValueError] on it,
    nothing in [collect_mac_from_reset] catches that, and no record is
    written. *)
Lemma capture_raises_on_kept_label :
  let st := mkState (mkManager 115200 30 (JArr []) (JInt 1) "esp32_mac_database.json")
              NoFile [] in
  let env := mkEnv None 100 [mkTick 101 (Line "Got mac aa:bb:cc:dd:ee:ff ready")]
               "2024-01-01T00:00:00" "2024-01-01T00:00:01" in
  returned (collect_mac_from_reset "COM3" env st)
  = Some (Raise ValueError, self st, NoFile).
Proof. vm_compute. reflexivity. Qed.

(** The first part of C2 holds: a line with fewer than six hex byte-groups
    has no address for [parse_mac_from_boot_message]. *)
Lemma parse_mac_none_below_six_groups (line : string) :
  (count_hex_pairs line < 6)%nat -> parse_mac_from_boot_message line = None.
Proof.
  intros Hfew. unfold parse_mac_from_boot_message, mac_patterns. cbn [first_match].
  destruct (Re.search labelled_mac line) as [m |] eqn:Hlabelled.
  - exfalso. destruct (search_sound _ _ _ Hlabelled) as (before & found & rest & -> & Hm).
    destruct (labelled_mac_ends_bare found Hm) as (label & mac & -> & Hmac).
    pose proof (bare_mac_has_six_groups mac rest Hmac).
    pose proof (count_hex_pairs_app (before ++ label) (mac ++ rest)) as Happ.
    rewrite !string_app_assoc in Happ. rewrite !string_app_assoc in Hfew. lia.
  - destruct (Re.search bare_mac line) as [m |] eqn:Hbare; [| reflexivity].
    exfalso. destruct (search_sound _ _ _ Hbare) as (before & found & rest & -> & Hm).
    pose proof (bare_mac_has_six_groups found rest Hm).
    pose proof (count_hex_pairs_app before (found ++ rest)). lia.
Qed.

(** Five groups only. *)
Lemma parse_mac_none_below_six_groups_example :
  parse_mac_from_boot_message "rst:0x1 (POWERON_RESET) aa:bb:cc:dd:ee" = None.
Proof. apply parse_mac_none_below_six_groups. vm_compute. lia. Qed.

(** ** The end-to-end scenario of the specification *)

(** An empty catalog and a boot stream of two lines, "boot" and
    "MAC: 24:6F:28:AA:BB:CC": the capture returns the record 1 with the
    derived address 24:6F:28:AA:BB:CE, and the file holds [next_id] 2. *)
Example end_to_end_scenario :
  let st := mkState (mkManager 115200 30 (JArr []) (JInt 1) "esp32_mac_database.json")
              NoFile [] in
  let boot := String "b" (String "o" (String "o" (String "t" (String "010" "")))) in
  let mac := "MAC: 24:6F:28:AA:BB:CC" ++ String "010" "" in
  let env := mkEnv None 100 [mkTick 101 (Line boot); mkTick 102 (Line mac)]
               "2024-01-01T00:00:00" "2024-01-01T00:00:01" in
  let info := device_info_of (JInt 1) "24:6F:28:AA:BB:CC" "24:6F:28:AA:BB:CE"
                "2024-01-01T00:00:00" "COM3" in
  exists st',
    collect_mac_from_reset "COM3" env st = Some (Ok (Some info), st')
    /\ mac_database (self st') = JArr [info]
    /\ file_member "next_id" (disk st') = Some (JInt 2).
Proof.
  cbv zeta. eexists.
  split; [vm_compute; reflexivity |].
  split; vm_compute; reflexivity.
Qed.

(** ** C3: identifiers across captures and restarts *)

(** C3: in every state a run reaches from a first start without a catalog
    file, through captures (that succeed, fail or raise) and restarts in any
    order, the records carry the identifiers 1, 2, 3, ... in the order of
    their creation and the counter is the next one; the file, once written,
    holds that very list and counter, which is what a restart loads. *)
Theorem identifiers_contiguous_across_restarts
    (baudrate timeout : Z) (script : list action) (st : state) :
  session baudrate timeout NoFile script = Some st ->
  exists recs,
    mac_database (self st) = JArr recs
    /\ map record_id recs = count_from 1 (List.length recs)
    /\ device_counter (self st) = JInt (1 + Z.of_nat (List.length recs))
    /\ ((disk st = NoFile /\ recs = [])
        \/ exists now,
             disk st = Holds (JObj [("devices", JArr recs);
                                    ("next_id", device_counter (self st));
                                    ("last_updated", JStr now)])).
Proof.
  unfold session, init. rewrite load_database_no_file. intros Hrun.
  assert (Hfirst : consistent
            (mkState (mkManager baudrate timeout (JArr []) (JInt 1)
                        "esp32_mac_database.json") NoFile [])).
  { exists []. repeat split. left. split; reflexivity. }
  destruct (run_script_consistent script _ _ Hfirst Hrun) as (recs & Hdb & [Hids Hk] & Hdisk).
  exists recs. auto.
Qed.

(** A capture, a restart and a second capture: the identifiers 1 and 2. *)
Lemma identifiers_contiguous_across_restarts_witness :
  let boot := "MAC: 24:6F:28:AA:BB:CC" in
  let env := mkEnv None 100 [mkTick 101 Quiet; mkTick 102 (Line boot)]
               "2024-01-01T00:00:00" "2024-01-01T00:00:01" in
  let script := [Capture "COM3" env; Relaunch 115200 30; Capture "COM4" env] in
  exists st recs,
    session 115200 30 NoFile script = Some st
    /\ mac_database (self st) = JArr recs
    /\ map record_id recs = [Some (JInt 1); Some (JInt 2)]
    /\ device_counter (self st) = JInt 3.
Proof.
  cbv zeta. eexists.
  match goal with
  | |- exists recs, ?s = Some ?st /\ _ =>
      assert (Hrun : s = Some st) by (vm_compute; reflexivity)
  end.
  destruct (identifiers_contiguous_across_restarts _ _ _ _ Hrun)
    as (recs & Hdb & Hids & Hk & _).
  exists recs. cbn [self mac_database device_counter] in Hdb, Hk |- *.
  injection Hdb as <-. repeat split; try exact Hrun; vm_compute; reflexivity.
Defined.

(** What one capture that succeeds does to the identifiers: the record it
    returns carries the counter as it was, and the counter moves by one. *)
Lemma capture_assigns_the_counter port env st recs k info st' :
  mac_database (self st) = JArr recs ->
  device_counter (self st) = JInt k ->
  collect_mac_from_reset port env st = Some (Ok (Some info), st') ->
  record_id info = Some (JInt k)
  /\ mac_database (self st') = JArr (recs ++ [info])
  /\ device_counter (self st') = JInt (k + 1)
  /\ file_member "next_id" (disk st') = Some (JInt (k + 1))
  /\ file_member "devices" (disk st') = Some (JArr (recs ++ [info])).
Proof.
  intros Hdb Hk H.
  destruct (collect_outcome port env st recs k _ _ Hdb Hk H)
    as [(_ & _ & [Hr | [e Hr]]) | (mac & bt_mac & Hr & Hself & Hfile)];
    try discriminate Hr.
  cbv zeta in Hr, Hself, Hfile. injection Hr as ->.
  rewrite Hself, Hfile. repeat split.
Qed.

(** ** C4: the catalog round trip *)

(** C4: for every in-memory catalog (a list of records and a counter),
    saving it, loading the file in a new process and saving again writes the
    same [devices] and the same [next_id]; only [last_updated] is that of
    the second save. *)
Theorem catalog_round_trip
    (b t b' t' : Z) (path : string) (devices : list json) (next_id : json)
    (f : file) (con : list message) (now1 now2 : string) :
  let C := mkState (mkManager b t (JArr devices) next_id path) f con in
  exists st1 st2 st3,
    save_database now1 C = Some (Ok tt, st1)
    /\ init b' t' (disk st1) = Some (Ok tt, st2)
    /\ save_database now2 st2 = Some (Ok tt, st3)
    /\ disk st1 = Holds (JObj [("devices", JArr devices); ("next_id", next_id);
                               ("last_updated", JStr now1)])
    /\ disk st3 = Holds (JObj [("devices", JArr devices); ("next_id", next_id);
                               ("last_updated", JStr now2)]).
Proof.
  cbv zeta. do 3 eexists.
  split; [apply save_database_writes |].
  cbn [self disk console mac_database device_counter db_file].
  split; [unfold init; apply load_database_object; reflexivity |].
  split; [apply save_database_writes |].
  split; reflexivity.
Qed.

(** ** C5: a capture that times out *)

(** C5: when the port opens and every turn of the loop before the deadline
    finds nothing waiting or a line without an address, and a turn then
    finds the deadline passed, [collect_mac_from_reset] returns [None]
    after the timeout message; the manager (records and counter) and the
    file are as before. *)
Theorem capture_timeout_leaves_catalog
    (port : string) (env : serial_env) (before after : list tick) (late : tick)
    (st : state) :
  open_error env = None ->
  ticks env = (before ++ late :: after)%list ->
  forallb (fun t => in_time (timeout (self st)) (start_time env) t
                    && no_address (event t)) before = true ->
  in_time (timeout (self st)) (start_time env) late = false ->
  collect_mac_from_reset port env st
  = Some (Ok None,
          mkState (self st) (disk st)
            (console st ++ preamble (self st) port
               ++ flat_map echo_of before ++ [TimeoutWaiting])).
Proof. apply collect_timeout. Qed.

(** A timeout of 30 from the start at 100: the address arrives at 130, too late. *)
Lemma capture_timeout_leaves_catalog_witness :
  let m := mkManager 115200 30 (JArr []) (JInt 1) "esp32_mac_database.json" in
  let before := [mkTick 101 Quiet; mkTick 102 (Line "boot"); mkTick 129 Quiet] in
  let late := mkTick 130 (Line "MAC: 24:6F:28:AA:BB:CC") in
  let env := mkEnv None 100 (before ++ [late]) "2024-01-01T00:00:00"
               "2024-01-01T00:00:01" in
  collect_mac_from_reset "COM3" env (mkState m NoFile [])
  = Some (Ok None,
          mkState m NoFile
            [Banner (JInt 1); OpeningPort "COM3"; PressReset; Echo "boot";
             TimeoutWaiting]).
Proof.
  cbv zeta.
  apply (capture_timeout_leaves_catalog "COM3" _
           [mkTick 101 Quiet; mkTick 102 (Line "boot"); mkTick 129 Quiet] []
           (mkTick 130 (Line "MAC: 24:6F:28:AA:BB:CC"))
           (mkState (mkManager 115200 30 (JArr []) (JInt 1) "esp32_mac_database.json")
              NoFile [])).
  - reflexivity.
  - reflexivity.
  - vm_compute. reflexivity.
  - vm_compute. reflexivity.
Defined.

(** ** C6: a port that does not open, against a timeout *)

(** C6, as stated, fails: with the port busy and with a silent line, the
    caller of [collect_mac_from_reset] gets the same value, [None], and
    finds the same manager and file. *)
Lemma open_failure_returns_like_timeout :
  let st := mkState (mkManager 115200 30 (JArr []) (JInt 1) "esp32_mac_database.json")
              NoFile [] in
  let busy := mkEnv (Some "could not open port") 100 [] "" "" in
  let silent := mkEnv None 100 [mkTick 101 Quiet; mkTick 130 Quiet] "" "" in
  returned (collect_mac_from_reset "COM3" busy st) = Some (Ok None, self st, disk st)
  /\ returned (collect_mac_from_reset "COM3" silent st)
     = returned (collect_mac_from_reset "COM3" busy st).
Proof. cbv zeta. split; vm_compute; reflexivity. Qed.

(** C6, amended: a port that does not open and a capture that times out
    both make [collect_mac_from_reset] return [None] with the manager and
    the file unchanged; they differ in the last line printed for the
    operator, the opening error with its reason against the timeout
    message. *)
Theorem open_failure_and_timeout_differ_on_console
    (port : string) (busy env : serial_env) (msg : string)
    (before after : list tick) (late : tick) (st : state) :
  open_error busy = Some msg ->
  open_error env = None ->
  ticks env = (before ++ late :: after)%list ->
  forallb (fun t => in_time (timeout (self st)) (start_time env) t
                    && no_address (event t)) before = true ->
  in_time (timeout (self st)) (start_time env) late = false ->
  returned (collect_mac_from_reset port busy st) = Some (Ok None, self st, disk st)
  /\ returned (collect_mac_from_reset port env st) = Some (Ok None, self st, disk st)
  /\ last_message (collect_mac_from_reset port busy st) = Some (ErrorOpeningPort msg)
  /\ last_message (collect_mac_from_reset port env st) = Some TimeoutWaiting.
Proof.
  intros Hbusy Hopen Hticks Hquiet Hlate.
  rewrite (collect_open_failure port busy msg st Hbusy).
  rewrite (collect_timeout port env before late after st Hopen Hticks Hquiet Hlate).
  cbn [returned last_message self disk console].
  repeat split.
  - rewrite List.app_assoc, map_app. apply List.last_last.
  - rewrite !List.app_assoc, map_app. apply List.last_last.
Qed.

(** A busy port against a silent line. *)
Lemma open_failure_and_timeout_differ_on_console_witness :
  let st := mkState (mkManager 115200 30 (JArr []) (JInt 1) "esp32_mac_database.json")
              NoFile [] in
  let busy := mkEnv (Some "could not open port") 100 [] "" "" in
  let silent := mkEnv None 100 [mkTick 101 Quiet; mkTick 130 Quiet] "" "" in
  last_message (collect_mac_from_reset "COM3" busy st)
  = Some (ErrorOpeningPort "could not open port")
  /\ last_message (collect_mac_from_reset "COM3" silent st) = Some TimeoutWaiting.
Proof.
  cbv zeta.
  apply (open_failure_and_timeout_differ_on_console "COM3"
           (mkEnv (Some "could not open port") 100 [] "" "")
           (mkEnv None 100 [mkTick 101 Quiet; mkTick 130 Quiet] "" "")
           "could not open port" [mkTick 101 Quiet] [] (mkTick 130 Quiet)
           (mkState (mkManager 115200 30 (JArr []) (JInt 1) "esp32_mac_database.json")
              NoFile [])).
  - reflexivity.
  - reflexivity.
  - reflexivity.
  - vm_compute. reflexivity.
  - vm_compute. reflexivity.
Defined.

(** ** C9: a catalog file that is absent or malformed *)

(** C9: over a file that [json.load] cannot parse, [load_database] raises
    (the manager and the file stay as they were, and no process gets past
    its start); without a file, the new manager has no record and the
    counter 1. *)
Theorem load_malformed_is_fatal_absent_is_empty (b t : Z) :
  (forall m con,
     load_database (mkState m Unparsable con)
     = Some (Raise JSONDecodeError, mkState m Unparsable con))
  /\ (forall m con, relaunch b t (mkState m Unparsable con) = None)
  /\ init b t NoFile
     = Some (Ok tt,
             mkState (mkManager b t (JArr []) (JInt 1) "esp32_mac_database.json")
               NoFile []).
Proof. repeat split. Qed.

(** ** C10: a catalog file without one of its keys *)

(** C10, as stated, fails: the object [{"devices": 5}] has no [next_id], and
    [load_database] raises [TypeError] on it, at [len] in its last line. *)
Lemma load_object_without_next_id_can_raise :
  let members := [("devices", JInt 5)] in
  lookup "next_id" members = None
  /\ returned (init 115200 30 (Holds (JObj members)))
     = Some (Raise TypeError,
             mkManager 115200 30 (JInt 5) (JInt 1) "esp32_mac_database.json",
             Holds (JObj members)).
Proof. cbv zeta. split; vm_compute; reflexivity. Qed.

(** C10, amended: if the file parses as a JSON object whose [devices] entry,
    when there is one, is an array (or another value with a length), then
    [load_database] succeeds; a missing [next_id] makes the counter 1, a
    missing [devices] makes the list empty, an entry that is there is taken
    as it is, and the file is left alone. *)
Theorem load_defaults_for_missing_keys
    (m : manager) (con : list message) (members : list (string * json)) :
  devices_sized members = true ->
  exists st',
    load_database (mkState m (Holds (JObj members)) con) = Some (Ok tt, st')
    /\ disk st' = Holds (JObj members)
    /\ (lookup "next_id" members = None -> device_counter (self st') = JInt 1)
    /\ (lookup "devices" members = None -> mac_database (self st') = JArr [])
    /\ (forall v, lookup "next_id" members = Some v -> device_counter (self st') = v)
    /\ (forall v, lookup "devices" members = Some v -> mac_database (self st') = v).
Proof.
  unfold devices_sized. intros Hsized.
  assert (Hlen : exists n,
            py_len match lookup "devices" members with
                   | Some v => v
                   | None => JArr []
                   end = Ok n).
  { destruct (lookup "devices" members) as [v |]; [| eexists; reflexivity].
    destruct v; try discriminate Hsized; eexists; reflexivity. }
  destruct Hlen as [n Hlen].
  eexists. split; [apply (load_database_object m con members n Hlen) |].
  cbn [self disk mac_database device_counter].
  repeat split.
  - intros ->. reflexivity.
  - intros ->. reflexivity.
  - intros v ->. reflexivity.
  - intros v ->. reflexivity.
Qed.

(** An object with neither key. *)
Lemma load_defaults_for_missing_keys_witness :
  let m := mkManager 115200 30 (JArr []) (JInt 1) "esp32_mac_database.json" in
  exists st',
    load_database (mkState m (Holds (JObj [("last_updated", JStr "never")])) [])
    = Some (Ok tt, st')
    /\ device_counter (self st') = JInt 1
    /\ mac_database (self st') = JArr [].
Proof.
  cbv zeta.
  destruct (load_defaults_for_missing_keys
              (mkManager 115200 30 (JArr []) (JInt 1) "esp32_mac_database.json") []
              [("last_updated", JStr "never")] eq_refl)
    as (st' & Hload & _ & Hnext & Hdevices & _).
  exists st'. split; [exact Hload |]. split; [apply Hnext | apply Hdevices]; reflexivity.
Defined.

(** * Further properties *)

(** ** Strings, continued *)

Lemma substring_prefix m rest :
  substring 0 (String.length m) (m ++ rest) = m.
Proof.
  induction m as [| c m IH]; cbn [String.length append].
  - destruct rest; reflexivity.
  - cbn [substring]. rewrite IH. reflexivity.
Qed.

Lemma rev_app (a b : string) : PyStr.rev (a ++ b) = PyStr.rev b ++ PyStr.rev a.
Proof.
  induction a as [| c a IH]; cbn [append].
  - rewrite string_app_nil_r. reflexivity.
  - rewrite !rev_cons, IH, string_app_assoc. reflexivity.
Qed.

Lemma upper_app (a b : string) : PyStr.upper (a ++ b) = PyStr.upper a ++ PyStr.upper b.
Proof. induction a as [| c a IH]; cbn [append PyStr.upper]; congruence. Qed.

Lemma map_char_app x y (a b : string) :
  map_char x y (a ++ b) = map_char x y a ++ map_char x y b.
Proof. induction a as [| c a IH]; cbn [append map_char]; congruence. Qed.

(** Replacing one character by one character maps the text. *)
Lemma replace_fuel_map a b s fuel :
  (String.length s <= fuel)%nat ->
  PyStr.replace_fuel fuel (String a "") (String b "") s = map_char a b s.
Proof.
  revert s. induction fuel as [| fuel IH]; intros s H.
  - destruct s; [reflexivity | cbn [String.length] in H; lia].
  - destruct s as [| c s]; [reflexivity |].
    cbn [String.length] in H.
    cbn [PyStr.replace_fuel PyStr.drop_prefix map_char].
    destruct (Ascii.eqb a c); cbn [append]; rewrite IH by lia; reflexivity.
Qed.

Lemma replace_map a b s :
  PyStr.replace (String a "") (String b "") s = map_char a b s.
Proof. apply replace_fuel_map. lia. Qed.

Lemma free_of_app a (x y : string) :
  free_of a (x ++ y) = free_of a x && free_of a y.
Proof. apply string_all_app. Qed.

Lemma drop_prefix_free a old : forall s r,
  PyStr.drop_prefix old s = Some r -> free_of a s = true -> free_of a r = true.
Proof.
  induction old as [| o old IH]; intros s r H Hs; cbn [PyStr.drop_prefix] in H.
  - injection H as <-. exact Hs.
  - destruct s as [| c s]; [discriminate H |].
    destruct (Ascii.eqb o c); [| discriminate H].
    cbn [free_of PyStr.all] in Hs. apply andb_true_iff in Hs as [_ Hs].
    exact (IH _ _ H Hs).
Qed.

(** A text without the first character of [old] has no occurrence of it. *)
Lemma replace_fuel_absent o old new : forall fuel s,
  free_of o s = true ->
  PyStr.replace_fuel fuel (String o old) new s = s.
Proof.
  induction fuel as [| fuel IH]; intros s Hs; [reflexivity |].
  destruct s as [| c s]; [reflexivity |].
  cbn [free_of PyStr.all] in Hs. apply andb_true_iff in Hs as [Hc Hs].
  apply negb_true_iff in Hc.
  cbn [PyStr.replace_fuel PyStr.drop_prefix]. rewrite Hc.
  rewrite (IH s Hs). reflexivity.
Qed.

Lemma replace_absent o old new s :
  free_of o s = true -> PyStr.replace (String o old) new s = s.
Proof. apply replace_fuel_absent. Qed.

(** When only the first character of the text can start an occurrence,
    removing [old] removes it from the front or not at all. *)
Lemma replace_head_only o old c s :
  free_of o s = true ->
  PyStr.replace (String o old) "" (String c s)
  = match PyStr.drop_prefix (String o old) (String c s) with
    | Some r => r
    | None => String c s
    end.
Proof.
  intros Hs. unfold PyStr.replace. cbn [String.length PyStr.replace_fuel].
  destruct (PyStr.drop_prefix (String o old) (String c s)) as [r |] eqn:Hdrop.
  - cbn [append]. apply replace_fuel_absent.
    cbn [PyStr.drop_prefix] in Hdrop. destruct (Ascii.eqb o c); [| discriminate Hdrop].
    exact (drop_prefix_free o old s r Hdrop Hs).
  - rewrite (replace_fuel_absent o old "" _ s Hs). reflexivity.
Qed.

(** ** What [re.search] returns *)

Lemma match_at_found r s m :
  Re.match_at r s = Some m -> exists rest, s = m ++ rest /\ matches r m.
Proof.
  unfold Re.match_at. intros H.
  destruct (Re.run r s Some) as [rest |] eqn:Hrun; [| discriminate H].
  destruct (run_sound r _ _ _ Hrun) as (found & rest' & -> & Hm & Hk).
  injection Hk as ->. injection H as <-.
  rewrite string_length_app, Nat.add_sub, substring_prefix.
  exists rest. split; [reflexivity | exact Hm].
Qed.

(** The text returned is a match of the pattern, and it stands in the line. *)
Lemma search_found r : forall s m,
  Re.search r s = Some m ->
  exists before rest, s = before ++ m ++ rest /\ matches r m.
Proof.
  induction s as [| c s IH]; intros m H; cbn [Re.search] in H.
  - destruct (Re.match_at r "") as [m' |] eqn:Hat; [| discriminate H].
    injection H as ->. destruct (match_at_found _ _ _ Hat) as (rest & E & Hm).
    exists "", rest. auto.
  - destruct (Re.match_at r (String c s)) as [m' |] eqn:Hat.
    + injection H as ->. destruct (match_at_found _ _ _ Hat) as (rest & E & Hm).
      exists "", rest. auto.
    + destruct (IH m H) as (before & rest & -> & Hm).
      exists (String c before), rest. auto.
Qed.

(** ** The shape of a match *)

Lemma bare_mac_address_text m : matches bare_mac m -> address_text m = true.
Proof.
  unfold bare_mac. intros H. invert_matches.
  cbn [append address_text address_groups].
  repeat match goal with
         | H : _ = true |- _ => rewrite H; clear H
         end.
  reflexivity.
Qed.

Lemma labelled_mac_shape found :
  matches labelled_mac found ->
  exists l1 l2 l3 sep seps addr,
    found = String l1 (String l2 (String l3 (String sep (seps ++ addr))))
    /\ Re.one_of "Mm" l1 = true /\ Re.one_of "Aa" l2 = true
    /\ Re.one_of "Cc" l3 = true /\ colon_or_space sep = true
    /\ PyStr.all colon_or_space seps = true
    /\ address_text addr = true.
Proof.
  unfold labelled_mac. intros H.
  repeat match goal with
         | H : matches (Re.Seq (Re.Cls _) _) _ |- _ => inversion H; subst; clear H
         | H : matches (Re.Seq (Re.Plus _) _) _ |- _ => inversion H; subst; clear H
         | H : matches (Re.Cls _) _ |- _ => inversion H; subst; clear H
         | H : matches (Re.Plus _) _ |- _ => inversion H; subst; clear H
         end.
  cbn [append]. do 6 eexists. split; [reflexivity |].
  auto 10 using bare_mac_address_text.
Qed.

(** ** Characters of an address text *)

Lemma hex_not_M c : PyStr.is_hex c = true -> negb (Ascii.eqb "M" c) = true.
Proof. all_chars c. Qed.

Lemma hex_not_m c : PyStr.is_hex c = true -> negb (Ascii.eqb "m" c) = true.
Proof. all_chars c. Qed.

Lemma dash_not_M c : colon_or_dash c = true -> negb (Ascii.eqb "M" c) = true.
Proof. all_chars c. Qed.

Lemma dash_not_m c : colon_or_dash c = true -> negb (Ascii.eqb "m" c) = true.
Proof. all_chars c. Qed.

Lemma space_not_M c : colon_or_space c = true -> negb (Ascii.eqb "M" c) = true.
Proof. all_chars c. Qed.

Lemma space_not_m c : colon_or_space c = true -> negb (Ascii.eqb "m" c) = true.
Proof. all_chars c. Qed.

Lemma hex_not_space c : PyStr.is_hex c = true -> PyStr.isspace c = false.
Proof. all_chars c. Qed.

Lemma hex_not_colon_or_space c : PyStr.is_hex c = true -> colon_or_space c = false.
Proof. all_chars c. Qed.

Lemma hex_canonical c :
  PyStr.is_hex c = true ->
  PyStr.is_upper_hex (PyStr.upper_char (if Ascii.eqb "-" c then ":"%char else c)) = true.
Proof. all_chars c. Qed.

Lemma dash_canonical c :
  colon_or_dash c = true ->
  Ascii.eqb (PyStr.upper_char (if Ascii.eqb "-" c then ":"%char else c)) ":" = true.
Proof. all_chars c. Qed.

(** The seventeen characters of an address text. *)
Lemma address_text_chars addr :
  address_text addr = true ->
  exists a1 a2 s1 b1 b2 s2 c1 c2 s3 d1 d2 s4 e1 e2 s5 f1 f2,
    addr = String a1 (String a2 (String s1 (String b1 (String b2 (String s2
             (String c1 (String c2 (String s3 (String d1 (String d2 (String s4
                (String e1 (String e2 (String s5 (String f1 (String f2
                   ""))))))))))))))))
    /\ Forall (fun c => PyStr.is_hex c = true)
         [a1; a2; b1; b2; c1; c2; d1; d2; e1; e2; f1; f2]
    /\ Forall (fun c => colon_or_dash c = true) [s1; s2; s3; s4; s5].
Proof.
  unfold address_text. intros H.
  do 17 (destruct addr as [| ?c addr];
         [cbn [address_groups] in H; rewrite ?andb_false_r in H; discriminate H |]).
  destruct addr;
    [| cbn [address_groups] in H; rewrite ?andb_false_r in H; discriminate H].
  cbn [address_groups] in H.
  repeat match goal with
         | H : _ && _ = true |- _ => apply andb_true_iff in H as [? ?]
         end.
  do 17 eexists. split; [reflexivity |]. split; repeat constructor; assumption.
Qed.

Ltac address_chars addr H :=
  let Hhex := fresh "Hhex" in
  let Hsep := fresh "Hsep" in
  destruct (address_text_chars addr H)
    as (?a & ?a & ?s & ?b & ?b & ?s & ?c & ?c & ?s & ?d & ?d & ?s & ?e & ?e & ?s
        & ?f & ?f & -> & Hhex & Hsep);
  repeat match goal with
         | H : Forall _ (_ :: _) |- _ => inversion H; subst; clear H
         | H : Forall _ [] |- _ => clear H
         end.

Lemma canonical_of_canonical addr :
  address_text addr = true -> canonical (canonical_of addr) = true.
Proof.
  intros H. address_chars addr H.
  unfold canonical_of. rewrite replace_map.
  cbn [map_char PyStr.upper canonical canonical_groups].
  repeat match goal with
         | H : PyStr.is_hex ?c = true |- _ => rewrite (hex_canonical c H); clear H
         | H : colon_or_dash ?c = true |- _ => rewrite (dash_canonical c H); clear H
         end.
  reflexivity.
Qed.

Lemma address_text_free_M addr : address_text addr = true -> free_of "M" addr = true.
Proof.
  intros H. address_chars addr H. cbn [free_of PyStr.all].
  repeat match goal with
         | H : PyStr.is_hex ?c = true |- _ => rewrite (hex_not_M c H); clear H
         | H : colon_or_dash ?c = true |- _ => rewrite (dash_not_M c H); clear H
         end.
  reflexivity.
Qed.

Lemma address_text_free_m addr : address_text addr = true -> free_of "m" addr = true.
Proof.
  intros H. address_chars addr H. cbn [free_of PyStr.all].
  repeat match goal with
         | H : PyStr.is_hex ?c = true |- _ => rewrite (hex_not_m c H); clear H
         | H : colon_or_dash ?c = true |- _ => rewrite (dash_not_m c H); clear H
         end.
  reflexivity.
Qed.

(** ** What [normalize_mac] makes of a match *)

Lemma dash_not_space c : colon_or_dash c = true -> PyStr.isspace c = false.
Proof. all_chars c. Qed.

Lemma address_text_no_space addr :
  address_text addr = true ->
  PyStr.all (fun c => negb (PyStr.isspace c)) addr = true.
Proof.
  intros H. address_chars addr H. cbn [PyStr.all].
  repeat match goal with
         | H : PyStr.is_hex ?c = true |- _ => rewrite (hex_not_space c H); clear H
         | H : colon_or_dash ?c = true |- _ => rewrite (dash_not_space c H); clear H
         end.
  reflexivity.
Qed.

(** A bare match is turned into the canonical form of its address. *)
Lemma normalize_bare addr :
  address_text addr = true -> normalize_mac addr = canonical_of addr.
Proof.
  intros H. unfold normalize_mac, PyStr.strip.
  rewrite (replace_absent "M" "AC:") by (apply address_text_free_M, H).
  rewrite (replace_absent "M" "ac:") by (apply address_text_free_M, H).
  rewrite (replace_absent "m" "ac:") by (apply address_text_free_m, H).
  rewrite strip_by_none by (apply address_text_no_space, H).
  reflexivity.
Qed.

Lemma lstrip_by_app p s : forall y,
  PyStr.lstrip_by p s = s -> exists y', PyStr.lstrip_by p (y ++ s) = y' ++ s.
Proof.
  induction y as [| c y IH]; intros Hs; cbn [append].
  - exists "". exact Hs.
  - cbn [PyStr.lstrip_by]. destruct (p c).
    + exact (IH Hs).
    + exists (String c y). reflexivity.
Qed.

(** [strip] takes nothing away from an address text at the end of a text. *)
Lemma strip_keeps_address y addr :
  address_text addr = true -> exists y', PyStr.strip (y ++ addr) = y' ++ addr.
Proof.
  intros H. pose proof (address_text_no_space addr H) as Hns.
  destruct (lstrip_by_app PyStr.isspace addr y (lstrip_by_none _ _ Hns)) as [y' Hy].
  exists y'. unfold PyStr.strip, PyStr.strip_by. rewrite Hy, rev_app.
  assert (Hrev : PyStr.lstrip_by PyStr.isspace (PyStr.rev addr ++ PyStr.rev y')
                 = PyStr.rev addr ++ PyStr.rev y').
  { clear Hy. address_chars addr H.
    cbn [PyStr.rev PyStr.rev_acc append PyStr.lstrip_by].
    match goal with
    | Hc : PyStr.is_hex ?c = true |- context [if PyStr.isspace ?c then _ else _] =>
        rewrite (hex_not_space c Hc)
    end.
    reflexivity. }
  rewrite Hrev, rev_app, !string_rev_involutive. reflexivity.
Qed.

Lemma drop_prefix_app old : forall s r,
  PyStr.drop_prefix old s = Some r -> s = old ++ r.
Proof.
  induction old as [| o old IH]; intros s r H; cbn [PyStr.drop_prefix] in H.
  - injection H as <-. reflexivity.
  - destruct s as [| c s]; [discriminate H |].
    destruct (Ascii.eqb_spec o c) as [<- | _]; [| discriminate H].
    cbn [append]. rewrite (IH _ _ H). reflexivity.
Qed.

Section Labelled.

Variables (l1 l2 l3 sep : ascii) (seps addr : string).

Let tail := String l2 (String l3 (String sep (seps ++ addr))).
Let found := String l1 tail.

Hypothesis Hl2 : Re.one_of "Aa" l2 = true.
Hypothesis Hl3 : Re.one_of "Cc" l3 = true.
Hypothesis Hsep : colon_or_space sep = true.
Hypothesis Hseps : PyStr.all colon_or_space seps = true.
Hypothesis Haddr : address_text addr = true.

Lemma label_rest_free_M : free_of "M" (seps ++ addr) = true.
Proof.
  rewrite free_of_app, (address_text_free_M addr Haddr), andb_true_r.
  exact (all_impl _ _ seps space_not_M Hseps).
Qed.

Lemma label_rest_free_m : free_of "m" (seps ++ addr) = true.
Proof.
  rewrite free_of_app, (address_text_free_m addr Haddr), andb_true_r.
  exact (all_impl _ _ seps space_not_m Hseps).
Qed.

Lemma label_tail_free_M : free_of "M" tail = true.
Proof.
  unfold tail. cbn [free_of PyStr.all]. fold (free_of "M" (seps ++ addr)).
  rewrite label_rest_free_M, (space_not_M sep Hsep).
  clear - Hl2 Hl3. revert Hl2 Hl3. all_chars l2; all_chars l3.
Qed.

Lemma label_tail_free_m : free_of "m" tail = true.
Proof.
  unfold tail. cbn [free_of PyStr.all]. fold (free_of "m" (seps ++ addr)).
  rewrite label_rest_free_m, (space_not_m sep Hsep).
  clear - Hl2 Hl3. revert Hl2 Hl3. all_chars l2; all_chars l3.
Qed.

(** One of the three [replace]s leaves the match as it is or takes its
    first four characters. *)
Lemma remove_label_step o o2 o3 o4 x :
  free_of o tail = true -> free_of o (seps ++ addr) = true ->
  x = found \/ x = seps ++ addr ->
  PyStr.replace (String o (String o2 (String o3 (String o4 "")))) "" x = found
  \/ PyStr.replace (String o (String o2 (String o3 (String o4 "")))) "" x
     = seps ++ addr.
Proof.
  intros Htail Hrest [-> | ->].
  - unfold found. rewrite (replace_head_only o _ l1 tail Htail).
    destruct (PyStr.drop_prefix _ (String l1 tail)) as [r |] eqn:Hdrop;
      [| left; reflexivity].
    right. apply drop_prefix_app in Hdrop. unfold tail in Hdrop.
    cbn [append] in Hdrop. congruence.
  - right. apply replace_absent, Hrest.
Qed.

(** A labelled match is turned into the canonical form of its address,
    after whatever is left of the label. *)
Lemma normalize_labelled :
  exists residue, normalize_mac found = residue ++ canonical_of addr.
Proof.
  unfold normalize_mac.
  assert (H1 := remove_label_step "M" "A" "C" ":" found
                  label_tail_free_M label_rest_free_M (or_introl eq_refl)).
  assert (H2 := remove_label_step "M" "a" "c" ":" _
                  label_tail_free_M label_rest_free_M H1).
  assert (H3 := remove_label_step "m" "a" "c" ":" _
                  label_tail_free_m label_rest_free_m H2).
  match type of H3 with
  | ?x = _ \/ _ => set (text := x) in *
  end.
  assert (Hy : exists y, text = y ++ addr).
  { destruct H3 as [-> | ->].
    - exists (String l1 (String l2 (String l3 (String sep seps)))). reflexivity.
    - exists seps. reflexivity. }
  destruct Hy as [y ->].
  destruct (strip_keeps_address y addr Haddr) as [y' ->].
  exists (PyStr.upper (map_char "-" ":" y')).
  unfold canonical_of. rewrite !replace_map, map_char_app, upper_app. reflexivity.
Qed.

End Labelled.

(** ** The matcher misses no match *)

Lemma star_complete p k rest x : forall m,
  PyStr.all p m = true -> k rest = Some x ->
  exists y, Re.star p (m ++ rest) k = Some y.
Proof.
  induction m as [| c m IH]; intros Hm Hk; cbn [append].
  - destruct rest as [| c rest]; cbn [Re.star]; [eauto |].
    destruct (p c); [| eauto].
    destruct (Re.star p rest k); eauto.
  - cbn [PyStr.all] in Hm. apply andb_true_iff in Hm as [Hc Hm].
    cbn [Re.star]. rewrite Hc.
    destruct (IH Hm Hk) as [y ->]. eauto.
Qed.

(** Whenever the text starts with a match of [r] after which the rest of the
    pattern succeeds, the matcher succeeds (on that match or on one it
    prefers). *)
Lemma run_complete r m :
  matches r m ->
  forall rest k x, k rest = Some x -> exists y, Re.run r (m ++ rest) k = Some y.
Proof.
  induction 1 as [p c Hc | p c m Hc Hm | r1 r2 m1 m2 _ IH1 _ IH2 | r
                  | n r m1 m2 _ IH1 _ IH2]; intros rest k x Hk.
  - cbn [append Re.run]. rewrite Hc. eauto.
  - cbn [append Re.run]. rewrite Hc. exact (star_complete p k rest x m Hm Hk).
  - rewrite string_app_assoc. cbn [Re.run].
    destruct (IH2 rest k x Hk) as [y Hy].
    exact (IH1 (m2 ++ rest) _ y Hy).
  - cbn [append Re.run]. eauto.
  - rewrite string_app_assoc.
    destruct (IH2 rest k x Hk) as [y Hy].
    change (Re.run (Re.Rep (S n) r) (m1 ++ m2 ++ rest) k)
      with (Re.run r (m1 ++ m2 ++ rest) (fun s' => Re.run (Re.Rep n r) s' k)).
    exact (IH1 (m2 ++ rest) _ y Hy).
Qed.

Lemma search_complete r m after : forall before,
  matches r m -> exists found, Re.search r (before ++ m ++ after) = Some found.
Proof.
  intros before Hm.
  assert (Hat : exists found, Re.match_at r (m ++ after) = Some found).
  { unfold Re.match_at.
    destruct (run_complete r m Hm after Some after eq_refl) as [y ->]. eauto. }
  induction before as [| c before IH]; cbn [append].
  - destruct Hat as [found Hat].
    destruct (m ++ after); cbn [Re.search]; rewrite Hat; eauto.
  - cbn [Re.search]. destruct (Re.match_at r (String c (before ++ m ++ after))); eauto.
Qed.

Lemma pair_matches a b :
  PyStr.is_hex a = true -> PyStr.is_hex b = true ->
  matches (Re.Rep 2 (Re.Cls PyStr.is_hex)) (String a (String b "")).
Proof.
  intros Ha Hb.
  change (String a (String b "")) with (String a "" ++ (String b "" ++ "")).
  auto using matches_rep_S, matches_rep_0, matches_cls.
Qed.

Lemma group_matches a b c n rest :
  PyStr.is_hex a = true -> PyStr.is_hex b = true -> colon_or_dash c = true ->
  matches (Re.Rep n (Re.Seq (Re.Rep 2 (Re.Cls PyStr.is_hex)) (Re.Cls colon_or_dash)))
    rest ->
  matches (Re.Rep (S n) (Re.Seq (Re.Rep 2 (Re.Cls PyStr.is_hex)) (Re.Cls colon_or_dash)))
    (String a (String b (String c rest))).
Proof.
  intros Ha Hb Hc Hrest.
  change (String a (String b (String c rest)))
    with ((String a (String b "") ++ String c "") ++ rest).
  auto using matches_rep_S, matches_seq, matches_cls, pair_matches.
Qed.

Lemma address_text_matches addr : address_text addr = true -> matches bare_mac addr.
Proof.
  intros H. address_chars addr H. unfold bare_mac.
  match goal with
  | |- matches _ (String ?a1 (String ?a2 (String ?s1 (String ?b1 (String ?b2 (String ?s2
         (String ?c1 (String ?c2 (String ?s3 (String ?d1 (String ?d2 (String ?s4
            (String ?e1 (String ?e2 (String ?s5 ?last))))))))))))))) =>
      change (String a1 (String a2 (String s1 (String b1 (String b2 (String s2
               (String c1 (String c2 (String s3 (String d1 (String d2 (String s4
                  (String e1 (String e2 (String s5 last)))))))))))))))
        with (String a1 (String a2 (String s1 (String b1 (String b2 (String s2
               (String c1 (String c2 (String s3 (String d1 (String d2 (String s4
                  (String e1 (String e2 (String s5 ""))))))))))))))
              ++ last)
  end.
  apply matches_seq; [| apply pair_matches; assumption].
  repeat (apply group_matches; [assumption .. |]).
  apply matches_rep_0.
Qed.

(** ** [parse_mac_from_boot_message]: what it finds and what it returns *)

Lemma not_label_start c :
  negb (Ascii.eqb "M" c) = true -> negb (Ascii.eqb "m" c) = true ->
  Re.one_of "Mm" c = false.
Proof. all_chars c. Qed.

Lemma match_at_labelled_no_start c s :
  Re.one_of "Mm" c = false -> Re.match_at labelled_mac (String c s) = None.
Proof.
  intros Hc. unfold Re.match_at, labelled_mac. cbn [Re.run]. rewrite Hc. reflexivity.
Qed.

(** The labelled pattern cannot start in a text without the letter m. *)
Lemma search_labelled_skip before : forall s,
  no_label before = true ->
  Re.search labelled_mac (before ++ s) = Re.search labelled_mac s.
Proof.
  induction before as [| c before IH]; intros s H; [reflexivity |].
  unfold no_label in H. cbn [free_of PyStr.all] in H.
  apply andb_true_iff in H as [HM Hm].
  apply andb_true_iff in HM as [HcM HM]. apply andb_true_iff in Hm as [Hcm Hm].
  cbn [append Re.search].
  rewrite (match_at_labelled_no_start c _ (not_label_start c HcM Hcm)).
  apply IH. unfold no_label, free_of. rewrite HM, Hm. reflexivity.
Qed.

Lemma search_labelled_none line :
  no_label line = true -> Re.search labelled_mac line = None.
Proof.
  intros H. rewrite <- (string_app_nil_r line).
  rewrite (search_labelled_skip line "" H). reflexivity.
Qed.

Lemma parse_result_shape (line s : string) :
  parse_mac_from_boot_message line = Some s ->
  exists before addr after residue,
    line = before ++ addr ++ after
    /\ address_text addr = true
    /\ s = residue ++ canonical_of addr
    /\ canonical (canonical_of addr) = true.
Proof.
  unfold parse_mac_from_boot_message, mac_patterns. cbn [first_match]. intros H.
  destruct (Re.search labelled_mac line) as [found |] eqn:Hlabelled.
  - injection H as <-.
    destruct (search_found _ _ _ Hlabelled) as (before & rest & -> & Hm).
    destruct (labelled_mac_shape found Hm)
      as (l1 & l2 & l3 & sep & seps & addr & -> & _ & Hl2 & Hl3 & Hsep & Hseps & Haddr).
    destruct (normalize_labelled l1 l2 l3 sep seps addr Hl2 Hl3 Hsep Hseps Haddr)
      as [residue Hnorm].
    exists (before ++ String l1 (String l2 (String l3 (String sep seps)))),
      addr, rest, residue.
    repeat split; auto using canonical_of_canonical.
    rewrite !string_app_assoc. cbn [append]. rewrite !string_app_assoc. reflexivity.
  - destruct (Re.search bare_mac line) as [found |] eqn:Hbare; [| discriminate H].
    injection H as <-.
    destruct (search_found _ _ _ Hbare) as (before & rest & -> & Hm).
    pose proof (bare_mac_address_text found Hm) as Haddr.
    exists before, found, rest, "".
    repeat split; auto using canonical_of_canonical, normalize_bare.
Qed.

(** Whatever [parse_mac_from_boot_message] returns ends in the canonical
    form of an address text that stands in the line; what comes before it
    is what [normalize_mac] left of a label. *)
Theorem parse_mac_result_ends_in_address (line s : string) :
  parse_mac_from_boot_message line = Some s ->
  exists before addr after residue,
    line = before ++ addr ++ after
    /\ address_text addr = true
    /\ s = residue ++ canonical_of addr
    /\ canonical (canonical_of addr) = true.
Proof.
  intros H.
  destruct (parse_result_shape line s H)
    as (before & addr & after & residue & Hline & Haddr & Hs & Hcanon).
  exists before, addr, after, residue. auto.
Qed.

(** The labelled line of the specification: the address is AA:BB:CC:DD:EE:FF
    and nothing is left of the label. *)
Lemma parse_mac_result_ends_in_address_witness :
  exists before addr after residue,
    "MAC: aa-bb-cc-dd-ee-ff" = before ++ addr ++ after
    /\ address_text addr = true
    /\ "AA:BB:CC:DD:EE:FF" = residue ++ canonical_of addr
    /\ canonical (canonical_of addr) = true.
Proof.
  apply (parse_mac_result_ends_in_address "MAC: aa-bb-cc-dd-ee-ff" "AA:BB:CC:DD:EE:FF").
  vm_compute. reflexivity.
Defined.

(** A line that holds six hex pairs joined by colons or hyphens, anywhere,
    always gets a result: [parse_mac_from_boot_message] returns [None] only
    for lines without an address text. *)
Theorem parse_mac_finds_every_address (line before addr after : string) :
  line = before ++ addr ++ after ->
  address_text addr = true ->
  exists s, parse_mac_from_boot_message line = Some s.
Proof.
  intros -> Haddr.
  unfold parse_mac_from_boot_message, mac_patterns. cbn [first_match].
  destruct (Re.search labelled_mac _); [eauto |].
  destruct (search_complete bare_mac addr after before (address_text_matches addr Haddr))
    as [found ->].
  eauto.
Qed.

Lemma parse_mac_finds_every_address_witness :
  exists s, parse_mac_from_boot_message "wifi sta 24-6f-28-aa-bb-cc up" = Some s.
Proof.
  apply (parse_mac_finds_every_address _ "wifi sta " "24-6f-28-aa-bb-cc" " up");
    reflexivity.
Defined.

(** In a line without the letter m, nothing can be taken for a label, and
    the result is an address in canonical form: six colon-separated pairs
    of upper-case hex digits. *)
Theorem parse_mac_unlabelled_is_canonical (line s : string) :
  no_label line = true ->
  parse_mac_from_boot_message line = Some s ->
  canonical s = true.
Proof.
  intros Hfree. unfold parse_mac_from_boot_message, mac_patterns. cbn [first_match].
  rewrite (search_labelled_none line Hfree).
  destruct (Re.search bare_mac line) as [found |] eqn:Hbare; [| discriminate].
  intros H. injection H as <-.
  destruct (search_found _ _ _ Hbare) as (before & rest & _ & Hm).
  pose proof (bare_mac_address_text found Hm) as Haddr.
  rewrite (normalize_bare found Haddr). apply canonical_of_canonical, Haddr.
Qed.

Lemma parse_mac_unlabelled_is_canonical_witness :
  canonical "24:6F:28:AA:BB:CC" = true.
Proof.
  apply (parse_mac_unlabelled_is_canonical "wifi sta 24-6f-28-aa-bb-cc up").
  - vm_compute. reflexivity.
  - vm_compute. reflexivity.
Defined.

(** ** A line with one of the three labels *)

Lemma run_bare_address addr rest k :
  address_text addr = true -> Re.run bare_mac (addr ++ rest) k = k rest.
Proof.
  intros H. address_chars addr H. unfold bare_mac. cbn [append Re.run].
  repeat match goal with
         | H : PyStr.is_hex ?c = true |- _ => rewrite H; clear H
         | H : colon_or_dash ?c = true |- _ => rewrite H; clear H
         end.
  reflexivity.
Qed.

Lemma star_skip p k s x : forall ws,
  PyStr.all p ws = true -> Re.star p s k = Some x ->
  Re.star p (ws ++ s) k = Some x.
Proof.
  induction ws as [| c ws IH]; intros Hws Hs; [exact Hs |].
  cbn [PyStr.all] in Hws. apply andb_true_iff in Hws as [Hc Hws].
  cbn [append Re.star]. rewrite Hc, (IH Hws Hs). reflexivity.
Qed.

Lemma star_stops_at_address addr rest k :
  address_text addr = true ->
  Re.star colon_or_space (addr ++ rest) k = k (addr ++ rest).
Proof.
  intros H. address_chars addr H. cbn [append Re.star].
  match goal with
  | Hc : PyStr.is_hex ?c = true |- context [colon_or_space ?c] =>
      rewrite (hex_not_colon_or_space c Hc)
  end.
  reflexivity.
Qed.

Lemma space_is_colon_or_space c : PyStr.isspace c = true -> colon_or_space c = true.
Proof. unfold colon_or_space. intros ->. apply orb_true_r. Qed.

Lemma removed_label_cases label :
  removed_label label = true -> label = "MAC:" \/ label = "Mac:" \/ label = "mac:".
Proof.
  unfold removed_label. intros H.
  apply orb_true_iff in H as [H | H]; [apply orb_true_iff in H as [H | H] |];
    apply String.eqb_eq in H; auto.
Qed.

(** The labelled pattern at a label, white space and an address text takes
    exactly these. *)
Lemma match_at_label label ws addr after :
  removed_label label = true ->
  PyStr.all PyStr.isspace ws = true ->
  address_text addr = true ->
  Re.match_at labelled_mac (label ++ ws ++ addr ++ after)
  = Some (label ++ ws ++ addr).
Proof.
  intros Hlabel Hws Haddr.
  assert (Hrun : Re.run labelled_mac (label ++ ws ++ addr ++ after) Some = Some after).
  { assert (Hstar : Re.star colon_or_space (ws ++ addr ++ after)
                      (fun s' => Re.run bare_mac s' Some) = Some after).
    { apply star_skip.
      - exact (all_impl _ _ ws space_is_colon_or_space Hws).
      - rewrite star_stops_at_address by exact Haddr.
        apply run_bare_address, Haddr. }
    destruct (removed_label_cases label Hlabel) as [-> | [-> | ->]];
      unfold labelled_mac; cbn [append Re.run];
      repeat match goal with
             | |- context [if ?b then _ else _] =>
                 lazymatch b with
                 | Re.one_of _ _ => change b with true
                 | colon_or_space ":" => change b with true
                 end; cbv iota
             end;
      exact Hstar. }
  unfold Re.match_at. rewrite Hrun.
  replace (label ++ ws ++ addr ++ after) with ((label ++ ws ++ addr) ++ after)
    by (rewrite !string_app_assoc; reflexivity).
  rewrite string_length_app, Nat.add_sub, substring_prefix. reflexivity.
Qed.

Lemma strip_leading_space ws addr :
  PyStr.all PyStr.isspace ws = true -> address_text addr = true ->
  PyStr.strip (ws ++ addr) = addr.
Proof.
  intros Hws Haddr. pose proof (address_text_no_space addr Haddr) as Hns.
  assert (Hl : PyStr.lstrip_by PyStr.isspace (ws ++ addr) = addr).
  { induction ws as [| c ws IH]; cbn [append].
    - apply lstrip_by_none, Hns.
    - cbn [PyStr.all] in Hws. apply andb_true_iff in Hws as [Hc Hws].
      cbn [PyStr.lstrip_by]. rewrite Hc. exact (IH Hws). }
  unfold PyStr.strip, PyStr.strip_by. rewrite Hl.
  rewrite lstrip_by_none by (rewrite all_rev; exact Hns).
  apply string_rev_involutive.
Qed.

Lemma normalize_exact_label label ws addr :
  removed_label label = true ->
  PyStr.all PyStr.isspace ws = true ->
  address_text addr = true ->
  normalize_mac (label ++ ws ++ addr) = canonical_of addr.
Proof.
  intros Hlabel Hws Haddr.
  pose proof (all_impl _ _ ws space_is_colon_or_space Hws) as Hseps.
  assert (HM : free_of "M" (ws ++ addr) = true)
    by (rewrite free_of_app, (address_text_free_M addr Haddr), andb_true_r;
        exact (all_impl _ _ ws space_not_M Hseps)).
  assert (Hm : free_of "m" (ws ++ addr) = true)
    by (rewrite free_of_app, (address_text_free_m addr Haddr), andb_true_r;
        exact (all_impl _ _ ws space_not_m Hseps)).
  assert (Hrest : forall a c,
            free_of "M" (String a (String c (String ":" (ws ++ addr)))) = 
            (negb (Ascii.eqb "M" a) && (negb (Ascii.eqb "M" c) && true))
          /\ free_of "m" (String a (String c (String ":" (ws ++ addr)))) =
            (negb (Ascii.eqb "m" a) && (negb (Ascii.eqb "m" c) && true))).
  { intros a c. cbn [free_of PyStr.all].
    fold (free_of "M" (ws ++ addr)). fold (free_of "m" (ws ++ addr)).
    rewrite HM, Hm. split; reflexivity. }
  unfold normalize_mac.
  destruct (removed_label_cases label Hlabel) as [-> | [-> | ->]]; cbn [append].
  - rewrite (replace_head_only "M" "AC:") by (rewrite (proj1 (Hrest _ _)); reflexivity).
    change (PyStr.drop_prefix "MAC:" (String "M" (String "A" (String "C" (String ":" (ws ++ addr))))))
      with (Some (ws ++ addr)).
    cbv iota.
    rewrite (replace_absent "M" "ac:") by exact HM.
    rewrite (replace_absent "m" "ac:") by exact Hm.
    rewrite (strip_leading_space ws addr Hws Haddr). reflexivity.
  - rewrite (replace_head_only "M" "AC:") by (rewrite (proj1 (Hrest _ _)); reflexivity).
    change (PyStr.drop_prefix "MAC:" (String "M" (String "a" (String "c" (String ":" (ws ++ addr))))))
      with (@None string).
    cbv iota.
    rewrite (replace_head_only "M" "ac:") by (rewrite (proj1 (Hrest _ _)); reflexivity).
    change (PyStr.drop_prefix "Mac:" (String "M" (String "a" (String "c" (String ":" (ws ++ addr))))))
      with (Some (ws ++ addr)).
    cbv iota.
    rewrite (replace_absent "m" "ac:") by exact Hm.
    rewrite (strip_leading_space ws addr Hws Haddr). reflexivity.
  - rewrite (replace_head_only "M" "AC:") by (rewrite (proj1 (Hrest _ _)); reflexivity).
    change (PyStr.drop_prefix "MAC:" (String "m" (String "a" (String "c" (String ":" (ws ++ addr))))))
      with (@None string).
    cbv iota.
    rewrite (replace_head_only "M" "ac:") by (rewrite (proj1 (Hrest _ _)); reflexivity).
    change (PyStr.drop_prefix "Mac:" (String "m" (String "a" (String "c" (String ":" (ws ++ addr))))))
      with (@None string).
    cbv iota.
    rewrite (replace_head_only "m" "ac:") by (rewrite (proj2 (Hrest _ _)); reflexivity).
    change (PyStr.drop_prefix "mac:" (String "m" (String "a" (String "c" (String ":" (ws ++ addr))))))
      with (Some (ws ++ addr)).
    cbv iota.
    rewrite (strip_leading_space ws addr Hws Haddr). reflexivity.
Qed.

(** A line whose first letter m starts one of the labels MAC:, Mac: or mac:,
    followed by white space (or none) and six hex pairs joined by colons or
    hyphens, gives that address in canonical form, whatever stands before
    the label and after the address. *)
Theorem parse_mac_reads_labelled_address (before label ws addr after : string) :
  no_label before = true ->
  removed_label label = true ->
  PyStr.all PyStr.isspace ws = true ->
  address_text addr = true ->
  parse_mac_from_boot_message (before ++ label ++ ws ++ addr ++ after)
  = Some (canonical_of addr)
  /\ canonical (canonical_of addr) = true.
Proof.
  intros Hbefore Hlabel Hws Haddr. split; [| apply canonical_of_canonical, Haddr].
  unfold parse_mac_from_boot_message, mac_patterns. cbn [first_match].
  rewrite (search_labelled_skip before _ Hbefore).
  pose proof (match_at_label label ws addr after Hlabel Hws Haddr) as Hat.
  destruct (removed_label_cases label Hlabel) as [-> | [-> | ->]];
    cbn [append] in Hat |- *; cbn [Re.search]; rewrite Hat;
    rewrite <- (normalize_exact_label _ ws addr Hlabel Hws Haddr); reflexivity.
Qed.

Lemma parse_mac_reads_labelled_address_witness :
  parse_mac_from_boot_message "I (52) boot: MAC: 24-6f-28-aa-bb-cc, rev 3"
  = Some "24:6F:28:AA:BB:CC"
  /\ canonical "24:6F:28:AA:BB:CC" = true.
Proof.
  apply (parse_mac_reads_labelled_address "I (52) boot: " "MAC:" " "
           "24-6f-28-aa-bb-cc" ", rev 3"); reflexivity.
Defined.

(** ** [increment_mac] on canonical texts *)

Lemma upper_hex_digit c :
  PyStr.is_upper_hex c = true ->
  exists d, 0 <= d < 16 /\ c = PyStr.hex_digit_upper d.
Proof.
  destruct c as [[] [] [] [] [] [] [] []]; vm_compute; try discriminate; intros _;
    first [ exists 0; vm_compute; intuition congruence
          | exists 1; vm_compute; intuition congruence
          | exists 2; vm_compute; intuition congruence
          | exists 3; vm_compute; intuition congruence
          | exists 4; vm_compute; intuition congruence
          | exists 5; vm_compute; intuition congruence
          | exists 6; vm_compute; intuition congruence
          | exists 7; vm_compute; intuition congruence
          | exists 8; vm_compute; intuition congruence
          | exists 9; vm_compute; intuition congruence
          | exists 10; vm_compute; intuition congruence
          | exists 11; vm_compute; intuition congruence
          | exists 12; vm_compute; intuition congruence
          | exists 13; vm_compute; intuition congruence
          | exists 14; vm_compute; intuition congruence
          | exists 15; vm_compute; intuition congruence ].
Qed.

Lemma hex2_of_digits h l :
  0 <= h < 16 -> 0 <= l < 16 ->
  is_byte (16 * h + l) = true
  /\ hex2 (16 * h + l)
     = String (PyStr.hex_digit_upper h) (String (PyStr.hex_digit_upper l) "").
Proof.
  intros Hh Hl. split.
  - unfold is_byte. apply andb_true_iff. split; [apply Z.leb_le | apply Z.ltb_lt]; lia.
  - unfold hex2.
    replace ((16 * h + l) / 16) with h by (Z.div_mod_to_equations; lia).
    replace ((16 * h + l) mod 16) with l by (Z.div_mod_to_equations; lia).
    reflexivity.
Qed.

(** A canonical text is the text of an address. *)
Lemma canonical_shown s :
  canonical s = true -> exists a, valid_address a = true /\ s = show_address a.
Proof.
  unfold canonical. intros H.
  do 17 (destruct s as [| ?c s];
         [cbn [canonical_groups] in H; rewrite ?andb_false_r in H; discriminate H |]).
  destruct s;
    [| cbn [canonical_groups] in H; rewrite ?andb_false_r in H; discriminate H].
  cbn [canonical_groups] in H.
  repeat match goal with
         | H : _ && _ = true |- _ => apply andb_true_iff in H as [? ?]
         end.
  repeat match goal with
         | H : Ascii.eqb _ ":" = true |- _ => apply Ascii.eqb_eq in H; subst
         | H : PyStr.is_upper_hex ?c = true |- _ =>
             let d := fresh "d" in
             destruct (upper_hex_digit c H) as (d & ? & ->); clear H
         end.
  match goal with
  | |- exists a, _ /\
         String (_ ?h1) (String (_ ?l1) (String _ (String (_ ?h2) (String (_ ?l2)
           (String _ (String (_ ?h3) (String (_ ?l3) (String _ (String (_ ?h4)
             (String (_ ?l4) (String _ (String (_ ?h5) (String (_ ?l5) (String _
               (String (_ ?h6) (String (_ ?l6) "")))))))))))))))) = _ =>
      exists [16 * h1 + l1; 16 * h2 + l2; 16 * h3 + l3;
              16 * h4 + l4; 16 * h5 + l5; 16 * h6 + l6]
  end.
  unfold valid_address, show_address. cbn [List.length Nat.eqb forallb map String.concat].
  repeat match goal with
         | |- context [hex2 (16 * ?h + ?l)] =>
             let E := fresh in
             destruct (hex2_of_digits h l ltac:(assumption) ltac:(assumption)) as [E ->];
             rewrite ?E; clear E
         end.
  repeat match goal with
         | |- context [is_byte (16 * ?h + ?l)] =>
             rewrite (proj1 (hex2_of_digits h l ltac:(assumption) ltac:(assumption)))
         end.
  split; reflexivity.
Qed.

(** On a canonical text [increment_mac] does not raise, whatever the
    offset, negative ones and those that overflow included. *)
Theorem increment_mac_accepts_canonical (s : string) (o : Z) :
  canonical s = true -> exists r, increment_mac s o = Ok r.
Proof.
  intros H. destruct (canonical_shown s H) as (a & Ha & ->).
  unfold increment_mac. rewrite (int16_show_address a Ha). cbn [bind]. eauto.
Qed.

Lemma increment_mac_accepts_canonical_witness :
  exists r, increment_mac "00:00:00:00:00:00" (- 5) = Ok r.
Proof. apply (increment_mac_accepts_canonical "00:00:00:00:00:00" (- 5)). reflexivity. Defined.

(** Two increments in a row are one increment by the sum, as long as both
    sums stay 48-bit unsigned integers. *)
Theorem increment_mac_twice (a : list Z) (o1 o2 : Z) :
  valid_address a = true ->
  0 <= be_value a + o1 < 2 ^ 48 ->
  0 <= be_value a + o1 + o2 < 2 ^ 48 ->
  (s <- increment_mac (show_address a) o1 ;; increment_mac s o2)
  = increment_mac (show_address a) (o1 + o2).
Proof.
  intros Ha H1 H2.
  rewrite (increment_mac_in_range a o1 Ha H1). cbn [bind].
  rewrite increment_mac_in_range;
    [| apply valid_to_bytes6 | rewrite be_value_to_bytes6 by exact H1; exact H2].
  rewrite be_value_to_bytes6 by exact H1.
  rewrite (increment_mac_in_range a (o1 + o2) Ha) by lia.
  rewrite Z.add_assoc. reflexivity.
Qed.

Lemma increment_mac_twice_witness :
  (s <- increment_mac "24:6F:28:AA:BB:FF" 1 ;; increment_mac s 2)
  = increment_mac "24:6F:28:AA:BB:FF" 3.
Proof.
  apply (increment_mac_twice [36; 111; 40; 170; 187; 255] 1 2).
  - reflexivity.
  - cbv [be_value fold_left]. lia.
  - cbv [be_value fold_left]. lia.
Defined.

(** ** The capture, continued *)

Lemma parse_result_truthy line s :
  parse_mac_from_boot_message line = Some s -> truthy s = true.
Proof.
  intros H.
  destruct (parse_result_shape line s H)
    as (_ & addr & _ & residue & _ & _ & -> & Hcanon).
  destruct residue; [| reflexivity].
  destruct (canonical_of addr); [discriminate Hcanon | reflexivity].
Qed.

Lemma parse_line_truthy line s :
  parse_mac_from_boot_message line = Some s -> truthy line = true.
Proof. destruct line; [discriminate | reflexivity]. Qed.

(** The loop up to the first turn that brings an address: what was read
    before is echoed, and [record_device] runs on that address. *)
Lemma read_loop_hit port env hit after text mac : forall before st,
  forallb (fun t => in_time (timeout (self st)) (start_time env) t
                    && no_address (event t)) before = true ->
  in_time (timeout (self st)) (start_time env) hit = true ->
  event hit = Line text ->
  parse_mac_from_boot_message (PyStr.strip text) = Some mac ->
  read_loop port env (before ++ hit :: after) st
  = record_device port env mac
      (mkState (self st) (disk st)
         (console st ++ flat_map echo_of before ++ [Echo (PyStr.strip text)])).
Proof.
  intros before st Hquiet Hhit Hevent Hparse. revert st Hquiet Hhit.
  induction before as [| t before IH]; intros st Hquiet Hhit.
  - cbn [app read_loop flat_map]. unfold in_time in Hhit.
    unfold pbind at 1, get_self at 1. cbv beta iota. rewrite Hhit, Hevent.
    rewrite (parse_line_truthy _ _ Hparse).
    unfold pbind at 1, print at 1. rewrite Hparse, (parse_result_truthy _ _ Hparse).
    reflexivity.
  - cbn [forallb] in Hquiet.
    apply andb_true_iff in Hquiet as [Ht Hquiet].
    apply andb_true_iff in Ht as [Htime Hnone]. unfold in_time in Htime.
    change ((t :: before) ++ hit :: after)%list
      with (t :: (before ++ hit :: after))%list.
    cbn [read_loop flat_map]. unfold pbind at 1, get_self at 1.
    cbv beta iota. rewrite Htime.
    unfold echo_of at 1. unfold no_address in Hnone.
    destruct (event t) as [| text' | msg]; [| | discriminate Hnone].
    + apply IH; assumption.
    + destruct (truthy (PyStr.strip text')).
      * unfold pbind at 1, print at 1.
        destruct (parse_mac_from_boot_message (PyStr.strip text'));
          [discriminate Hnone |].
        rewrite IH by assumption. cbn [self disk console].
        rewrite <- !List.app_assoc. reflexivity.
      * apply IH; assumption.
Qed.

(** The loop up to a turn at which the port raises. *)
Lemma read_loop_broken port env hit after msg : forall before st,
  forallb (fun t => in_time (timeout (self st)) (start_time env) t
                    && no_address (event t)) before = true ->
  in_time (timeout (self st)) (start_time env) hit = true ->
  event hit = Broken msg ->
  read_loop port env (before ++ hit :: after) st
  = Some (Raise (SerialException msg),
          mkState (self st) (disk st) (console st ++ flat_map echo_of before)).
Proof.
  intros before st Hquiet Hhit Hevent. revert st Hquiet Hhit.
  induction before as [| t before IH]; intros st Hquiet Hhit.
  - cbn [app read_loop flat_map]. unfold in_time in Hhit.
    unfold pbind at 1, get_self at 1. cbv beta iota. rewrite Hhit, Hevent.
    rewrite List.app_nil_r. destruct st; reflexivity.
  - cbn [forallb] in Hquiet.
    apply andb_true_iff in Hquiet as [Ht Hquiet].
    apply andb_true_iff in Ht as [Htime Hnone]. unfold in_time in Htime.
    change ((t :: before) ++ hit :: after)%list
      with (t :: (before ++ hit :: after))%list.
    cbn [read_loop flat_map]. unfold pbind at 1, get_self at 1.
    cbv beta iota. rewrite Htime.
    unfold echo_of at 1. unfold no_address in Hnone.
    destruct (event t) as [| text' | msg']; [| | discriminate Hnone].
    + apply IH; assumption.
    + destruct (truthy (PyStr.strip text')).
      * unfold pbind at 1, print at 1.
        destruct (parse_mac_from_boot_message (PyStr.strip text'));
          [discriminate Hnone |].
        rewrite IH by assumption. cbn [self disk console].
        rewrite <- !List.app_assoc. reflexivity.
      * apply IH; assumption.
Qed.

(** [collect_mac_from_reset] once the port is open: the three lines, then
    the loop, with [SerialException] turned into the opening error. *)
Lemma collect_opened port env st :
  open_error env = None ->
  collect_mac_from_reset port env st
  = try_serial (read_loop port env (ticks env))
      (fun msg => print (ErrorOpeningPort msg) ;;; ret None)
      (mkState (self st) (disk st) (console st ++ preamble (self st) port)).
Proof.
  intros Hopen. unfold collect_mac_from_reset. rewrite Hopen.
  cbv [pbind get_self print]. cbn [self disk console].
  unfold preamble. rewrite <- !List.app_assoc. reflexivity.
Qed.



Lemma record_device_raises port env mac e st :
  increment_mac mac 2 = Raise e ->
  record_device port env mac st
  = Some (Raise e, mkState (self st) (disk st) (console st ++ [WifiDetected mac])).
Proof.
  intros Hinc. unfold record_device. cbv [pbind print lift]. rewrite Hinc. reflexivity.
Qed.

(** When [increment_mac] rejects the text found in the first line with an
    address (a label was left in it), the capture raises [ValueError]:
    neither the [except] of the loop nor that of the method catches it, and
    the manager and the file are as before. *)
Theorem capture_raises_on_unreadable_address
    (port : string) (env : serial_env) (before after : list tick) (hit : tick)
    (text mac : string) (e : exn) (st : state) :
  open_error env = None ->
  ticks env = (before ++ hit :: after)%list ->
  forallb (fun t => in_time (timeout (self st)) (start_time env) t
                    && no_address (event t)) before = true ->
  in_time (timeout (self st)) (start_time env) hit = true ->
  event hit = Line text ->
  parse_mac_from_boot_message (PyStr.strip text) = Some mac ->
  increment_mac mac 2 = Raise e ->
  collect_mac_from_reset port env st
  = Some (Raise ValueError,
          mkState (self st) (disk st)
            (console st ++ preamble (self st) port ++ flat_map echo_of before
               ++ [Echo (PyStr.strip text); WifiDetected mac])).
Proof.
  intros Hopen Hticks Hquiet Hhit Hevent Hparse Hinc.
  pose proof (increment_mac_raises _ _ _ Hinc) as ->.
  rewrite (collect_opened port env st Hopen), Hticks. unfold try_serial.
  rewrite (read_loop_hit port env hit after text mac before
             (mkState (self st) (disk st) (console st ++ preamble (self st) port))
             Hquiet Hhit Hevent Hparse).
  rewrite (record_device_raises port env mac ValueError _ Hinc).
  cbn [self disk console]. rewrite <- !List.app_assoc. reflexivity.
Qed.

Lemma capture_raises_on_unreadable_address_witness :
  let st := mkState (mkManager 115200 30 (JArr []) (JInt 1) "esp32_mac_database.json")
              NoFile [] in
  let env := mkEnv None 100 [mkTick 101 (Line "wifi mac 24:6f:28:aa:bb:cc")]
               "2024-01-01T00:00:00" "2024-01-01T00:00:01" in
  returned (collect_mac_from_reset "COM3" env st) = Some (Raise ValueError, self st, NoFile).
Proof.
  cbv zeta.
  rewrite (capture_raises_on_unreadable_address "COM3" _ [] []
             (mkTick 101 (Line "wifi mac 24:6f:28:aa:bb:cc")) "wifi mac 24:6f:28:aa:bb:cc"
             "MAC 24:6F:28:AA:BB:CC" ValueError);
    try reflexivity; vm_compute; reflexivity.
Defined.

(** A port that raises [SerialException] while the loop reads it is
    reported with the message of a port that did not open, and the capture
    returns [None] with the manager and the file as before. *)
Theorem capture_broken_port_reported_as_open_error
    (port : string) (env : serial_env) (before after : list tick) (hit : tick)
    (msg : string) (st : state) :
  open_error env = None ->
  ticks env = (before ++ hit :: after)%list ->
  forallb (fun t => in_time (timeout (self st)) (start_time env) t
                    && no_address (event t)) before = true ->
  in_time (timeout (self st)) (start_time env) hit = true ->
  event hit = Broken msg ->
  collect_mac_from_reset port env st
  = Some (Ok None,
          mkState (self st) (disk st)
            (console st ++ preamble (self st) port ++ flat_map echo_of before
               ++ [ErrorOpeningPort msg])).
Proof.
  intros Hopen Hticks Hquiet Hhit Hevent.
  rewrite (collect_opened port env st Hopen), Hticks. unfold try_serial.
  rewrite (read_loop_broken port env hit after msg before
             (mkState (self st) (disk st) (console st ++ preamble (self st) port))
             Hquiet Hhit Hevent).
  cbv [pbind print ret]. cbn [self disk console].
  rewrite <- !List.app_assoc. reflexivity.
Qed.

Lemma capture_broken_port_reported_as_open_error_witness :
  let st := mkState (mkManager 115200 30 (JArr []) (JInt 1) "esp32_mac_database.json")
              NoFile [] in
  let env := mkEnv None 100 [mkTick 101 (Line "boot"); mkTick 102 (Broken "device removed")]
               "" "" in
  collect_mac_from_reset "COM3" env st
  = Some (Ok None,
          mkState (self st) NoFile
            [Banner (JInt 1); OpeningPort "COM3"; PressReset; Echo "boot";
             ErrorOpeningPort "device removed"]).
Proof.
  cbv zeta.
  rewrite (capture_broken_port_reported_as_open_error "COM3" _ [mkTick 101 (Line "boot")] []
             (mkTick 102 (Broken "device removed")) "device removed");
    try reflexivity; vm_compute; reflexivity.
Defined.

(** ** Captures on a catalog that a hand-edited file brought *)

Lemma record_device_counter_stuck port env mac bt_mac st recs :
  increment_mac mac 2 = Ok bt_mac ->
  mac_database (self st) = JArr recs ->
  addable (device_counter (self st)) = false ->
  let info := device_info_of (device_counter (self st)) mac bt_mac (record_stamp env) port in
  record_device port env mac st
  = Some (Raise TypeError,
          mkState
            (mkManager (baudrate (self st)) (timeout (self st)) (JArr (recs ++ [info]))
               (device_counter (self st)) (db_file (self st)))
            (disk st)
            (console st ++ [WifiDetected mac; BtCalculated bt_mac])).
Proof.
  destruct st as [[b t db counter path] d con]. cbn [self mac_database device_counter].
  intros Hinc -> Hadd. cbv zeta. unfold record_device. rewrite Hinc. run_prog.
  cbv [py_append]. rewrite <- !List.app_assoc.
  destruct counter; try discriminate Hadd; reflexivity.
Qed.

Lemma record_device_not_a_list port env mac bt_mac st :
  increment_mac mac 2 = Ok bt_mac ->
  is_list (mac_database (self st)) = false ->
  record_device port env mac st
  = Some (Raise AttributeError,
          mkState (self st) (disk st)
            (console st ++ [WifiDetected mac; BtCalculated bt_mac])).
Proof.
  destruct st as [[b t db counter path] d con]. cbn [self mac_database].
  intros Hinc Hlist. unfold record_device. rewrite Hinc. run_prog.
  rewrite <- !List.app_assoc.
  destruct db; try discriminate Hlist; reflexivity.
Qed.

(** With a counter that is no number (a [next_id] that the file gave as a
    string, [null], an array or an object), a capture that finds an address
    raises [TypeError] at [+= 1]: the record is already appended in memory,
    under that counter as identifier, and the file is not written. *)
Theorem capture_stops_at_counter_that_is_no_number
    (port : string) (env : serial_env) (before after : list tick) (hit : tick)
    (text mac bt_mac : string) (st : state) (recs : list json) :
  open_error env = None ->
  ticks env = (before ++ hit :: after)%list ->
  forallb (fun t => in_time (timeout (self st)) (start_time env) t
                    && no_address (event t)) before = true ->
  in_time (timeout (self st)) (start_time env) hit = true ->
  event hit = Line text ->
  parse_mac_from_boot_message (PyStr.strip text) = Some mac ->
  increment_mac mac 2 = Ok bt_mac ->
  mac_database (self st) = JArr recs ->
  addable (device_counter (self st)) = false ->
  let info := device_info_of (device_counter (self st)) mac bt_mac (record_stamp env) port in
  returned (collect_mac_from_reset port env st)
  = Some (Raise TypeError,
          mkManager (baudrate (self st)) (timeout (self st)) (JArr (recs ++ [info]))
            (device_counter (self st)) (db_file (self st)),
          disk st).
Proof.
  intros Hopen Hticks Hquiet Hhit Hevent Hparse Hinc Hdb Hadd. cbv zeta.
  rewrite (collect_opened port env st Hopen), Hticks. unfold try_serial.
  rewrite (read_loop_hit port env hit after text mac before
             (mkState (self st) (disk st) (console st ++ preamble (self st) port))
             Hquiet Hhit Hevent Hparse).
  pose proof (record_device_counter_stuck port env mac bt_mac
                (mkState (self st) (disk st)
                   ((console st ++ preamble (self st) port)
                      ++ flat_map echo_of before ++ [Echo (PyStr.strip text)]))
                recs Hinc Hdb Hadd) as Hout.
  cbv zeta in Hout. cbn [self disk console] in Hout |- *.
  rewrite Hout. reflexivity.
Qed.

Lemma capture_stops_at_counter_that_is_no_number_witness :
  let m := mkManager 115200 30 (JArr []) (JStr "7") "esp32_mac_database.json" in
  let f := Holds (JObj [("devices", JArr []); ("next_id", JStr "7")]) in
  let env := mkEnv None 100 [mkTick 101 (Line "MAC: 24:6F:28:AA:BB:CC")]
               "2024-01-01T00:00:00" "2024-01-01T00:00:01" in
  returned (init 115200 30 f) = Some (Ok tt, m, f)
  /\ returned (collect_mac_from_reset "COM3" env (mkState m f []))
     = Some (Raise TypeError,
             mkManager 115200 30
               (JArr [device_info_of (JStr "7") "24:6F:28:AA:BB:CC" "24:6F:28:AA:BB:CE"
                        "2024-01-01T00:00:00" "COM3"])
               (JStr "7") "esp32_mac_database.json",
             f).
Proof.
  cbv zeta. split; [vm_compute; reflexivity |].
  rewrite (capture_stops_at_counter_that_is_no_number "COM3" _ [] []
             (mkTick 101 (Line "MAC: 24:6F:28:AA:BB:CC")) "MAC: 24:6F:28:AA:BB:CC"
             "24:6F:28:AA:BB:CC" "24:6F:28:AA:BB:CE" _ []);
    try reflexivity; vm_compute; reflexivity.
Defined.

(** With records that are no list (a [devices] that the file gave as an
    object or a string, which [load_database] accepts), a capture that finds
    an address raises [AttributeError] at [append]; the manager and the file
    are as before. *)
Theorem capture_stops_at_devices_that_are_no_list
    (port : string) (env : serial_env) (before after : list tick) (hit : tick)
    (text mac bt_mac : string) (st : state) :
  open_error env = None ->
  ticks env = (before ++ hit :: after)%list ->
  forallb (fun t => in_time (timeout (self st)) (start_time env) t
                    && no_address (event t)) before = true ->
  in_time (timeout (self st)) (start_time env) hit = true ->
  event hit = Line text ->
  parse_mac_from_boot_message (PyStr.strip text) = Some mac ->
  increment_mac mac 2 = Ok bt_mac ->
  is_list (mac_database (self st)) = false ->
  returned (collect_mac_from_reset port env st)
  = Some (Raise AttributeError, self st, disk st).
Proof.
  intros Hopen Hticks Hquiet Hhit Hevent Hparse Hinc Hlist.
  rewrite (collect_opened port env st Hopen), Hticks. unfold try_serial.
  rewrite (read_loop_hit port env hit after text mac before
             (mkState (self st) (disk st) (console st ++ preamble (self st) port))
             Hquiet Hhit Hevent Hparse).
  cbn [self disk console].
  rewrite (record_device_not_a_list port env mac bt_mac
             (mkState (self st) (disk st)
                ((console st ++ preamble (self st) port)
                   ++ flat_map echo_of before ++ [Echo (PyStr.strip text)]))
             Hinc Hlist).
  reflexivity.
Qed.

Lemma capture_stops_at_devices_that_are_no_list_witness :
  let m := mkManager 115200 30 (JObj []) (JInt 1) "esp32_mac_database.json" in
  let f := Holds (JObj [("devices", JObj [])]) in
  let env := mkEnv None 100 [mkTick 101 (Line "MAC: 24:6F:28:AA:BB:CC")]
               "2024-01-01T00:00:00" "2024-01-01T00:00:01" in
  returned (init 115200 30 f) = Some (Ok tt, m, f)
  /\ returned (collect_mac_from_reset "COM3" env (mkState m f []))
     = Some (Raise AttributeError, m, f).
Proof.
  cbv zeta. split; [vm_compute; reflexivity |].
  rewrite (capture_stops_at_devices_that_are_no_list "COM3" _ [] []
             (mkTick 101 (Line "MAC: 24:6F:28:AA:BB:CC")) "MAC: 24:6F:28:AA:BB:CC"
             "24:6F:28:AA:BB:CC" "24:6F:28:AA:BB:CE");
    try reflexivity; vm_compute; reflexivity.
Defined.

(** ** The records of a run *)

Lemma record_ok_device_info k mac bt_mac stamp port :
  increment_mac mac 2 = Ok bt_mac ->
  record_ok (device_info_of (JInt k) mac bt_mac stamp port) = true.
Proof.
  intros Hinc. unfold record_ok, device_info_of. rewrite Hinc, !String.eqb_refl.
  reflexivity.
Qed.

(** The record a capture returns is made of an address and of what
    [increment_mac] makes of it. *)
Lemma collect_success_record port env st recs k info st' :
  mac_database (self st) = JArr recs ->
  device_counter (self st) = JInt k ->
  collect_mac_from_reset port env st = Some (Ok (Some info), st') ->
  exists mac bt_mac,
    info = device_info_of (JInt k) mac bt_mac (record_stamp env) port
    /\ increment_mac mac 2 = Ok bt_mac.
Proof.
  intros Hdb Hk H.
  destruct (open_error env) as [msg |] eqn:Hopen.
  { rewrite (collect_open_failure port env msg st Hopen) in H. discriminate H. }
  rewrite (collect_opened port env st Hopen) in H. unfold try_serial in H.
  match type of H with
  | context [read_loop port env (ticks env) ?s] => set (st0 := s) in H
  end.
  destruct (read_loop port env (ticks env) st0) as [[r0 st1] |] eqn:Hloop;
    [| discriminate H].
  apply read_loop_outcome in Hloop.
  destruct Hloop as [(_ & _ & [-> | [msg ->]]) | (mac & st2 & Hself & _ & Hrec)].
  - discriminate H.
  - cbv [pbind print ret] in H. discriminate H.
  - pose proof (record_device_outcome port env mac st2 recs k) as Hout.
    unfold st0 in Hself. cbn [self] in Hself. rewrite Hself in Hout.
    specialize (Hout Hdb Hk).
    destruct (increment_mac mac 2) as [bt_mac | e] eqn:Hinc.
    + cbv zeta in Hout. rewrite Hrec in Hout. injection Hout as -> _.
      injection H as <- _. eauto.
    + apply increment_mac_raises in Hinc. subst e.
      rewrite Hrec in Hout. injection Hout as -> _. discriminate H.
Qed.

Lemma sound_same st st' :
  self st' = self st -> disk st' = disk st -> sound st -> sound st'.
Proof. unfold sound, consistent. intros -> ->. exact (fun H => H). Qed.

Lemma relaunch_sound b t st st' :
  sound st -> relaunch b t st = Some st' -> sound st'.
Proof.
  intros [Hcons (recs & Hdb & Hok)] H.
  split; [exact (relaunch_consistent b t st st' Hcons H) |].
  destruct Hcons as (recs' & Hdb' & Hnum & Hdisk).
  rewrite Hdb in Hdb'. injection Hdb' as <-.
  unfold relaunch, init in H.
  destruct Hdisk as [[Hdisk ->] | [now Hdisk]]; rewrite Hdisk in H.
  - rewrite load_database_no_file in H. injection H as <-.
    exists []. split; reflexivity.
  - rewrite (load_database_object _ _ _ (Z.of_nat (List.length recs))) in H
      by reflexivity.
    injection H as <-. exists recs. split; [reflexivity | exact Hok].
Qed.

Lemma exec_sound a st st' : sound st -> exec a st = Some st' -> sound st'.
Proof.
  intros Hst H. destruct a as [port env | b t]; cbn [exec] in H;
    [| exact (relaunch_sound _ _ _ _ Hst H)].
  destruct (collect_mac_from_reset port env st) as [[r st1] |] eqn:Hcollect;
    [| discriminate H].
  pose proof Hst as [Hcons (recs & Hdb & Hok)].
  pose proof Hcons as (recs' & Hdb' & [_ Hk] & _).
  rewrite Hdb in Hdb'. injection Hdb' as <-.
  destruct (collect_outcome port env st recs _ r st1 Hdb Hk Hcollect)
    as [(Hself & Hsame & Hr) | (mac & bt_mac & Hr & Hself & Hfile)].
  - pose proof (sound_same st st1 Hself Hsame Hst) as Hst1.
    destruct Hr as [-> | [e ->]].
    + injection H as <-. exact Hst1.
    + exact (relaunch_sound _ _ _ _ Hst1 H).
  - cbv zeta in Hr, Hself. subst r. injection H as <-.
    split.
    + apply (exec_consistent (Capture port env) st st1 Hcons).
      cbn [exec]. rewrite Hcollect. reflexivity.
    + destruct (collect_success_record port env st recs _ _ st1 Hdb Hk Hcollect)
        as (mac' & bt' & Hinfo & Hinc).
      eexists. split; [rewrite Hself; reflexivity |].
      rewrite forallb_app, Hok. cbn [forallb].
      rewrite Hinfo, (record_ok_device_info _ _ _ _ _ Hinc). reflexivity.
Qed.

Lemma run_script_sound script : forall st st',
  sound st -> run_script script st = Some st' -> sound st'.
Proof.
  induction script as [| a script IH]; intros st st' Hst H; cbn [run_script] in H.
  - injection H as <-. exact Hst.
  - destruct (exec a st) as [st1 |] eqn:Hexec; [| discriminate H].
    exact (IH _ _ (exec_sound _ _ _ Hst Hexec) H).
Qed.

Lemma session_sound b t script st :
  session b t NoFile script = Some st -> sound st.
Proof.
  unfold session, init. rewrite load_database_no_file.
  apply run_script_sound. split.
  - exists []. repeat split. left. split; reflexivity.
  - exists []. split; reflexivity.
Qed.

(** In every state a run reaches from a first start without a catalog file,
    every record has the five keys of the capture, an integer identifier,
    and a [bt_mac] that is [increment_mac] of its [wifi_mac] with the
    offset 2, restarts included. *)
Theorem records_keep_their_shape
    (baudrate timeout : Z) (script : list action) (st : state) :
  session baudrate timeout NoFile script = Some st ->
  exists recs, mac_database (self st) = JArr recs /\ forallb record_ok recs = true.
Proof. intros H. exact (proj2 (session_sound _ _ _ _ H)). Qed.

Lemma records_keep_their_shape_witness :
  let env := mkEnv None 100 [mkTick 101 (Line "MAC: 24:6F:28:AA:BB:CC")]
               "2024-01-01T00:00:00" "2024-01-01T00:00:01" in
  let script := [Capture "COM3" env; Relaunch 115200 30; Capture "COM4" env] in
  exists st recs,
    session 115200 30 NoFile script = Some st
    /\ mac_database (self st) = JArr recs /\ forallb record_ok recs = true.
Proof.
  cbv zeta. eexists.
  match goal with
  | |- exists recs, ?s = Some ?st /\ _ =>
      assert (Hrun : s = Some st) by (vm_compute; reflexivity)
  end.
  destruct (records_keep_their_shape _ _ _ _ Hrun) as (recs & Hdb & Hok).
  exists recs. auto.
Defined.

(** A restart loses nothing: in every state a run reaches from a first
    start without a catalog file, a new process over the file as it is
    gets the very records and the very counter the old one had in memory,
    and leaves the file alone. *)
Theorem restart_restores_catalog
    (baudrate timeout b t : Z) (script : list action) (st : state) :
  session baudrate timeout NoFile script = Some st ->
  exists st',
    relaunch b t st = Some st'
    /\ mac_database (self st') = mac_database (self st)
    /\ device_counter (self st') = device_counter (self st)
    /\ disk st' = disk st.
Proof.
  intros H. destruct (session_sound _ _ _ _ H) as [(recs & Hdb & [_ Hk] & Hdisk) _].
  unfold relaunch, init.
  destruct Hdisk as [[Hdisk ->] | [now Hdisk]]; rewrite Hdisk.
  - rewrite load_database_no_file. eexists. split; [reflexivity |].
    cbn [self disk mac_database device_counter]. rewrite Hdb, Hk. auto.
  - rewrite (load_database_object _ _ _ (Z.of_nat (List.length recs))) by reflexivity.
    eexists. split; [reflexivity |].
    cbn [lookup String.eqb Ascii.eqb Bool.eqb self disk mac_database device_counter].
    rewrite Hdb. auto.
Qed.

Lemma restart_restores_catalog_witness :
  let env := mkEnv None 100 [mkTick 101 (Line "MAC: 24:6F:28:AA:BB:CC")]
               "2024-01-01T00:00:00" "2024-01-01T00:00:01" in
  let script := [Capture "COM3" env; Capture "COM4" env] in
  exists st st',
    session 115200 30 NoFile script = Some st
    /\ relaunch 9600 5 st = Some st'
    /\ mac_database (self st') = mac_database (self st)
    /\ device_counter (self st') = JInt 3.
Proof.
  cbv zeta. eexists.
  match goal with
  | |- exists st', ?s = Some ?st /\ _ =>
      assert (Hrun : s = Some st) by (vm_compute; reflexivity)
  end.
  destruct (restart_restores_catalog 115200 30 9600 5 _ _ Hrun)
    as (st' & Hre & Hdb & Hk & _).
  exists st'. repeat split; assumption.
Defined.

(** ** The display of the catalog *)

Lemma row_of_record_ok r :
  record_ok r = true ->
  exists row, row_of r = inr row /\ row_id row = record_id r.
Proof.
  unfold record_ok. intros H.
  destruct r as [| | | | | | members]; try discriminate H.
  destruct members as [| [k1 v1] members]; [discriminate H |].
  destruct v1; try discriminate H.
  destruct members as [| [k2 v2] members]; [discriminate H |].
  destruct v2; try discriminate H.
  destruct members as [| [k3 v3] members]; [discriminate H |].
  destruct v3; try discriminate H.
  destruct members as [| [k4 v4] members]; [discriminate H |].
  destruct v4; try discriminate H.
  destruct members as [| [k5 v5] members]; [discriminate H |].
  destruct v5; try discriminate H.
  destruct members; [| discriminate H].
  match type of H with
  | context [increment_mac ?w 2] =>
      destruct (increment_mac w 2) as [derived |];
        [| rewrite andb_false_r in H; discriminate H]
  end.
  repeat match goal with
         | H : _ && _ = true |- _ => apply andb_true_iff in H as [H ?]
         end.
  repeat match goal with
         | H : String.eqb _ _ = true |- _ => apply String.eqb_eq in H; subst
         end.
  eexists. split; reflexivity.
Qed.

Lemma print_rows_ok recs :
  forallb record_ok recs = true ->
  exists rows, print_rows recs = (rows, None) /\ map row_id rows = map record_id recs.
Proof.
  induction recs as [| r recs IH]; intros H.
  - exists []. split; reflexivity.
  - cbn [forallb] in H. apply andb_true_iff in H as [Hr Hrecs].
    destruct (row_of_record_ok r Hr) as (row & Hrow & Hid).
    destruct (IH Hrecs) as (rows & Hrows & Hids).
    exists (row :: rows). cbn [print_rows map]. rewrite Hrow, Hrows, Hid, Hids.
    split; reflexivity.
Qed.

(** [print_database] in a state that a run from a first start without a
    catalog file has reached: no exception, the five lines of the head with
    the number of records, one row for every record in the order of
    creation, showing the identifiers 1, 2, 3, ..., and the closing rule. *)
Theorem print_database_shows_every_record
    (baudrate timeout : Z) (script : list action) (st : state) :
  session baudrate timeout NoFile script = Some st ->
  exists recs rows,
    mac_database (self st) = JArr recs
    /\ print_database (self st)
       = (([TopRule; Title (Z.of_nat (List.length recs)); Rule; Heads; Dashes]
             ++ rows ++ [Rule])%list, None)
    /\ map row_id rows = count_from 1 (List.length recs).
Proof.
  intros H. destruct (session_sound _ _ _ _ H) as [Hcons (recs & Hdb & Hok)].
  destruct Hcons as (recs' & Hdb' & [Hids _] & _).
  rewrite Hdb in Hdb'. injection Hdb' as <-.
  destruct (print_rows_ok recs Hok) as (rows & Hrows & Hrow_ids).
  exists recs, rows. split; [exact Hdb |]. split; [| congruence].
  unfold print_database. rewrite Hdb. cbn [py_len items_of]. rewrite Hrows.
  rewrite <- List.app_assoc. reflexivity.
Qed.

Lemma print_database_shows_every_record_witness :
  let env := mkEnv None 100 [mkTick 101 (Line "MAC: 24:6F:28:AA:BB:CC")]
               "2024-01-01T00:00:00" "2024-01-01T00:00:01" in
  let script := [Capture "COM3" env; Relaunch 115200 30; Capture "COM4" env] in
  exists st rows,
    session 115200 30 NoFile script = Some st
    /\ print_database (self st)
       = (([TopRule; Title 2; Rule; Heads; Dashes] ++ rows ++ [Rule])%list, None)
    /\ map row_id rows = [Some (JInt 1); Some (JInt 2)].
Proof.
  cbv zeta. eexists.
  match goal with
  | |- exists rows, ?s = Some ?st /\ _ =>
      assert (Hrun : s = Some st) by (vm_compute; reflexivity)
  end.
  destruct (print_database_shows_every_record _ _ _ _ Hrun)
    as (recs & rows & Hdb & Hshow & Hids).
  cbn [self mac_database] in Hdb. injection Hdb as <-.
  exists rows. repeat split; assumption.
Defined.

(** ** The watch for a new port *)

Lemma mem_In x s : mem x s = true <-> In x s.
Proof.
  unfold mem. rewrite existsb_exists. split.
  - intros (y & Hy & E). apply String.eqb_eq in E. subst. exact Hy.
  - intros H. exists x. split; [exact H | apply String.eqb_refl].
Qed.

Lemma mem_set_of x devices : mem x (set_of devices) = mem x devices.
Proof.
  apply eq_true_iff_eq. rewrite !mem_In. unfold set_of. apply nodup_In.
Qed.

Lemma In_difference x a b : In x (difference a b) <-> In x a /\ mem x b = false.
Proof. unfold difference. rewrite filter_In, negb_true_iff. reflexivity. Qed.

Lemma difference_nothing_new known devices :
  forallb (fun x => mem x known) devices = true ->
  difference (set_of devices) known = [].
Proof.
  intros H. destruct (difference (set_of devices) known) as [| x l] eqn:E; [reflexivity |].
  assert (Hx : In x (difference (set_of devices) known)) by (rewrite E; left; reflexivity).
  apply In_difference in Hx as [Hin Hnew].
  apply nodup_In in Hin. rewrite forallb_forall in H.
  rewrite (H x Hin) in Hnew. discriminate Hnew.
Qed.

Lemma difference_something_new known devices :
  existsb (fun x => negb (mem x known)) devices = true ->
  difference (set_of devices) known <> [].
Proof.
  intros H E. apply existsb_exists in H as (x & Hin & Hnew).
  apply negb_true_iff in Hnew.
  assert (Hx : In x (difference (set_of devices) known))
    by (apply In_difference; split; [apply nodup_In, Hin | exact Hnew]).
  rewrite E in Hx. exact Hx.
Qed.

Lemma picked_is_member pick (l : list string) :
  l <> [] -> In (nth (pick mod List.length l) l "") l.
Proof.
  intros Hl. apply nth_In. apply Nat.mod_upper_bound.
  destruct l; [congruence | discriminate].
Qed.

(** What the watch returns and when: the port is one that the poll lists
    and the known set lacks, the set returned is that poll's, and no poll
    before it listed a port outside the known set. *)
Lemma watch_sound known pick : forall polls port current,
  watch known polls pick = Some (port, current) ->
  exists earlier devices later,
    polls = (earlier ++ devices :: later)%list
    /\ nothing_new known earlier = true
    /\ current = set_of devices
    /\ In port devices
    /\ mem port known = false.
Proof.
  induction polls as [| devices polls IH]; intros port current H; [discriminate H |].
  cbn [watch] in H. cbv zeta in H.
  destruct (difference (set_of devices) known) as [| x l] eqn:E.
  - destruct (IH _ _ H) as (earlier & devices' & later & -> & Hearlier & Hrest).
    exists (devices :: earlier), devices', later.
    split; [reflexivity |]. split; [| exact Hrest].
    cbn [nothing_new forallb]. fold (nothing_new known earlier). rewrite Hearlier.
    rewrite andb_true_r. apply forallb_forall. intros y Hy.
    destruct (mem y known) eqn:Hmem; [reflexivity |].
    assert (Hin : In y (difference (set_of devices) known))
      by (apply In_difference; split; [apply nodup_In, Hy | exact Hmem]).
    rewrite E in Hin. destruct Hin.
  - injection H as <- <-.
    assert (Hin : In (nth (pick mod List.length (x :: l)) (x :: l) "")
                     (difference (set_of devices) known))
      by (rewrite E; apply picked_is_member; discriminate).
    apply In_difference in Hin as [Hin Hnew].
    exists [], devices, polls. repeat split; try assumption.
    apply nodup_In in Hin. exact Hin.
Qed.

Lemma watch_skips known pick later devices : forall earlier,
  nothing_new known earlier = true ->
  watch known (earlier ++ devices :: later) pick = watch known (devices :: later) pick.
Proof.
  induction earlier as [| d earlier IH]; intros H; [reflexivity |].
  cbn [nothing_new forallb] in H. apply andb_true_iff in H as [Hd H].
  change ((d :: earlier) ++ devices :: later)%list
    with (d :: (earlier ++ devices :: later))%list.
  cbn [watch]. cbv zeta. rewrite (difference_nothing_new known d Hd).
  exact (IH H).
Qed.

(** [detect_esp32_port] returns a port that is new: one of the ports of the
    poll it answers at and none of the known ones; the set it returns is
    that poll, and it did not pass over any poll with a new port. *)
Theorem detect_returns_a_new_port
    (known_ports : option (list string)) (polls : list (list string)) (pick : nat)
    (lines : list watch_line) (port : string) (current_ports : list string) :
  detect_esp32_port known_ports polls pick = (lines, Some (port, current_ports)) ->
  let known := match known_ports with None => [] | Some known => known end in
  exists earlier devices later,
    polls = (earlier ++ devices :: later)%list
    /\ nothing_new known earlier = true
    /\ current_ports = set_of devices
    /\ In port devices
    /\ mem port known = false
    /\ mem port current_ports = true
    /\ lines = [WaitingForPort; NewPortDetected port].
Proof.
  unfold detect_esp32_port. cbv zeta. intros H.
  destruct (watch _ polls pick) as [[port' current'] |] eqn:Hwatch;
    [| discriminate H].
  injection H as <- <- <-.
  destruct (watch_sound _ _ _ _ _ Hwatch)
    as (earlier & devices & later & -> & Hearlier & -> & Hin & Hnew).
  exists earlier, devices, later. repeat split; try assumption.
  rewrite mem_set_of. apply mem_In, Hin.
Qed.

Lemma detect_returns_a_new_port_witness :
  exists earlier devices later,
    [["A"; "B"]; ["B"; "A"]; ["A"; "B"; "C"]; ["D"]]
    = (earlier ++ devices :: later)%list
    /\ nothing_new ["A"; "B"] earlier = true
    /\ ["A"; "B"; "C"] = set_of devices
    /\ In "C" devices
    /\ mem "C" ["A"; "B"] = false
    /\ mem "C" ["A"; "B"; "C"] = true
    /\ [WaitingForPort; NewPortDetected "C"] = [WaitingForPort; NewPortDetected "C"].
Proof.
  apply (detect_returns_a_new_port (Some ["A"; "B"])
           [["A"; "B"]; ["B"; "A"]; ["A"; "B"; "C"]; ["D"]] 7).
  vm_compute. reflexivity.
Defined.

(** [detect_esp32_port] answers at the first poll that lists a port outside
    the known set, with one of the new ports of that poll and with that
    poll as the new known set, whatever the polls after it list. *)
Theorem detect_answers_at_first_change
    (known_ports : option (list string)) (earlier later : list (list string))
    (devices : list string) (pick : nat) :
  let known := match known_ports with None => [] | Some known => known end in
  nothing_new known earlier = true ->
  existsb (fun x => negb (mem x known)) devices = true ->
  exists port,
    detect_esp32_port known_ports (earlier ++ devices :: later) pick
    = ([WaitingForPort; NewPortDetected port], Some (port, set_of devices))
    /\ In port devices
    /\ mem port known = false.
Proof.
  cbv zeta. intros Hearlier Hnew. unfold detect_esp32_port. cbv zeta.
  rewrite (watch_skips _ pick later devices earlier Hearlier).
  cbn [watch]. cbv zeta.
  pose proof (difference_something_new _ devices Hnew) as Hne.
  destruct (difference (set_of devices) _) as [| x l] eqn:E; [congruence |].
  eexists. split; [reflexivity |].
  assert (Hin : In (nth (pick mod List.length (x :: l)) (x :: l) "")
                   (difference (set_of devices)
                      match known_ports with None => [] | Some known => known end))
    by (rewrite E; apply picked_is_member; discriminate).
  apply In_difference in Hin as [Hin Hfresh]. apply nodup_In in Hin. auto.
Qed.

Lemma detect_answers_at_first_change_witness :
  exists port,
    detect_esp32_port None [[]; []; ["/dev/ttyUSB0"]; ["/dev/ttyUSB1"]] 0
    = ([WaitingForPort; NewPortDetected port], Some (port, set_of ["/dev/ttyUSB0"]))
    /\ In port ["/dev/ttyUSB0"]
    /\ mem port [] = false.
Proof.
  apply (detect_answers_at_first_change None [[]; []] [["/dev/ttyUSB1"]]
           ["/dev/ttyUSB0"] 0); reflexivity.
Defined.

(** Two calls in a row, the second with the set the first returned, as
    [run_collection_mode] makes them, never return the same port name: a
    port taken out and put back under its name stays known. *)
Theorem detect_never_same_port_twice
    (known_ports : option (list string)) (polls1 polls2 : list (list string))
    (pick1 pick2 : nat) (lines1 lines2 : list watch_line)
    (port1 port2 : string) (current1 current2 : list string) :
  detect_esp32_port known_ports polls1 pick1 = (lines1, Some (port1, current1)) ->
  detect_esp32_port (Some current1) polls2 pick2 = (lines2, Some (port2, current2)) ->
  port2 <> port1.
Proof.
  unfold detect_esp32_port. cbv zeta. intros H1 H2.
  destruct (watch _ polls1 pick1) as [[p1 c1] |] eqn:Hw1; [| discriminate H1].
  destruct (watch current1 polls2 pick2) as [[p2 c2] |] eqn:Hw2; [| discriminate H2].
  injection H1 as _ -> ->. injection H2 as _ -> ->.
  destruct (watch_sound _ _ _ _ _ Hw1) as (_ & devices & _ & _ & _ & -> & Hin & _).
  destruct (watch_sound _ _ _ _ _ Hw2) as (_ & _ & _ & _ & _ & _ & _ & Hnew).
  intros ->. rewrite mem_set_of in Hnew.
  apply mem_In in Hin. rewrite Hin in Hnew. discriminate Hnew.
Qed.

(** The board on /dev/ttyUSB0 is taken out and the next one put in under the
    same name: the second watch passes it over and answers at another port. *)
Lemma detect_never_same_port_twice_witness :
  "/dev/ttyUSB1" <> "/dev/ttyUSB0".
Proof.
  apply (detect_never_same_port_twice None
           [[]; ["/dev/ttyUSB0"]]
           [["/dev/ttyUSB0"]; []; ["/dev/ttyUSB0"]; ["/dev/ttyUSB0"; "/dev/ttyUSB1"]]
           0 0
           [WaitingForPort; NewPortDetected "/dev/ttyUSB0"]
           [WaitingForPort; NewPortDetected "/dev/ttyUSB1"]
           "/dev/ttyUSB0" "/dev/ttyUSB1" ["/dev/ttyUSB0"]
           ["/dev/ttyUSB0"; "/dev/ttyUSB1"]);
    vm_compute; reflexivity.
Defined.

(** ** The flashing *)

Lemma attempted_at_most_two env port binary_path flash_address chip :
  (List.length (attempted (flash_firmware env port binary_path flash_address chip)) <= 2)%nat.
Proof.
  unfold flash_firmware. cbv zeta.
  destruct (binary_exists env); cbn [negb attempted List.length]; [| lia].
  destruct (erase_outcome env) as [code |]; [| cbn [attempted List.length]; lia].
  destruct (code =? 0); cbn [negb attempted List.length]; [| lia].
  destruct (write_outcome env) as [code' |]; [| cbn [attempted List.length]; lia].
  destruct (code' =? 0); cbn [negb attempted List.length]; lia.
Qed.

(** ** The collection mode *)

(** The three ways a capture ends on a catalog that is a list with an
    integer counter. *)
Lemma collect_cases port env st recs k r st' :
  mac_database (self st) = JArr recs ->
  device_counter (self st) = JInt k ->
  collect_mac_from_reset port env st = Some (r, st') ->
  (self st' = self st /\ disk st' = disk st /\ (r = Ok None \/ r = Raise ValueError))
  \/ (exists mac bt_mac,
        increment_mac mac 2 = Ok bt_mac
        /\ r = Ok (Some (device_info_of (JInt k) mac bt_mac (record_stamp env) port))).
Proof.
  intros Hdb Hk H.
  destruct (collect_outcome port env st recs k r st' Hdb Hk H)
    as [(Hself & Hdisk & [-> | [e ->]]) | (mac & bt_mac & Hr & _)].
  - left. auto.
  - left. repeat split; try assumption. right.
    destruct (open_error env) as [msg |] eqn:Hopen.
    { rewrite (collect_open_failure port env msg st Hopen) in H. discriminate H. }
    rewrite (collect_opened port env st Hopen) in H. unfold try_serial in H.
    match type of H with
    | context [read_loop port env (ticks env) ?s] => set (st0 := s) in H
    end.
    destruct (read_loop port env (ticks env) st0) as [[r0 st1] |] eqn:Hloop;
      [| discriminate H].
    apply read_loop_outcome in Hloop.
    destruct Hloop as [(_ & _ & [-> | [msg ->]]) | (mac & st2 & Hself2 & _ & Hrec)].
    + discriminate H.
    + cbv [pbind print ret] in H. discriminate H.
    + pose proof (record_device_outcome port env mac st2 recs k) as Hout.
      unfold st0 in Hself2. cbn [self] in Hself2. rewrite Hself2 in Hout.
      specialize (Hout Hdb Hk).
      destruct (increment_mac mac 2) as [bt_mac | e'] eqn:Hinc.
      * cbv zeta in Hout. rewrite Hrec in Hout. injection Hout as -> _. discriminate H.
      * apply increment_mac_raises in Hinc. subst e'.
        rewrite Hrec in Hout. injection Hout as -> _.
        injection H as <- _. reflexivity.
  - right. cbv zeta in Hr.
    destruct (collect_success_record port env st recs k _ st' Hdb Hk
                ltac:(rewrite <- Hr; exact H)) as (mac' & bt' & Hinfo & Hinc).
    exists mac', bt'. split; [exact Hinc |]. rewrite Hr, Hinfo. reflexivity.
Qed.

Lemma exec_capture_ok port env st v st' :
  collect_mac_from_reset port env st = Some (Ok v, st') ->
  exec (Capture port env) st = Some st'.
Proof. intros H. cbn [exec]. rewrite H. reflexivity. Qed.

Lemma sound_records st :
  sound st ->
  exists recs,
    mac_database (self st) = JArr recs
    /\ records_of st = recs
    /\ device_counter (self st) = JInt (1 + Z.of_nat (List.length recs))
    /\ map record_id recs = count_from 1 (List.length recs)
    /\ forallb record_ok recs = true.
Proof.
  intros [(recs & Hdb & [Hids Hk] & _) (recs' & Hdb' & Hok)].
  rewrite Hdb in Hdb'. injection Hdb' as <-.
  exists recs. unfold records_of. rewrite Hdb. auto.
Qed.

(** What the loop keeps, whatever the turns bring: the catalog stays sound,
    esptool has been handed at most two commands for every record added,
    and nothing but the [ValueError] of the capture ends the loop. *)
Lemma collection_loop_invariant auto_flash binary_path (base : nat) :
  forall cycles st known screen tools,
    sound st ->
    (List.length tools + base <= 2 * List.length (records_of st))%nat ->
    let r := collection_loop auto_flash binary_path cycles st known screen tools in
    sound (loop_state r)
    /\ (List.length (loop_esptool r) + base
        <= 2 * List.length (records_of (loop_state r)))%nat
    /\ (loop_ended r = StillRunning \/ loop_ended r = LoopRaised ValueError).
Proof.
  induction cycles as [| c cycles IH]; intros st known screen tools Hst Htools;
    cbv zeta; cbn [collection_loop].
  - cbn [loop_state loop_esptool loop_ended]. auto.
  - destruct (sound_records st Hst) as (recs & Hdb & Hrecs & Hk & _).
    rewrite Hdb. cbn [py_len]. cbv zeta.
    destruct (detect_esp32_port (Some known) (cycle_polls c) (cycle_pick c))
      as [lines [[port known'] |]];
      [| cbn [loop_state loop_esptool loop_ended]; auto].
    destruct (collect_mac_from_reset port (cycle_serial c) st) as [[r st'] |] eqn:Hcollect;
      [| cbn [loop_state loop_esptool loop_ended]; auto].
    destruct (collect_cases port (cycle_serial c) st recs _ r st' Hdb Hk Hcollect)
      as [(Hself & Hdisk & [-> | ->]) | (mac & bt_mac & Hinc & ->)].
    + (* no record *)
      apply IH; [exact (sound_same st st' Hself Hdisk Hst) |].
      unfold records_of in *. rewrite Hself. exact Htools.
    + (* the capture raised *)
      cbn [loop_state loop_esptool loop_ended]. split; [| split; [| auto]].
      * exact (sound_same st st' Hself Hdisk Hst).
      * unfold records_of in *. rewrite Hself. exact Htools.
    + (* a record *)
      assert (Hst' : sound st')
        by exact (exec_sound _ _ _ Hst (exec_capture_ok _ _ _ _ _ Hcollect)).
      assert (Hgrown : records_of st'
                       = (recs ++ [device_info_of (JInt (1 + Z.of_nat (List.length recs)))
                                     mac bt_mac (record_stamp (cycle_serial c)) port])%list).
      { destruct (capture_assigns_the_counter port (cycle_serial c) st recs _ _ st'
                    Hdb Hk Hcollect) as (_ & Hdb' & _).
        unfold records_of. rewrite Hdb'. reflexivity. }
      assert (Hlen : List.length (records_of st') = S (List.length (records_of st)))
        by (rewrite Hgrown, Hrecs, List.length_app; cbn [List.length]; lia).
      change (truthy_json (device_info_of _ mac bt_mac _ port)) with true. cbv iota.
      change (subscript (device_info_of (JInt (1 + Z.of_nat (List.length recs))) mac bt_mac
                (record_stamp (cycle_serial c)) port) "id")
        with (@inr row_error json (JInt (1 + Z.of_nat (List.length recs)))).
      cbv iota.
      destruct (flash_wanted auto_flash binary_path) as [path |].
      * destruct (negb (String.eqb (lower (PyStr.strip (cycle_answer c))) "n")).
        -- apply IH; [exact Hst' |]. rewrite List.length_app, Hlen.
           pose proof (attempted_at_most_two (cycle_flash c) port path
                         default_flash_address default_chip). lia.
        -- apply IH; [exact Hst' |]. rewrite Hlen. lia.
      * apply IH; [exact Hst' |]. rewrite Hlen. lia.
Qed.

Lemma first_start_sound b t : sound (first_start b t).
Proof.
  split.
  - exists []. repeat split. left. split; reflexivity.
  - exists []. split; reflexivity.
Qed.

Lemma run_collection_mode_invariant auto_flash binary_path attached cycles st :
  sound st ->
  let r := run_collection_mode auto_flash binary_path attached cycles st in
  sound (loop_state r)
  /\ (List.length (loop_esptool r) + 2 * List.length (records_of st)
      <= 2 * List.length (records_of (loop_state r)))%nat
  /\ (loop_ended r = StillRunning \/ loop_ended r = LoopRaised ValueError).
Proof.
  intros Hst. unfold run_collection_mode. cbv zeta.
  apply collection_loop_invariant; [exact Hst |]. cbn [List.length]. lia.
Qed.

(** Without an image to flash the loop hands esptool nothing. *)
Lemma collection_loop_no_flash auto_flash binary_path :
  flash_wanted auto_flash binary_path = None ->
  forall cycles st known screen tools,
    loop_esptool (collection_loop auto_flash binary_path cycles st known screen tools)
    = tools.
Proof.
  intros Hnone. induction cycles as [| c cycles IH]; intros st known screen tools;
    cbn [collection_loop]; [reflexivity |].
  destruct (py_len (mac_database (self st))) as [n | e]; [| reflexivity].
  cbv zeta.
  destruct (detect_esp32_port (Some known) (cycle_polls c) (cycle_pick c))
    as [lines [[port known'] |]]; [| reflexivity].
  destruct (collect_mac_from_reset port (cycle_serial c) st) as [[[dev | e] st'] |];
    [| reflexivity | reflexivity].
  destruct dev as [info |]; [| apply IH].
  destruct (truthy_json info); [| apply IH].
  destruct (subscript info "id") as [[key |] | id]; [reflexivity | reflexivity |].
  rewrite Hnone. apply IH.
Qed.

(** *** The ports on the screen *)

Lemma detected_app a b : detected (a ++ b) = (detected a ++ detected b)%list.
Proof. apply flat_map_app. Qed.

Lemma detected_capture l : detected (map FromCapture l) = [].
Proof. induction l as [| m l IH]; [reflexivity | exact IH]. Qed.

Lemma detected_flash l : detected (map FromFlash l) = [].
Proof. induction l as [| m l IH]; [reflexivity | exact IH]. Qed.

Lemma detect_lines known polls pick lines o :
  detect_esp32_port (Some known) polls pick = (lines, o) ->
  match o with
  | Some (port, current) =>
      detected (map FromWatch lines) = [port]
      /\ mem port known = false /\ mem port current = true
  | None => detected (map FromWatch lines) = []
  end.
Proof.
  unfold detect_esp32_port. cbv zeta.
  destruct (watch known polls pick) as [[port current] |] eqn:Hwatch;
    intros H; injection H as <- <-; [| reflexivity].
  destruct (watch_sound _ _ _ _ _ Hwatch) as (_ & devices & _ & _ & _ & -> & Hin & Hnew).
  split; [reflexivity |]. split; [exact Hnew |].
  rewrite mem_set_of. apply mem_In, Hin.
Qed.

Lemma adjacent_distinct_snoc x : forall l,
  adjacent_distinct l = true ->
  (forall earlier p, l = (earlier ++ [p])%list -> p <> x) ->
  adjacent_distinct (l ++ [x]) = true.
Proof.
  induction l as [| a l IH]; intros Hl Hlast; [reflexivity |].
  destruct l as [| b l].
  - cbn [app adjacent_distinct]. rewrite andb_true_r. apply negb_true_iff.
    apply String.eqb_neq. exact (Hlast [] a eq_refl).
  - change (negb (String.eqb a b) && adjacent_distinct ((b :: l) ++ [x])%list = true).
    change (negb (String.eqb a b) && adjacent_distinct (b :: l) = true) in Hl.
    apply andb_true_iff in Hl as [Hab Hl]. rewrite Hab. cbn [andb].
    apply IH; [exact Hl |].
    intros earlier p E. apply (Hlast (a :: earlier) p). rewrite E. reflexivity.
Qed.

Lemma ports_same screen known known' tail :
  ports_ok screen known ->
  detected tail = [] ->
  (forall p, mem p known = true -> mem p known' = true) ->
  ports_ok (screen ++ tail) known'.
Proof.
  intros [Hdistinct Hlast] Htail Hknown. unfold ports_ok.
  rewrite detected_app, Htail, List.app_nil_r. split; [exact Hdistinct |].
  intros earlier p E. exact (Hknown p (Hlast earlier p E)).
Qed.

Lemma ports_step screen known known' tail port :
  ports_ok screen known ->
  mem port known = false ->
  mem port known' = true ->
  detected tail = [port] ->
  ports_ok (screen ++ tail) known'.
Proof.
  intros [Hdistinct Hlast] Hnew Hknown Htail. unfold ports_ok.
  rewrite detected_app, Htail. split.
  - apply adjacent_distinct_snoc; [exact Hdistinct |].
    intros earlier p E ->. rewrite (Hlast earlier port E) in Hnew. discriminate Hnew.
  - intros earlier p E. apply List.app_inj_tail in E as [_ <-]. exact Hknown.
Qed.

Ltac detected_tail H :=
  rewrite ?detected_app, ?detected_capture, ?detected_flash, ?H;
  cbn [detected flat_map app]; rewrite ?detected_flash; reflexivity.

(** The screen of the loop shows no port twice in a row: every port detected
    is outside the set that the detection before it returned, in which the
    port detected before it is. *)
Lemma collection_loop_ports auto_flash binary_path :
  forall cycles st known screen tools,
    ports_ok screen known ->
    let r := collection_loop auto_flash binary_path cycles st known screen tools in
    ports_ok (loop_screen r) (loop_known r).
Proof.
  induction cycles as [| c cycles IH]; intros st known screen tools Hok;
    cbv zeta; cbn [collection_loop]; [exact Hok |].
  destruct (py_len (mac_database (self st))) as [n | e]; [| exact Hok].
  cbv zeta.
  destruct (detect_esp32_port (Some known) (cycle_polls c) (cycle_pick c))
    as [lines [[port known'] |]] eqn:Hdetect;
    apply detect_lines in Hdetect.
  2:{ cbn [loop_screen loop_known]. rewrite <- !List.app_assoc.
      apply (ports_same screen known); [exact Hok | detected_tail Hdetect | auto]. }
  destruct Hdetect as (Hlines & Hnew & Hknown).
  destruct (collect_mac_from_reset port (cycle_serial c) st) as [[[dev | e] st'] |].
  - destruct dev as [info |].
    + destruct (truthy_json info).
      * destruct (subscript info "id") as [[key |] | id].
        -- cbn [loop_screen loop_known]. rewrite <- !List.app_assoc.
           apply (ports_step screen known _ _ port); [exact Hok | exact Hnew | exact Hknown |].
           detected_tail Hlines.
        -- cbn [loop_screen loop_known]. rewrite <- !List.app_assoc.
           apply (ports_step screen known _ _ port); [exact Hok | exact Hnew | exact Hknown |].
           detected_tail Hlines.
        -- destruct (flash_wanted auto_flash binary_path) as [path |];
             [destruct (negb (String.eqb (lower (PyStr.strip (cycle_answer c))) "n")) |];
             apply IH; rewrite <- !List.app_assoc;
             (apply (ports_step screen known _ _ port);
              [exact Hok | exact Hnew | exact Hknown |]);
             detected_tail Hlines.
      * apply IH. rewrite <- !List.app_assoc.
        apply (ports_step screen known _ _ port); [exact Hok | exact Hnew | exact Hknown |].
        detected_tail Hlines.
    + apply IH. rewrite <- !List.app_assoc.
      apply (ports_step screen known _ _ port); [exact Hok | exact Hnew | exact Hknown |].
      detected_tail Hlines.
  - cbn [loop_screen loop_known]. rewrite <- !List.app_assoc.
    apply (ports_step screen known _ _ port); [exact Hok | exact Hnew | exact Hknown |].
    detected_tail Hlines.
  - cbn [loop_screen loop_known]. rewrite <- !List.app_assoc.
    apply (ports_step screen known _ _ port); [exact Hok | exact Hnew | exact Hknown |].
    detected_tail Hlines.
Qed.

(** In the collection mode, entered in a state that a run from a first
    start without a catalog file has reached, and whatever the turns of its
    loop bring (ports, serial lines, answers, flashing, a capture that
    raises): the catalog is a list of records with the identifiers
    1, 2, 3, ... in their order, the counter is the next one, every record
    has the shape the capture gives it, and the file, once written, holds
    that very list and counter. *)
Theorem collection_mode_keeps_catalog
    (baudrate timeout : Z) (script : list action) (st : state)
    (auto_flash : bool) (binary_path : option string)
    (attached : list string) (cycles : list cycle_env) :
  session baudrate timeout NoFile script = Some st ->
  let r := run_collection_mode auto_flash binary_path attached cycles st in
  exists recs,
    mac_database (self (loop_state r)) = JArr recs
    /\ map record_id recs = count_from 1 (List.length recs)
    /\ device_counter (self (loop_state r)) = JInt (1 + Z.of_nat (List.length recs))
    /\ forallb record_ok recs = true
    /\ ((disk (loop_state r) = NoFile /\ recs = [])
        \/ (file_member "devices" (disk (loop_state r)) = Some (JArr recs)
            /\ file_member "next_id" (disk (loop_state r))
               = Some (JInt (1 + Z.of_nat (List.length recs))))).
Proof.
  intros H. cbv zeta.
  destruct (run_collection_mode_invariant auto_flash binary_path attached cycles st
              (session_sound _ _ _ _ H)) as ([Hcons Hshape] & _).
  destruct Hcons as (recs & Hdb & [Hids Hk] & Hdisk).
  destruct Hshape as (recs' & Hdb' & Hok).
  rewrite Hdb in Hdb'. injection Hdb' as <-.
  exists recs. repeat (split; [assumption |]).
  destruct Hdisk as [Hnone | [now Hfile]]; [left; exact Hnone | right].
  rewrite Hfile, Hk. split; reflexivity.
Qed.

Lemma collection_mode_keeps_catalog_witness :
  let good := mkEnv None 100 [mkTick 101 (Line "MAC: 24:6F:28:AA:BB:CC")]
                "2024-01-01T00:00:00" "2024-01-01T00:00:01" in
  let bad := mkEnv None 100 [mkTick 101 (Line "Got mac aa:bb:cc:dd:ee:ff ready")]
               "2024-01-01T00:00:00" "2024-01-01T00:00:01" in
  let tool := mkFlashEnv true (Exited 0) (Exited 0) in
  let cycles := [mkCycle [[]; ["COM3"]] 0 good "y" tool;
                 mkCycle [["COM3"]; ["COM3"; "COM4"]] 0 good "n" tool;
                 mkCycle [["COM5"]] 0 bad "" tool] in
  exists st recs,
    session 115200 30 NoFile [] = Some st
    /\ mac_database
         (self (loop_state (run_collection_mode true (Some "fw.bin") [] cycles st)))
       = JArr recs
    /\ map record_id recs = [Some (JInt 1); Some (JInt 2)]
    /\ forallb record_ok recs = true.
Proof.
  cbv zeta. eexists.
  match goal with
  | |- exists recs, ?s = Some ?st /\ _ =>
      assert (Hrun : s = Some st) by (vm_compute; reflexivity)
  end.
  match goal with
  | |- context [run_collection_mode ?a ?b ?p ?c _] =>
      destruct (collection_mode_keeps_catalog _ _ _ _ a b p c Hrun)
        as (recs & Hdb & Hids & _ & Hok & _)
  end.
  pose proof Hdb as E. vm_compute in E. injection E as <-.
  eexists. split; [exact Hrun |]. split; [exact Hdb |]. split; [reflexivity | exact Hok].
Defined.





Lemma collection_loop_screen_grows auto_flash binary_path :
  forall cycles st known screen tools,
    exists more,
      loop_screen (collection_loop auto_flash binary_path cycles st known screen tools)
      = (screen ++ more)%list.
Proof.
  induction cycles as [| c cycles IH]; intros st known screen tools;
    cbn [collection_loop].
  - exists []. cbn [loop_screen]. rewrite List.app_nil_r. reflexivity.
  - destruct (py_len (mac_database (self st))) as [n | e];
      [| exists []; cbn [loop_screen]; rewrite List.app_nil_r; reflexivity].
    cbv zeta.
    destruct (detect_esp32_port (Some known) (cycle_polls c) (cycle_pick c))
      as [lines [[port known'] |]];
      [| cbn [loop_screen]; rewrite <- !List.app_assoc; eexists; reflexivity].
    destruct (collect_mac_from_reset port (cycle_serial c) st)
      as [[[dev | e] st'] |];
      [| cbn [loop_screen]; rewrite <- !List.app_assoc; eexists; reflexivity
       | cbn [loop_screen]; rewrite <- !List.app_assoc; eexists; reflexivity].
    destruct dev as [info |];
      [destruct (truthy_json info);
       [destruct (subscript info "id") as [[key |] | id];
        [cbn [loop_screen]; rewrite <- !List.app_assoc; eexists; reflexivity
        | cbn [loop_screen]; rewrite <- !List.app_assoc; eexists; reflexivity
        | destruct (flash_wanted auto_flash binary_path) as [path |];
          [destruct (negb (String.eqb (lower (PyStr.strip (cycle_answer c))) "n"))
          |]] |] |];
      match goal with
      | |- context [collection_loop _ _ cycles ?s ?k ?scr ?t] =>
          destruct (IH s k scr t) as [more ->]
      end;
      rewrite <- !List.app_assoc; eexists; reflexivity.
Qed.

(** The first port that the loop reports is outside the set it started
    with. *)
Lemma collection_loop_first_port auto_flash binary_path cycles st known screen tools :
  detected screen = [] ->
  match detected (loop_screen
                    (collection_loop auto_flash binary_path cycles st known screen tools))
  with
  | first :: _ => mem first known = false
  | [] => True
  end.
Proof.
  intros Hnone. destruct cycles as [| c cycles]; cbn [collection_loop].
  - cbn [loop_screen]. rewrite Hnone. exact I.
  - destruct (py_len (mac_database (self st))) as [n | e];
      [| cbn [loop_screen]; rewrite Hnone; exact I].
    cbv zeta.
    destruct (detect_esp32_port (Some known) (cycle_polls c) (cycle_pick c))
      as [lines [[port known'] |]] eqn:Hdetect;
      apply detect_lines in Hdetect.
    2:{ cbn [loop_screen]. rewrite !detected_app, Hnone, Hdetect. exact I. }
    destruct Hdetect as (Hlines & Hnew & _).
    destruct (collect_mac_from_reset port (cycle_serial c) st)
      as [[[dev | e] st'] |];
      [| cbn [loop_screen]; rewrite !detected_app, Hnone, Hlines; exact Hnew
       | cbn [loop_screen]; rewrite !detected_app, Hnone, Hlines; exact Hnew].
    destruct dev as [info |];
      [destruct (truthy_json info);
       [destruct (subscript info "id") as [[key |] | id];
        [cbn [loop_screen]; rewrite !detected_app, Hnone, Hlines; exact Hnew
        | cbn [loop_screen]; rewrite !detected_app, Hnone, Hlines; exact Hnew
        | destruct (flash_wanted auto_flash binary_path) as [path |];
          [destruct (negb (String.eqb (lower (PyStr.strip (cycle_answer c))) "n"))
          |]] |] |];
      match goal with
      | |- context [collection_loop _ _ cycles ?s ?k ?scr ?t] =>
          destruct (collection_loop_screen_grows auto_flash binary_path cycles s k scr t)
            as [more ->]
      end;
      rewrite !detected_app, Hnone, Hlines; exact Hnew.
Qed.

(** The collection mode never reports the same port twice in a row,
    whatever the ports do and whatever state it is entered in: a board put
    in under the name of the one just taken out is passed over, and the
    first port reported is none of those attached when the mode started. *)
Theorem collection_mode_ports_differ
    (auto_flash : bool) (binary_path : option string)
    (attached : list string) (cycles : list cycle_env) (st : state) :
  let ports :=
    detected (loop_screen (run_collection_mode auto_flash binary_path attached cycles st)) in
  adjacent_distinct ports = true
  /\ match ports with
     | first :: _ => mem first attached = false
     | [] => True
     end.
Proof.
  cbv zeta. unfold run_collection_mode. cbv zeta.
  assert (Hempty : detected match flash_wanted auto_flash binary_path with
                            | Some path => [ModeBanner; AutoFlashEnabled path]
                            | None => [ModeBanner]
                            end = [])
    by (destruct (flash_wanted auto_flash binary_path); reflexivity).
  split.
  - apply (collection_loop_ports auto_flash binary_path cycles st (set_of attached)).
    split; rewrite Hempty; [reflexivity |].
    intros [| x earlier] p E; discriminate E.
  - pose proof (collection_loop_first_port auto_flash binary_path cycles st
                  (set_of attached) _ [] Hempty) as Hfirst.
    clear Hempty. destruct (detected (loop_screen _)) as [| first rest]; [exact I |].
    rewrite mem_set_of in Hfirst. exact Hfirst.
Qed.

(** ** The flashing, as its caller sees it *)

Lemma erase_is_not_write chip port flash_address binary_path :
  erase_cmd chip port <> flash_cmd chip port flash_address binary_path.
Proof. unfold erase_cmd, flash_cmd. intros H. discriminate H. Qed.

Lemma exited_well_code code : exited_well (Exited code) = (code =? 0).
Proof. reflexivity. Qed.

(** [flash_firmware] returns [True] exactly when the image file is there
    and both runs of esptool, the erasing and then the writing, exit with
    the code 0. *)
Theorem flash_succeeds_iff_both_steps_succeed
    (env : flash_env) (port binary_path flash_address chip : string) :
  flashed (flash_firmware env port binary_path flash_address chip) = true
  <-> binary_exists env = true
      /\ exited_well (erase_outcome env) = true
      /\ exited_well (write_outcome env) = true.
Proof.
  unfold flash_firmware. cbv zeta.
  destruct (binary_exists env); cbn [negb flashed];
    [| split; [discriminate | intros [H _]; discriminate H]].
  destruct (erase_outcome env) as [code |]; cbn [flashed exited_well];
    [| split; [discriminate | intros (_ & H & _); discriminate H]].
  destruct (code =? 0); cbn [negb flashed];
    [| split; [discriminate | intros (_ & H & _); discriminate H]].
  destruct (write_outcome env) as [code' |]; cbn [flashed exited_well];
    [| split; [discriminate | intros (_ & _ & H); discriminate H]].
  destruct (code' =? 0); cbn [negb flashed];
    [split; auto | split; [discriminate | intros (_ & _ & H); discriminate H]].
Qed.

(** [flash_firmware] hands the writing of the image to esptool exactly when
    the image file is there and the erasing exited with the code 0, and the
    erasing exactly when the image file is there: after a failed erasing
    nothing is written, and without the file esptool is not run at all. *)
Theorem flash_writes_only_after_erase
    (env : flash_env) (port binary_path flash_address chip : string) :
  let run := flash_firmware env port binary_path flash_address chip in
  (In (flash_cmd chip port flash_address binary_path) (attempted run)
   <-> binary_exists env = true /\ exited_well (erase_outcome env) = true)
  /\ (In (erase_cmd chip port) (attempted run) <-> binary_exists env = true)
  /\ (binary_exists env = false <-> attempted run = []).
Proof.
  cbv zeta. unfold flash_firmware. cbv zeta.
  pose proof (erase_is_not_write chip port flash_address binary_path) as Hne.
  destruct (binary_exists env); cbn [negb attempted].
  2:{ cbn [In]. repeat split; try tauto; try discriminate; intros [H _]; discriminate H. }
  destruct (erase_outcome env) as [code |]; cbn [attempted exited_well].
  2:{ cbn [In]. repeat split; try tauto; try discriminate; auto;
        intros [_ H]; discriminate H. }
  destruct (code =? 0); cbn [negb attempted].
  2:{ cbn [In]. repeat split; try tauto; try discriminate; auto;
        intros [_ H]; discriminate H. }
  destruct (write_outcome env) as [code' |];
    [destruct (code' =? 0) |]; cbn [negb attempted In];
    repeat split; try tauto; try discriminate; auto.
Qed.

(** ** The command line *)

Lemma flash_wanted_not_given o : given o = false -> flash_wanted (given o) o = None.
Proof.
  destruct o as [path |]; [| reflexivity]. cbn [given flash_wanted].
  intros ->. reflexivity.
Qed.

(** A new process over the file that a sound state left finds the records
    and the counter of that state. *)
Lemma init_over_sound_disk b t st :
  sound st ->
  exists st',
    init b t (disk st) = Some (Ok tt, st')
    /\ mac_database (self st') = mac_database (self st)
    /\ device_counter (self st') = device_counter (self st)
    /\ disk st' = disk st.
Proof.
  intros [(recs & Hdb & [_ Hk] & Hdisk) _]. unfold init.
  destruct Hdisk as [[Hdisk ->] | [now Hdisk]]; rewrite Hdisk.
  - rewrite load_database_no_file. eexists. split; [reflexivity |].
    cbn [self disk mac_database device_counter]. rewrite Hdb, Hk. auto.
  - rewrite (load_database_object _ _ _ (Z.of_nat (List.length recs))) by reflexivity.
    eexists. split; [reflexivity |].
    cbn [lookup String.eqb Ascii.eqb Bool.eqb self disk mac_database device_counter].
    rewrite Hdb. auto.
Qed.

(** A catalog file that does not parse stops every run of the program at
    its start with the decoding error, whatever the options: also a run
    with [--flash], which makes no use of the catalog. *)
Theorem main_stops_on_unparsable_catalog (a : args) (w : main_env) :
  catalog_file w = Unparsable ->
  main a w = Some (StartupRaised JSONDecodeError).
Proof.
  intros H. unfold main, init. rewrite H, load_database_unparsable. reflexivity.
Qed.

Lemma main_stops_on_unparsable_catalog_witness :
  main (mkArgs false (Some "fw.bin") (Some "COM3") None "0x10000" "esp32" false)
    (mkMainEnv Unparsable [] [] (mkFlashEnv true (Exited 0) (Exited 0)))
  = Some (StartupRaised JSONDecodeError).
Proof. apply main_stops_on_unparsable_catalog. reflexivity. Defined.

(** What the collection mode has collected, a later run with [--show]
    lists: started over the file that the mode left (the mode entered in a
    state that a run from a first start without a catalog file reached,
    and left at any point), the program prints the head with the number of
    records, one row for each record of the mode's catalog in its order
    with the identifiers 1, 2, 3, ..., and the closing rule. *)
Theorem show_lists_what_collection_mode_left
    (baudrate timeout : Z) (script : list action) (st : state)
    (auto_flash : bool) (binary_path : option string)
    (attached : list string) (cycles : list cycle_env)
    (a : args) (w : main_env) :
  session baudrate timeout NoFile script = Some st ->
  let r := run_collection_mode auto_flash binary_path attached cycles st in
  catalog_file w = disk (loop_state r) ->
  opt_show a = true ->
  exists recs rows,
    mac_database (self (loop_state r)) = JArr recs
    /\ main a w
       = Some (Showed ([TopRule; Title (Z.of_nat (List.length recs)); Rule; Heads; Dashes]
                         ++ rows ++ [Rule])%list None)
    /\ map row_id rows = count_from 1 (List.length recs).
Proof.
  intros H. cbv zeta. intros Hfile Hshow.
  destruct (run_collection_mode_invariant auto_flash binary_path attached cycles st
              (session_sound _ _ _ _ H)) as (Hsound & _).
  destruct (sound_records _ Hsound) as (recs & Hdb & _ & _ & Hids & Hok).
  destruct (init_over_sound_disk 115200 30 _ Hsound) as (st' & Hinit & Hdb' & _).
  destruct (print_rows_ok recs Hok) as (rows & Hrows & Hrow_ids).
  exists recs, rows. split; [exact Hdb |]. split; [| congruence].
  unfold main. rewrite Hfile, Hinit, Hshow.
  unfold print_database. rewrite Hdb', Hdb. cbn [py_len items_of]. rewrite Hrows.
  rewrite <- List.app_assoc. reflexivity.
Qed.

Lemma show_lists_what_collection_mode_left_witness :
  let good := mkEnv None 100 [mkTick 101 (Line "MAC: 24:6F:28:AA:BB:CC")]
                "2024-01-01T00:00:00" "2024-01-01T00:00:01" in
  let tool := mkFlashEnv true (Exited 0) (Exited 0) in
  let cycles := [mkCycle [[]; ["COM3"]] 0 good "y" tool;
                 mkCycle [["COM3"]; ["COM3"; "COM4"]] 0 good "n" tool] in
  let shown := mkArgs false None None None "0x10000" "esp32" true in
  exists st left_file rows,
    session 115200 30 NoFile [] = Some st
    /\ left_file = disk (loop_state (run_collection_mode false None [] cycles st))
    /\ main shown (mkMainEnv left_file [] [] tool)
       = Some (Showed ([TopRule; Title 2; Rule; Heads; Dashes] ++ rows ++ [Rule])%list None)
    /\ map row_id rows = [Some (JInt 1); Some (JInt 2)].
Proof.
  cbv zeta. eexists. eexists.
  match goal with
  | |- exists rows, ?s = Some ?st /\ _ =>
      assert (Hrun : s = Some st) by (vm_compute; reflexivity)
  end.
  match goal with
  | |- exists rows, _ /\ ?f = ?d /\ _ =>
      assert (Hfile : f = d) by (vm_compute; reflexivity)
  end.
  match goal with
  | |- context [main ?a (mkMainEnv ?file ?ports ?turns ?tool)] =>
      match type of Hfile with
      | _ = disk (loop_state (run_collection_mode ?f ?b ?p ?c _)) =>
          destruct (show_lists_what_collection_mode_left _ _ _ _ f b p c a
                      (mkMainEnv file ports turns tool) Hrun Hfile eq_refl)
            as (recs & rows & Hdb & Hmain & Hids)
      end
  end.
  vm_compute in Hdb. injection Hdb as <-.
  exists rows. split; [exact Hrun |]. split; [exact Hfile |].
  split; [exact Hmain | exact Hids].
Defined.

(** The program runs esptool only when asked to: not with [--show], in the
    collection mode only when [--auto-flash] names an image, and otherwise
    only with both [--flash] and [--port]. *)
Theorem main_runs_esptool_only_when_asked (a : args) (w : main_env) (o : main_outcome) :
  main a w = Some o ->
  esptool_of o <> [] ->
  opt_show a = false
  /\ ((opt_collect a = true /\ given (opt_auto_flash a) = true)
      \/ (opt_collect a = false
          /\ given (opt_flash a) = true /\ given (opt_port a) = true)).
Proof.
  unfold main. intros H Hran.
  destruct (init 115200 30 (catalog_file w)) as [[[[] | e] manager] |];
    [| injection H as <-; contradiction Hran; reflexivity | discriminate H].
  destruct (opt_show a).
  { destruct (print_database (self manager)) as [lines e].
    injection H as <-. contradiction Hran. reflexivity. }
  split; [reflexivity |].
  destruct (opt_collect a).
  - left. split; [reflexivity |].
    destruct (given (opt_auto_flash a)) eqn:Hgiven; [reflexivity |].
    injection H as <-. contradiction Hran. cbn [esptool_of].
    unfold run_collection_mode. cbv zeta.
    apply collection_loop_no_flash.
    rewrite <- Hgiven. apply flash_wanted_not_given. exact Hgiven.
  - right. split; [reflexivity |].
    destruct (opt_flash a) as [binary_path |]; cbn [given];
      [| injection H as <-; contradiction Hran; reflexivity].
    destruct (truthy binary_path);
      [| injection H as <-; contradiction Hran; reflexivity].
    destruct (opt_port a) as [port |]; cbn [given];
      [| injection H as <-; contradiction Hran; reflexivity].
    destruct (truthy port);
      [auto | injection H as <-; contradiction Hran; reflexivity].
Qed.

Lemma main_runs_esptool_only_when_asked_witness :
  let a := mkArgs true None None (Some "fw.bin") "0x10000" "esp32" false in
  opt_show a = false
  /\ ((opt_collect a = true /\ given (opt_auto_flash a) = true)
      \/ (opt_collect a = false
          /\ given (opt_flash a) = true /\ given (opt_port a) = true)).
Proof.
  cbv zeta.
  eapply (main_runs_esptool_only_when_asked
            (mkArgs true None None (Some "fw.bin") "0x10000" "esp32" false)
            (mkMainEnv NoFile []
               [mkCycle [[]; ["COM3"]] 0
                  (mkEnv None 100 [mkTick 101 (Line "MAC: 24:6F:28:AA:BB:CC")]
                     "2024-01-01T00:00:00" "2024-01-01T00:00:01")
                  " Y " (mkFlashEnv true (Exited 0) (Exited 1))]
               (mkFlashEnv true (Exited 0) (Exited 1)))).
  - vm_compute. reflexivity.
  - vm_compute. discriminate.
Defined.

(** ** Lines without an address *)

(** [parse_mac_from_boot_message] finds an address only in a line with six
    hex byte-groups or more. *)
Theorem parse_mac_found_needs_six_groups (line s : string) :
  parse_mac_from_boot_message line = Some s ->
  (6 <= count_hex_pairs line)%nat.
Proof.
  intros H. destruct (le_lt_dec 6 (count_hex_pairs line)) as [Hle | Hlt]; [exact Hle |].
  rewrite (parse_mac_none_below_six_groups line Hlt) in H. discriminate H.
Qed.

Lemma parse_mac_found_needs_six_groups_witness :
  (6 <= count_hex_pairs "wifi: mode : sta (24:6f:28:aa:bb:cc)")%nat.
Proof.
  apply (parse_mac_found_needs_six_groups _ "24:6F:28:AA:BB:CC").
  vm_compute. reflexivity.
Defined.

(** ** The display of a catalog with a record it cannot show *)

Lemma print_rows_stops good bad rest e :
  (forall device, In device good -> exists row, row_of device = inr row) ->
  row_of bad = inl e ->
  exists rows,
    print_rows (good ++ bad :: rest) = (rows, Some e)
    /\ List.length rows = List.length good.
Proof.
  intros Hgood Hbad. induction good as [| d good IH].
  - exists []. cbn [app print_rows]. rewrite Hbad. split; reflexivity.
  - destruct (Hgood d (or_introl eq_refl)) as [row Hrow].
    destruct IH as (rows & Hrows & Hlen);
      [intros device Hin; apply Hgood; right; exact Hin |].
    exists (row :: rows). cbn [app print_rows]. rewrite Hrow, Hrows.
    cbn [List.length]. rewrite Hlen. split; reflexivity.
Qed.

(** [print_database] stops at the first record it cannot show (a record
    without one of the four keys raises [KeyError], a value that takes no
    format raises [TypeError]): the head and the rows of the records before
    it are printed, the records after it are not, and neither is the
    closing rule; the head still counts all the records. *)
Theorem print_database_stops_at_first_bad_record
    (m : manager) (good rest : list json) (bad : json) (e : row_error) :
  mac_database m = JArr (good ++ bad :: rest) ->
  (forall device, In device good -> exists row, row_of device = inr row) ->
  row_of bad = inl e ->
  exists rows,
    print_database m
    = (([TopRule; Title (Z.of_nat (List.length good + 1 + List.length rest));
         Rule; Heads; Dashes] ++ rows)%list, Some e)
    /\ List.length rows = List.length good.
Proof.
  intros Hdb Hgood Hbad.
  destruct (print_rows_stops good bad rest e Hgood Hbad) as (rows & Hrows & Hlen).
  exists rows. split; [| exact Hlen].
  unfold print_database. rewrite Hdb. cbn [py_len items_of]. rewrite Hrows.
  rewrite List.length_app. cbn [List.length].
  replace (List.length good + S (List.length rest))%nat
    with (List.length good + 1 + List.length rest)%nat by lia.
  reflexivity.
Qed.

Lemma print_database_stops_at_first_bad_record_witness :
  let first := device_info_of (JInt 1) "24:6F:28:AA:BB:CC" "24:6F:28:AA:BB:CE"
                 "2024-01-01T00:00:00" "COM3" in
  let second := JObj [("id", JInt 2); ("wifi_mac", JStr "24:6F:28:AA:BB:D0")] in
  let third := device_info_of (JInt 3) "24:6F:28:AA:BB:D4" "24:6F:28:AA:BB:D6"
                 "2024-01-01T00:00:02" "COM3" in
  exists rows,
    print_database
      (mkManager 115200 30 (JArr [first; second; third]) (JInt 4)
         "esp32_mac_database.json")
    = (([TopRule; Title 3; Rule; Heads; Dashes] ++ rows)%list,
       Some (RowKeyError "bt_mac"))
    /\ List.length rows = 1%nat.
Proof.
  cbv zeta.
  apply (print_database_stops_at_first_bad_record _
           [device_info_of (JInt 1) "24:6F:28:AA:BB:CC" "24:6F:28:AA:BB:CE"
              "2024-01-01T00:00:00" "COM3"]
           [device_info_of (JInt 3) "24:6F:28:AA:BB:D4" "24:6F:28:AA:BB:D6"
              "2024-01-01T00:00:02" "COM3"]
           (JObj [("id", JInt 2); ("wifi_mac", JStr "24:6F:28:AA:BB:D0")])).
  - reflexivity.
  - intros device [<- | []]. eexists. reflexivity.
  - reflexivity.
Defined.
